(** * Connect leaf-certificate cache type ([ConnectCALeaf])

    A shallow embedding of the leaf-certificate cache entry of
    [agent/cache-types] (package [cachetype]): the renewal-time policy
    [calculateSoftExpiry], the leaf generator [generateNewLeaf], the
    blocking [Fetch] with its three-way [select] loop, and the shared roots
    watcher with its reference-counted life cycle; and of the retry joiner
    of package [agent] ([retryJoin] and its two starters).

    Conventions of the embedding:
    - a [time.Time] is the number of nanoseconds since the zero [Time]
      (so [IsZero] is a comparison with 0), unbounded; a [time.Duration] is
      an int64 number of nanoseconds and [Sub] saturates;
    - [float64] values are IEEE 754 binary64 numbers, computed with the
      operations of [SpecFloat] at precision 53;
    - pointers to [fetchState] are locations of a store, because [Fetch] and
      [generateNewLeaf] update the state of the caller in place; a nil
      dereference is a panic;
    - collaborators outside the package (the roots cache, the signing RPC,
      key generation, CSR construction, certificate parsing, the random
      source) are inputs of the functions that call them;
    - a blocking [select] is driven by the list of its wake-ups, each with
      the instant it happens at; a wake-up is possible only once its timer
      has fired, and the code between two [select]s takes no time;
    - the steps that run under [rootWatchMu] and the steps of a watcher
      goroutine are atomic, and runs interleave them in any order.

    The first part holds the embedding, the second the proofs. *)

From Stdlib Require Import ZArith Lia Bool SpecFloat.
From stdpp Require Import base option gmap sets list strings.

Local Open Scope Z_scope.

(** ** Go scalars *)

Definition minInt64 : Z := - 2 ^ 63.
Definition maxInt64 : Z := 2 ^ 63 - 1.

(** [time.Duration]: int64 nanoseconds.  [time.Time]: an instant, counted in
    nanoseconds from the zero [Time]. *)
Abbreviation Duration := Z (only parsing).
Abbreviation Time := Z (only parsing).

Definition Nanosecond : Duration := 1.
Definition Second : Duration := 1000000000 * Nanosecond.
Definition Minute : Duration := 60 * Second.
Definition Hour : Duration := 60 * Minute.

(** [t.Sub(u)] saturates at the bounds of [Duration]. *)
Definition Time_Sub (t u : Time) : Duration :=
  Z.max minInt64 (Z.min maxInt64 (t - u)).
Definition Time_Add (t : Time) (d : Duration) : Time := t + d.
Definition Time_After (t u : Time) : bool := u <? t.
Definition Time_Before (t u : Time) : bool := t <? u.
Definition Time_IsZero (t : Time) : bool := t =? 0.

(** ** binary64 arithmetic, as used by [float64(certLifetime) * 0.6] *)

Module Float64.
(** [float64(z)] for an integer [z]: rounded to nearest, ties to even. *)
Definition of_int64 (z : Z) : spec_float := binary_normalize 53 1024 z 0 false.

Definition mul (x y : spec_float) : spec_float := SFmul 53 1024 x y.

(** [int64(f)]: truncation toward zero.  Go leaves the conversion of a
    value outside int64 implementation-dependent; amd64 yields the least
    int64, which is what the last two cases return. *)
Definition to_int64 (f : spec_float) : Z :=
  match f with
  | S754_zero _ => 0
  | S754_finite s m e =>
      let v := cond_Zopp s (Z.shiftl (Zpos m) e) in
      if (minInt64 <=? v) && (v <=? maxInt64) then v else minInt64
  | S754_infinity _ | S754_nan => minInt64
  end.

(** The constants [0.6] and [0.9] converted to float64: the binary64
    numbers nearest to 6/10 and 9/10. *)
Definition c0_6 : spec_float := S754_finite false 5404319552844595 (-53).
Definition c0_9 : spec_float := S754_finite false 8106479329266893 (-53).
End Float64.

(** [time.Duration(float64(d) * c)]. *)
Definition scaleDuration (c : spec_float) (d : Duration) : Duration :=
  Float64.to_int64 (Float64.mul (Float64.of_int64 d) c).

(** ** Data model *)

Abbreviation error := string (only parsing).

Inductive errorOr (A : Type) : Type :=
| Ok (a : A)
| Err (e : error).
Arguments Ok {A} a.
Arguments Err {A} e.

(** Modelled from the spec: [structs.IssuedCert] is declared outside the
    package; these are the attributes the spec lists and the source reads. *)
Record IssuedCert := {
  CertPEM : string;
  PrivateKeyPEM : string;
  ValidAfter : Time;
  ValidBefore : Time;
  ModifyIndex : Z
}.

(** Modelled from the spec: [structs.CARoot] and [structs.IndexedCARoots]
    are declared outside the package; the fields are those the source reads. *)
Record CARoot := {
  ID : string;
  SigningKeyID : string;
  Active : bool
}.

Record IndexedCARoots := {
  ActiveRootID : string;
  TrustDomain : string;
  Roots : list CARoot
}.

(** [fetchState]: per-entry metadata stored next to each cert in the cache. *)
Record fetchState := {
  authorityKeyID : string;
  forceExpireAfter : Time
}.

(** A [*fetchState] is a location of the store; [None] is the nil pointer. *)
Abbreviation loc := positive (only parsing).
Abbreviation heap := (gmap positive fetchState) (only parsing).

Record ConnectCALeafRequest := {
  Token : string;
  Datacenter : string;
  Service : string;
  MinQueryIndex : Z
}.

(** Values of interface type ([interface{}], [cache.Request]) with the
    dynamic types that reach this package.  A typed pointer may be nil. *)
Inductive any :=
| any_nil
| any_IssuedCert (p : option IssuedCert)
| any_fetchState (p : option loc)
| any_IndexedCARoots (p : option IndexedCARoots)
| any_ConnectCALeafRequest (p : option ConnectCALeafRequest)
| any_other.

(** Modelled from the spec: [cache.FetchResult] and [cache.FetchOptions] are
    declared outside the package (in [agent/cache]); the spec gives [opts] a
    caller timeout and an optional last result of value, state and index. *)
Record FetchResult := {
  Value : any;
  State : any;
  Index : Z
}.

Record FetchOptions := {
  MinIndex : Z;
  Timeout : Duration;
  LastResult : option FetchResult
}.

(** The zero value of [cache.FetchResult] ([var result cache.FetchResult]). *)
Definition zeroFetchResult : FetchResult :=
  {| Value := any_nil; State := any_nil; Index := 0 |}.

(** ** Renewal-time policy *)

(** The three [return] statements of [calculateSoftExpiry]. *)
Inductive softExpiryReturn :=
| ReturnTooShort      (* certLifetime < 10*time.Minute *)
| ReturnHardRenew     (* now.After(hardRenewTime) *)
| ReturnWindow.       (* the final return *)

(** [calculateSoftExpiry], together with the [return] it leaves by. *)
Definition calculateSoftExpiry_at (now : Time) (cert : IssuedCert)
  : softExpiryReturn * (Time * Time) :=
  let certLifetime := Time_Sub (ValidBefore cert) (ValidAfter cert) in
  if certLifetime <? 10 * Minute then (ReturnTooShort, (now, now))
  else
    let softRenewTime :=
      Time_Add (ValidAfter cert) (scaleDuration Float64.c0_6 certLifetime) in
    let hardRenewTime :=
      Time_Add (ValidAfter cert) (scaleDuration Float64.c0_9 certLifetime) in
    if Time_After now hardRenewTime then (ReturnHardRenew, (now, now))
    else
      let softRenewTime :=
        if Time_After now softRenewTime then now else softRenewTime in
      (ReturnWindow, (softRenewTime, hardRenewTime)).

Definition calculateSoftExpiry (now : Time) (cert : IssuedCert) : Time * Time :=
  snd (calculateSoftExpiry_at now cert).

(** ** Roots *)

Fixpoint activeRootHasKey_loop (roots : list CARoot) (currentSigningKeyID : string) : bool :=
  match roots with
  | [] => false
  | ca :: rest =>
      if Active ca then
        if String.eqb (SigningKeyID ca) currentSigningKeyID then true else false
      else activeRootHasKey_loop rest currentSigningKeyID
  end.

Definition activeRootHasKey (roots : IndexedCARoots) (currentSigningKeyID : string) : bool :=
  activeRootHasKey_loop (Roots roots) currentSigningKeyID.

(** [rootsFromCache]: [get] is what [c.Cache.Get(ConnectCARootName, ...)]
    returned at this call, the raw value or the error. *)
Definition rootsFromCache (get : errorOr any) : option IndexedCARoots * option error :=
  match get with
  | Err err => (None, Some err)
  | Ok rawRoots =>
      match rawRoots with
      | any_IndexedCARoots roots => (roots, None)
      | _ => (None, Some "invalid RootCA response type"%string)
      end
  end.

(** ** Outcomes of a run *)

(** A call either returns, panics on a nil dereference, is still blocked in
    its [select] when the supplied events are used up, or was handed an event
    that cannot happen at that time. *)
Inductive run (A : Type) : Type :=
| Done (a : A)
| Panic
| Blocked
| Infeasible.
Arguments Done {A} a.
Arguments Panic {A}.
Arguments Blocked {A}.
Arguments Infeasible {A}.

Definition run_bind {A B} (m : run A) (k : A -> run B) : run B :=
  match m with
  | Done a => k a
  | Panic => Panic
  | Blocked => Blocked
  | Infeasible => Infeasible
  end.

Notation "x <- m ;; k" := (run_bind m (fun x => k))
  (at level 100, m at next level, right associativity).

(** Dereferencing a pointer panics on nil. *)
Definition deref {A} (p : option A) : run A :=
  match p with Some a => Done a | None => Panic end.

Definition load (h : heap) (p : option loc) : run fetchState :=
  l <- deref p ;; deref (h !! l).

Definition store_forceExpireAfter (h : heap) (p : option loc) (t : Time) : run heap :=
  l <- deref p ;;
  s <- deref (h !! l) ;;
  Done (<[l := {| authorityKeyID := authorityKeyID s; forceExpireAfter := t |}]> h).

Definition store_authorityKeyID (h : heap) (p : option loc) (k : string) : run heap :=
  l <- deref p ;;
  s <- deref (h !! l) ;;
  Done (<[l := {| authorityKeyID := k; forceExpireAfter := forceExpireAfter s |}]> h).

(** ** Leaf generator *)

(** Values exchanged with package [connect] and with the signing RPC. *)
Module connect.
Record SpiffeIDService := {
  Host : string;
  Datacenter : string;
  Namespace : string;
  Service : string
}.
(** The part of a parsed [x509.Certificate] the source reads. *)
Record Certificate := { AuthorityKeyId : string }.
End connect.

Module structs.
Record CASignRequest := {
  Token : string;
  Datacenter : string;
  CSR : string
}.
End structs.

(** The collaborators [generateNewLeaf] calls, as seen by one call: what the
    roots cache, [connect.GeneratePrivateKey], [connect.CreateCSR], the
    ["ConnectCA.Sign"] RPC and [connect.ParseCert] answer. *)
Record externals := {
  Cache_Get : errorOr any;
  GeneratePrivateKey : errorOr (string * string);
  CreateCSR : connect.SpiffeIDService -> string -> errorOr string;
  RPC_Sign : structs.CASignRequest -> errorOr IssuedCert;
  ParseCert : string -> errorOr connect.Certificate;
  HexString : string -> string
}.

Definition generateNewLeaf (ext : externals) (req : option ConnectCALeafRequest)
    (state : option loc) (h : heap) : run (heap * (FetchResult * option error)) :=
  let result := zeroFetchResult in
  match rootsFromCache (Cache_Get ext) with
  | (_, Some err) => Done (h, (result, Some err))
  | (roots, None) =>
      roots <- deref roots ;;
      if String.eqb (TrustDomain roots) "" then
        Done (h, (result, Some "cluster has no CA bootstrapped yet"%string))
      else
        req <- deref req ;;
        let serviceID :=
          {| connect.Host := TrustDomain roots;
             connect.Datacenter := Datacenter req;
             connect.Namespace := "default";
             connect.Service := Service req |} in
        match GeneratePrivateKey ext with
        | Err err => Done (h, (result, Some err))
        | Ok (pk, pkPEM) =>
            match CreateCSR ext serviceID pk with
            | Err err => Done (h, (result, Some err))
            | Ok csr =>
                let args :=
                  {| structs.Token := Token req;
                     structs.Datacenter := Datacenter req;
                     structs.CSR := csr |} in
                match RPC_Sign ext args with
                | Err err => Done (h, (result, Some err))
                | Ok reply =>
                    let reply :=
                      {| CertPEM := CertPEM reply;
                         PrivateKeyPEM := pkPEM;
                         ValidAfter := ValidAfter reply;
                         ValidBefore := ValidBefore reply;
                         ModifyIndex := ModifyIndex reply |} in
                    (* Reset the forcedExpiry in the state *)
                    h <- store_forceExpireAfter h state 0 ;;
                    match ParseCert ext (CertPEM reply) with
                    | Err err => Done (h, (result, Some err))
                    | Ok cert =>
                        h <- store_authorityKeyID h state
                               (HexString ext (connect.AuthorityKeyId cert)) ;;
                        Done (h, ({| Value := any_IssuedCert (Some reply);
                                     State := any_fetchState state;
                                     Index := ModifyIndex reply |}, None))
                    end
                end
            end
        end
  end.

(** ** The cache type and [Fetch] *)

(** [ConnectCALeaf]: the fields this development reads or writes.  Subscriber
    channels and watcher contexts are named by numbers; [rootWatchCancel]
    holds the context whose cancel function is stored, [None] for nil. *)
Record ConnectCALeaf := {
  rootWatchSubscribers : option (gset positive);
  rootWatchCancel : option nat;
  testSetCAChangeInitialJitter : Duration
}.

Definition caChangeInitialJitter : Duration := 20 * Second.

(** Modelled from the spec: [lib.RandomStagger] is declared outside the
    package (in [lib]).  The spec has [RandomStagger(intv)] draw a delay
    uniformly from [[0, intv]]; the random source is an input of the
    functions that call it (what it answers for each interval at that call),
    and this is the range its answer lies in.  The distribution is not
    modelled. *)
Definition staggerInRange (RandomStagger : Duration -> Duration) (intv : Duration) : bool :=
  (0 <=? RandomStagger intv) && (RandomStagger intv <=? intv).

(** One wake-up of the [select] in [Fetch], with the instant it happens at.
    [EvRootUpdate] carries what the roots cache answers to the read that
    follows and the random source [lib.RandomStagger] of that pass. *)
Inductive selectEvent :=
| EvTimeout (w : Time)
| EvExpiry (w : Time)
| EvRootUpdate (w : Time) (get : errorOr any) (RandomStagger : Duration -> Duration).

(** The [return] statements of [Fetch]. *)
Inductive fetchExit :=
| ExitRequestType     (* request wrong type *)
| ExitValueType       (* last value wrong type *)
| ExitStateType       (* last state wrong type *)
| ExitNewRequest      (* existing == nil || state == nil *)
| ExitExpired         (* expiresAt == now || expiresAt.Before(now) *)
| ExitTimeout         (* case <-time.After(opts.Timeout) *)
| ExitExpiry          (* case <-time.After(expiresAt.Sub(time.Now())) *)
| ExitRootsError.     (* rootsFromCache failed in case <-rootUpdateCh *)

(** What a call of [Fetch] leaves behind: the returned pair, the store, and
    for the proofs the [return] taken, the instant of the return, the number
    of [select] wake-ups, and whether the call went through [fetchStart]
    (and so runs the deferred [fetchDone]). *)
Record fetchReturn := {
  ret_result : FetchResult;
  ret_err : option error;
  ret_heap : heap;
  ret_exit : fetchExit;
  ret_at : Time;
  ret_wakes : nat;
  ret_registered : bool
}.

(** A timer made by [time.After(d)] at instant [t] has fired by [w]. *)
Definition timerFired (t : Time) (d : Duration) (w : Time) : bool :=
  t + Z.max 0 d <=? w.

(** The jitter in force: the test override when set, 20 s otherwise. *)
Definition jitterOf (c : ConnectCALeaf) : Duration :=
  let jitter := caChangeInitialJitter in
  if 0 <? testSetCAChangeInitialJitter c then testSetCAChangeInitialJitter c
  else jitter.

(** Every delay drawn during the events [evs] lies in [[0, jitter]]. *)
Definition draws_ok (c : ConnectCALeaf) (evs : list selectEvent) : bool :=
  forallb (fun ev =>
    match ev with
    | EvRootUpdate _ _ RandomStagger => staggerInRange RandomStagger (jitterOf c)
    | _ => true
    end) evs.

(** How one pass through [case <-rootUpdateCh:] ends. *)
Inductive loopStep :=
| Continue (h : heap) (expiresAt : Time)
| Return (h : heap) (res : FetchResult) (err : option error).

(** The body of [case <-rootUpdateCh:], run at instant [now]. *)
Definition onRootUpdate (c : ConnectCALeaf) (state : option loc) (result : FetchResult)
    (h : heap) (expiresAt : Time) (now : Time) (get : errorOr any)
    (RandomStagger : Duration -> Duration)
  : run loopStep :=
  match rootsFromCache get with
  | (_, Some err) => Done (Return h result (Some err))
  | (roots, None) =>
      s <- load h state ;;
      roots <- deref roots ;;
      if activeRootHasKey roots (authorityKeyID s) then Done (Continue h expiresAt)
      else
        let jitter := caChangeInitialJitter in
        let jitter :=
          if 0 <? testSetCAChangeInitialJitter c then testSetCAChangeInitialJitter c
          else jitter in
        let delay := RandomStagger jitter in
        h <- store_forceExpireAfter h state (Time_Add now delay) ;;
        s <- load h state ;;
        let expiresAt :=
          if Time_Before (forceExpireAfter s) expiresAt then forceExpireAfter s
          else expiresAt in
        Done (Continue h expiresAt)
  end.

(** The [for { select { ... } }] of [Fetch].  [t] is the instant the current
    iteration entered the [select]: both timers are made then.  Code between
    two [select]s takes no time. *)
Fixpoint waitLoop (c : ConnectCALeaf) (ext : externals) (opts : FetchOptions)
    (reqReal : option ConnectCALeafRequest) (state : option loc) (result : FetchResult)
    (t : Time) (expiresAt : Time) (h : heap) (wakes : nat) (evs : list selectEvent)
  : run fetchReturn :=
  match evs with
  | [] => Blocked
  | EvTimeout w :: _ =>
      if timerFired t (Timeout opts) w then
        Done {| ret_result := result; ret_err := None; ret_heap := h;
                ret_exit := ExitTimeout; ret_at := w; ret_wakes := S wakes;
                ret_registered := true |}
      else Infeasible
  | EvExpiry w :: _ =>
      if timerFired t (Time_Sub expiresAt t) w then
        r <- generateNewLeaf ext reqReal state h ;;
        Done {| ret_result := fst (snd r); ret_err := snd (snd r); ret_heap := fst r;
                ret_exit := ExitExpiry; ret_at := w; ret_wakes := S wakes;
                ret_registered := true |}
      else Infeasible
  | EvRootUpdate w get RandomStagger :: evs' =>
      if t <=? w then
        st <- onRootUpdate c state result h expiresAt w get RandomStagger ;;
        match st with
        | Return h res err =>
            Done {| ret_result := res; ret_err := err; ret_heap := h;
                    ret_exit := ExitRootsError; ret_at := w; ret_wakes := S wakes;
                    ret_registered := true |}
        | Continue h expiresAt =>
            waitLoop c ext opts reqReal state result w expiresAt h (S wakes) evs'
        end
      else Infeasible
  end.

(** [Fetch].  [h] is the store at the call, [now] the reading of
    [time.Now()], [RandomStagger] the random source behind
    [lib.RandomStagger(maxExpire.Sub(minExpire))], and [evs] the wake-ups of
    the [select] loop in the order they happen.  [expiresAt == now] compares
    instants.  Registration with the roots watcher ([fetchStart], deferred
    [fetchDone]) acts on the shared cache type and is embedded separately
    below; [ret_registered] records that the call went through it.  The
    three type-check errors are [fmt.Errorf] texts ending in [": %T"]; the
    formatted dynamic type is left out of them here. *)
Definition Fetch (c : ConnectCALeaf) (ext : externals) (opts : FetchOptions) (req : any)
    (h : heap) (now : Time) (RandomStagger : Duration -> Duration)
    (evs : list selectEvent)
  : run fetchReturn :=
  let result := zeroFetchResult in
  let fail (msg : error) (ex : fetchExit) : run fetchReturn :=
    Done {| ret_result := result; ret_err := Some msg; ret_heap := h;
            ret_exit := ex; ret_at := now; ret_wakes := 0;
            ret_registered := false |} in
  let rest (reqReal : option ConnectCALeafRequest) (existing : option IssuedCert)
           (state : option loc) (h : heap) : run fetchReturn :=
    match existing, state with
    | Some existing', Some _ =>
        (* c.fetchStart(rootUpdateCh); defer c.fetchDone(rootUpdateCh) *)
        let '(minExpire, maxExpire) := calculateSoftExpiry now existing' in
        let expiresAt :=
          Time_Add minExpire (RandomStagger (Time_Sub maxExpire minExpire)) in
        s <- load h state ;;
        let expiresAt :=
          if negb (Time_IsZero (forceExpireAfter s))
             && Time_Before (forceExpireAfter s) expiresAt
          then forceExpireAfter s else expiresAt in
        if (expiresAt =? now) || Time_Before expiresAt now then
          r <- generateNewLeaf ext reqReal state h ;;
          Done {| ret_result := fst (snd r); ret_err := snd (snd r);
                  ret_heap := fst r; ret_exit := ExitExpired; ret_at := now;
                  ret_wakes := 0; ret_registered := true |}
        else
          let result :=
            {| Value := any_IssuedCert existing;
               State := any_fetchState state;
               Index := ModifyIndex existing' |} in
          waitLoop c ext opts reqReal state result now expiresAt h 0 evs
    | _, _ =>
        r <- generateNewLeaf ext reqReal state h ;;
        Done {| ret_result := fst (snd r); ret_err := snd (snd r);
                ret_heap := fst r; ret_exit := ExitNewRequest; ret_at := now;
                ret_wakes := 0; ret_registered := false |}
    end in
  match req with
  | any_ConnectCALeafRequest reqReal =>
      match LastResult opts with
      | Some last =>
          match Value last with
          | any_IssuedCert existing =>
              match State last with
              | any_fetchState state => rest reqReal existing state h
              | _ => fail "Internal cache failure: last state wrong type"%string ExitStateType
              end
          | _ => fail "Internal cache failure: last value wrong type"%string ExitValueType
          end
      | None =>
          (* state = &fetchState{} *)
          let l := fresh (dom h) in
          rest reqReal None (Some l)
               (<[l := {| authorityKeyID := ""; forceExpireAfter := 0 |}]> h)
      end
  | _ => fail "Internal cache failure: request wrong type"%string ExitRequestType
  end.

(** ** The shared roots watcher *)

Module cache.
(** Modelled from the spec: [cache.UpdateEvent] is declared outside the
    package; an update event carries a payload and possibly an error. *)
Record UpdateEvent := {
  Result : any;
  Err : option error
}.
End cache.

(** A goroutine running [rootWatcher(ctx)]. *)
Inductive watcherStatus :=
| Subscribing                                  (* before [c.Cache.Notify] returned *)
| Watching (oldRoots : option IndexedCARoots)  (* in the [for { select }] loop *)
| Exited.                                      (* returned *)

(** The part of the Go runtime the watcher life cycle touches: the contexts
    made by [context.WithCancel] (numbered from 0), those already cancelled,
    the watcher goroutines by context, and the number of items buffered in
    each subscriber channel (capacity 1). *)
Record runtime := {
  contexts : nat;
  cancelled : gset nat;
  watchers : gmap nat watcherStatus;
  chans : gmap positive nat
}.

Definition ensureRootWatcher (cr : ConnectCALeaf * runtime) : ConnectCALeaf * runtime :=
  let '(c, rt) := cr in
  match rootWatchCancel c with
  | None =>
      (* ctx, cancel := context.WithCancel(context.Background()) *)
      let ctx := contexts rt in
      ({| rootWatchSubscribers := rootWatchSubscribers c;
          rootWatchCancel := Some ctx;
          testSetCAChangeInitialJitter := testSetCAChangeInitialJitter c |},
       (* go c.rootWatcher(ctx) *)
       {| contexts := S (contexts rt);
          cancelled := cancelled rt;
          watchers := <[ctx := Subscribing]> (watchers rt);
          chans := chans rt |})
  | Some _ => (c, rt)
  end.

Definition fetchStart (rootUpdateCh : positive) (cr : ConnectCALeaf * runtime)
  : ConnectCALeaf * runtime :=
  let '(c, rt) := cr in
  (* Lazy allocation *)
  let subs := default ∅ (rootWatchSubscribers c) in
  let c := {| rootWatchSubscribers := Some subs;
              rootWatchCancel := rootWatchCancel c;
              testSetCAChangeInitialJitter := testSetCAChangeInitialJitter c |} in
  let '(c, rt) := ensureRootWatcher (c, rt) in
  ({| rootWatchSubscribers := Some ({[rootUpdateCh]} ∪ subs);
      rootWatchCancel := rootWatchCancel c;
      testSetCAChangeInitialJitter := testSetCAChangeInitialJitter c |}, rt).

Definition fetchDone (rootUpdateCh : positive) (cr : ConnectCALeaf * runtime)
  : ConnectCALeaf * runtime :=
  let '(c, rt) := cr in
  (* delete on a nil map is a no-op *)
  let subs := (fun s => s ∖ {[rootUpdateCh]}) <$> rootWatchSubscribers c in
  let c := {| rootWatchSubscribers := subs;
              rootWatchCancel := rootWatchCancel c;
              testSetCAChangeInitialJitter := testSetCAChangeInitialJitter c |} in
  match rootWatchCancel c with
  | Some ctx =>
      if decide (size (default ∅ subs) = 0%nat) then
        (* c.rootWatchCancel() *)
        (c, {| contexts := contexts rt;
               cancelled := {[ctx]} ∪ cancelled rt;
               watchers := watchers rt;
               chans := chans rt |})
      else (c, rt)
  | None => (c, rt)
  end.

(** [select { case ch <- struct{}{}: default: }] on a channel of capacity 1:
    the store of buffers afterwards, and whether the item was taken. *)
Definition trySend (bufs : gmap positive nat) (ch : positive) : gmap positive nat * bool :=
  let n := default 0%nat (bufs !! ch) in
  if (n <? 1)%nat then (<[ch := S n]> bufs, true) else (bufs, false).

(** [for ch := range c.rootWatchSubscribers { ... }]: the buffers afterwards
    and, per subscriber, whether its item was taken.  The order in which Go
    ranges over the map does not matter to either. *)
Definition notifyChans (chs : list positive) (bufs : gmap positive nat)
  : gmap positive nat * list (positive * bool) :=
  foldr (fun ch acc =>
           let '(bufs', sent) := trySend (fst acc) ch in
           (bufs', (ch, sent) :: snd acc))
        (bufs, []) chs.

Definition notifySubscribers (subs : option (gset positive)) (bufs : gmap positive nat)
  : gmap positive nat * list (positive * bool) :=
  notifyChans (elements (default ∅ subs)) bufs.

(** One pass through [case e := <-ch:] of [rootWatcher]: the new [oldRoots],
    the buffers, and the sends attempted. *)
Definition onUpdateEvent (subs : option (gset positive))
    (oldRoots : option IndexedCARoots) (e : cache.UpdateEvent) (bufs : gmap positive nat)
  : run (option IndexedCARoots * gmap positive nat * list (positive * bool)) :=
  let continue := Done (oldRoots, bufs, []) in
  match cache.Err e with
  | Some _ => continue
  | None =>
      match cache.Result e with
      | any_IndexedCARoots roots =>
          unchanged <-
            match oldRoots with
            | Some old =>
                roots' <- deref roots ;;
                Done (String.eqb (ActiveRootID old) (ActiveRootID roots'))
            | None => Done false
            end ;;
          if (unchanged : bool) then continue
          else
            let '(bufs', sends) := notifySubscribers subs bufs in
            Done (roots, bufs', sends)
      | _ => continue
      end
  end.

(** ** Life cycle of the watcher, step by step *)

(** The atomic steps that touch the subscriber set and the watcher: a [Fetch]
    entering ([fetchStart]) or leaving ([fetchDone]), both under
    [rootWatchMu], and the steps of a watcher goroutine: [c.Cache.Notify]
    returning, [<-ctx.Done()], and an update event. *)
Inductive watchOp :=
| OpFetchStart (rootUpdateCh : positive)
| OpFetchDone (rootUpdateCh : positive)
| OpNotifyReturned (ctx : nat) (err : option error)
| OpCtxDone (ctx : nat)
| OpUpdate (ctx : nat) (e : cache.UpdateEvent).

Definition setWatcher (rt : runtime) (ctx : nat) (st : watcherStatus) : runtime :=
  {| contexts := contexts rt; cancelled := cancelled rt;
     watchers := <[ctx := st]> (watchers rt); chans := chans rt |}.

(** One step of [rootWatcher(ctx)]. *)
Definition rootWatcher (ctx : nat) (op : watchOp) (cr : ConnectCALeaf * runtime)
  : run (ConnectCALeaf * runtime) :=
  let '(c, rt) := cr in
  match op, watchers rt !! ctx with
  | OpNotifyReturned _ err, Some Subscribing =>
      (* if err != nil { return } *)
      Done (c, setWatcher rt ctx
                 match err with Some _ => Exited | None => Watching None end)
  | OpCtxDone _, Some (Watching _) =>
      if decide (ctx ∈ cancelled rt) then Done (c, setWatcher rt ctx Exited)
      else Infeasible
  | OpUpdate _ e, Some (Watching oldRoots) =>
      r <- onUpdateEvent (rootWatchSubscribers c) oldRoots e (chans rt) ;;
      let '(oldRoots', bufs', _) := r in
      Done (c, {| contexts := contexts rt; cancelled := cancelled rt;
                  watchers := <[ctx := Watching oldRoots']> (watchers rt);
                  chans := bufs' |})
  | _, _ => Infeasible
  end.

Definition watchStep (op : watchOp) (cr : ConnectCALeaf * runtime)
  : run (ConnectCALeaf * runtime) :=
  match op with
  | OpFetchStart ch => Done (fetchStart ch cr)
  | OpFetchDone ch => Done (fetchDone ch cr)
  | OpNotifyReturned ctx _ | OpCtxDone ctx | OpUpdate ctx _ => rootWatcher ctx op cr
  end.

Fixpoint watchSteps (ops : list watchOp) (cr : ConnectCALeaf * runtime)
  : run (ConnectCALeaf * runtime) :=
  match ops with
  | [] => Done cr
  | op :: ops' => cr' <- watchStep op cr ;; watchSteps ops' cr'
  end.

(** A watcher is live when its goroutine has not returned and its context
    has not been cancelled. *)
Definition isLive (rt : runtime) (ctx : nat) : bool :=
  match watchers rt !! ctx with
  | Some Subscribing | Some (Watching _) => bool_decide (ctx ∉ cancelled rt)
  | Some Exited | None => false
  end.

Definition liveWatchers (rt : runtime) : list nat :=
  filter (fun ctx => isLive rt ctx = true) (seq 0 (contexts rt)).

Definition subscribers (c : ConnectCALeaf) : gset positive :=
  default ∅ (rootWatchSubscribers c).

(** A freshly made [ConnectCALeaf] and a runtime with no goroutine yet. *)
Definition runtime0 : runtime :=
  {| contexts := 0; cancelled := ∅; watchers := ∅; chans := ∅ |}.

(** ** Properties named in the statements *)

(** The snapshot [roots] names an active root other than the one of
    [oldRoots], or no snapshot was observed yet. *)
Definition activeRootChanged (oldRoots roots : option IndexedCARoots) : Prop :=
  match oldRoots with
  | None => True
  | Some old => exists r, roots = Some r /\ ActiveRootID old <> ActiveRootID r
  end.

(** The target expiry [Fetch] computes on entry, from the renewal window, the
    drawn stagger and a forced expiry left in the state. *)
Definition entryExpiresAt (now : Time) (existing : IssuedCert)
    (RandomStagger : Duration -> Duration) (s : fetchState) : Time :=
  let '(minExpire, maxExpire) := calculateSoftExpiry now existing in
  let expiresAt :=
    Time_Add minExpire (RandomStagger (Time_Sub maxExpire minExpire)) in
  if negb (Time_IsZero (forceExpireAfter s)) && Time_Before (forceExpireAfter s) expiresAt
  then forceExpireAfter s else expiresAt.

(** The loop state after the events [pre], when each of them is a roots-change
    notice that sends the loop round again: the instant of the last wake-up,
    the target expiry and the store. *)
Fixpoint loopAfter (c : ConnectCALeaf) (state : option loc) (result : FetchResult)
    (t expiresAt : Time) (h : heap) (pre : list selectEvent)
  : option (Time * Time * heap) :=
  match pre with
  | [] => Some (t, expiresAt, h)
  | EvRootUpdate w get RandomStagger :: pre' =>
      if t <=? w then
        match onRootUpdate c state result h expiresAt w get RandomStagger with
        | Done (Continue h' expiresAt') => loopAfter c state result w expiresAt' h' pre'
        | _ => None
        end
      else None
  | _ => None
  end.

(** ** Successive calls on one cache entry *)

(** One call of [Fetch] as its caller makes it: the collaborators at that
    call, the options and request handed in, the reading of [time.Now()],
    the random source, and the wake-ups of the [select] loop. *)
Record fetchCall := {
  call_ext : externals;
  call_opts : FetchOptions;
  call_req : any;
  call_now : Time;
  call_stagger : Duration -> Duration;
  call_evs : list selectEvent
}.

Definition runCall (c : ConnectCALeaf) (h : heap) (k : fetchCall) : run fetchReturn :=
  Fetch c (call_ext k) (call_opts k) (call_req k) h (call_now k) (call_stagger k)
        (call_evs k).

(** Calls made one after the other from instant [t], up to the first that
    returns a nil error.  A [*fetchState] is updated in place, so each call
    finds the store as the call before left it; a call starts no earlier
    than the call before returned. *)
Fixpoint nextSuccess (c : ConnectCALeaf) (h : heap) (t : Time) (calls : list fetchCall)
  : run fetchReturn :=
  match calls with
  | [] => Blocked
  | k :: calls' =>
      if t <=? call_now k then
        r <- runCall c h k ;;
        match ret_err r with
        | None => Done r
        | Some _ => nextSuccess c (ret_heap r) (ret_at r) calls'
        end
      else Infeasible
  end.

(** The call is handed a cached cert together with the state at [l]. *)
Definition callOn (l : loc) (k : fetchCall) : Prop :=
  exists existing idx,
    LastResult (call_opts k) =
      Some {| Value := any_IssuedCert (Some existing);
              State := any_fetchState (Some l); Index := idx |}.

(** [connect.ParseCert] accepts whatever it is given. *)
Definition parses (ext : externals) : Prop :=
  forall pem, exists cert, ParseCert ext pem = Ok cert.

(** The state at [l] carries the forced expiry scheduled by one of the
    notices [all], at an instant between [since] and [t]. *)
Definition forcedBy (c : ConnectCALeaf) (l : loc) (all : list selectEvent)
    (since t : Time) (h : heap) : Prop :=
  exists s w get RandomStagger,
    h !! l = Some s /\
    In (EvRootUpdate w get RandomStagger) all /\
    forceExpireAfter s = w + RandomStagger (jitterOf c) /\
    0 <= RandomStagger (jitterOf c) <= jitterOf c /\
    0 < w /\ since <= w <= t.

(** ** Scenarios *)

(** Wall-clock instants of 1 January 2019 (UTC), [hh:mm:ss]. *)
Definition clock (hh mm ss : Z) : Time :=
  63681897600 * Second + hh * Hour + mm * Minute + ss * Second.

(** A random source whose next draw is [d]. *)
Definition drawn (d : Duration) : Duration -> Duration := fun _ => d.

(** A cached cert valid from 10:00 to 13:00, signed by root ["R1"]. *)
Definition certS1 : IssuedCert :=
  {| CertPEM := "leaf-1"; PrivateKeyPEM := "key-1";
     ValidAfter := clock 10 0 0; ValidBefore := clock 13 0 0;
     ModifyIndex := 7 |}.

(** Roots snapshots: root ["root-1"] (key ["R1"]) active; after a rotation
    root ["root-2"] (key ["R2"]) active; and a snapshot in which no root is
    marked active. *)
Definition rootsR1 : IndexedCARoots :=
  {| ActiveRootID := "root-1"; TrustDomain := "dc1.consul";
     Roots := [ {| ID := "root-1"; SigningKeyID := "R1"; Active := true |} ] |}.

Definition rootsR2 : IndexedCARoots :=
  {| ActiveRootID := "root-2"; TrustDomain := "dc1.consul";
     Roots := [ {| ID := "root-1"; SigningKeyID := "R1"; Active := false |};
                {| ID := "root-2"; SigningKeyID := "R2"; Active := true |} ] |}.

Definition rootsNoActive : IndexedCARoots :=
  {| ActiveRootID := ""; TrustDomain := "dc1.consul";
     Roots := [ {| ID := "root-1"; SigningKeyID := "R1"; Active := false |} ] |}.

Definition reqWeb : ConnectCALeafRequest :=
  {| Token := "token"; Datacenter := "dc1"; Service := "web"; MinQueryIndex := 7 |}.

(** The cert the signing RPC stub issues, with [ModifyIndex] 42. *)
Definition certNew : IssuedCert :=
  {| CertPEM := "leaf-2"; PrivateKeyPEM := "";
     ValidAfter := clock 10 30 0; ValidBefore := clock 13 30 0;
     ModifyIndex := 42 |}.

(** Collaborators that all succeed, with the rotated roots in the cache. *)
Definition extOk : externals :=
  {| Cache_Get := Ok (any_IndexedCARoots (Some rootsR2));
     GeneratePrivateKey := Ok ("pk-2", "key-2")%string;
     CreateCSR := fun _ _ => Ok "csr-2"%string;
     RPC_Sign := fun _ => Ok certNew;
     ParseCert := fun _ => Ok {| connect.AuthorityKeyId := "r2" |};
     HexString := fun _ => "R2"%string |}.

(** The same collaborators, except that the signed cert does not parse. *)
Definition extParseFails : externals :=
  {| Cache_Get := Cache_Get extOk;
     GeneratePrivateKey := GeneratePrivateKey extOk;
     CreateCSR := CreateCSR extOk;
     RPC_Sign := RPC_Sign extOk;
     ParseCert := fun _ => Err "x509: malformed certificate"%string;
     HexString := HexString extOk |}.

(** The cache type as configured in production and with a 10 s test jitter. *)
Definition leafDefault : ConnectCALeaf :=
  {| rootWatchSubscribers := None; rootWatchCancel := None;
     testSetCAChangeInitialJitter := 0 |}.

Definition leafTestJitter : ConnectCALeaf :=
  {| rootWatchSubscribers := None; rootWatchCancel := None;
     testSetCAChangeInitialJitter := 10 * Second |}.

(** The state cached with [certS1], at location 1 of the store. *)
Definition stateR1 (forced : Time) : fetchState :=
  {| authorityKeyID := "R1"; forceExpireAfter := forced |}.

Definition lastS1 : FetchResult :=
  {| Value := any_IssuedCert (Some certS1);
     State := any_fetchState (Some 1%positive);
     Index := 7 |}.

Definition optsS1 (timeout : Duration) : FetchOptions :=
  {| MinIndex := 7; Timeout := timeout; LastResult := Some lastS1 |}.

(** A cached cert that ran from 07:00 to 10:00. *)
Definition certExpired : IssuedCert :=
  {| CertPEM := "leaf-0"; PrivateKeyPEM := "key-0";
     ValidAfter := clock 7 0 0; ValidBefore := clock 10 0 0;
     ModifyIndex := 5 |}.

(** The cert issued by the signing RPC stub, as [generateNewLeaf] returns it:
    with the fresh private key attached. *)
Definition certIssued : IssuedCert :=
  {| CertPEM := "leaf-2"; PrivateKeyPEM := "key-2";
     ValidAfter := clock 10 30 0; ValidBefore := clock 13 30 0;
     ModifyIndex := 42 |}.

(** What [Fetch] returns when a notice with an unchanged signer arrives at
    10:30:20 and the caller timeout fires at 10:30:50. *)
Definition retLateTimeout : fetchReturn :=
  {| ret_result :=
       {| Value := any_IssuedCert (Some certS1);
          State := any_fetchState (Some 1%positive);
          Index := 7 |};
     ret_err := None;
     ret_heap := {[ 1%positive := stateR1 0 ]};
     ret_exit := ExitTimeout;
     ret_at := clock 10 30 50;
     ret_wakes := 2;
     ret_registered := true |}.

(** A second rotation: root ["root-3"] (key ["R3"]) active. *)
Definition rootsR3 : IndexedCARoots :=
  {| ActiveRootID := "root-3"; TrustDomain := "dc1.consul";
     Roots := [ {| ID := "root-1"; SigningKeyID := "R1"; Active := false |};
                {| ID := "root-2"; SigningKeyID := "R2"; Active := false |};
                {| ID := "root-3"; SigningKeyID := "R3"; Active := true |} ] |}.

(** A call that takes a notice of the rotation to ["R2"] at 10:30:05, draws
    15 s, and is woken again at 10:30:08 by a notice whose roots read
    fails. *)
Definition callRotation : fetchCall :=
  {| call_ext := extOk; call_opts := optsS1 (60 * Second);
     call_req := any_ConnectCALeafRequest (Some reqWeb);
     call_now := clock 10 30 0; call_stagger := drawn (30 * Minute);
     call_evs := [] ++ EvRootUpdate (clock 10 30 5)
                                    (Ok (any_IndexedCARoots (Some rootsR2)))
                                    (drawn (15 * Second))
                   :: [EvRootUpdate (clock 10 30 8) (Err "roots unavailable"%string)
                                    (drawn 0)] |}.

(** The call that follows at 10:30:10, with a caller timeout of 5 s. *)
Definition callAfter : fetchCall :=
  {| call_ext := extOk; call_opts := optsS1 (5 * Second);
     call_req := any_ConnectCALeafRequest (Some reqWeb);
     call_now := clock 10 30 10; call_stagger := drawn (30 * Minute);
     call_evs := [EvTimeout (clock 10 30 15)] |}.

(** What [callRotation] returns: the error of the roots read at 10:30:08,
    with the forced expiry 10:30:20 in the state. *)
Definition retRootsError : fetchReturn :=
  {| ret_result :=
       {| Value := any_IssuedCert (Some certS1);
          State := any_fetchState (Some 1%positive);
          Index := 7 |};
     ret_err := Some "roots unavailable"%string;
     ret_heap := {[ 1%positive := stateR1 (clock 10 30 20) ]};
     ret_exit := ExitRootsError;
     ret_at := clock 10 30 8;
     ret_wakes := 2;
     ret_registered := true |}.

(** What [callAfter] returns at 10:30:15. *)
Definition retAfter : fetchReturn :=
  {| ret_result :=
       {| Value := any_IssuedCert (Some certS1);
          State := any_fetchState (Some 1%positive);
          Index := 7 |};
     ret_err := None;
     ret_heap := {[ 1%positive := stateR1 (clock 10 30 20) ]};
     ret_exit := ExitTimeout;
     ret_at := clock 10 30 15;
     ret_wakes := 1;
     ret_registered := true |}.

(** What [Fetch] returns when rotations are noticed at 10:30:01 and at
    10:30:05, each with a drawn delay of 19 s, and the caller timeout of
    10 s fires at 10:30:15. *)
Definition retTwoNotices : fetchReturn :=
  {| ret_result :=
       {| Value := any_IssuedCert (Some certS1);
          State := any_fetchState (Some 1%positive);
          Index := 7 |};
     ret_err := None;
     ret_heap := {[ 1%positive := stateR1 (clock 10 30 24) ]};
     ret_exit := ExitTimeout;
     ret_at := clock 10 30 15;
     ret_wakes := 3;
     ret_registered := true |}.

(** A cert valid for 120 days and 10 ns from 10:00. *)
Definition certLong : IssuedCert :=
  {| CertPEM := "leaf-long"; PrivateKeyPEM := "key-long";
     ValidAfter := clock 10 0 0;
     ValidBefore := clock 10 0 0 + (120 * (24 * Hour) + 10 * Nanosecond);
     ModifyIndex := 9 |}.

(** ** Cache request *)

(** [cache.RequestInfo], with the fields [CacheInfo] sets. *)
Module RequestInfo.
Record t := {
  Token : string;
  Key : string;
  Datacenter : string;
  MinIndex : Z
}.
End RequestInfo.

Definition SupportsBlocking (c : ConnectCALeaf) : bool := true.

Definition CacheInfo (r : ConnectCALeafRequest) : RequestInfo.t :=
  {| RequestInfo.Token := Token r;
     RequestInfo.Key := Service r;
     RequestInfo.Datacenter := Datacenter r;
     RequestInfo.MinIndex := MinQueryIndex r |}.

(** * Retry join (package [agent])

    The joiner of [agent/retry_join.go].  Its collaborators are inputs: what
    [discover.New] answers, and for each pass through the loop what
    [disco.Addrs] answers to each call and what [r.join] answers.  A run is
    recorded as the list of its effects in order: the lines handed to
    [r.logger.Printf] (format and operands, not rendered), the calls made to
    the collaborators, and the send on [a.retryJoinCh].  The [select] at the
    end of a failed pass is driven by the wake-up that follows: the timer of
    [r.interval] or an item on [r.retryTrigger].  Instants are not tracked. *)

(** [strings.Contains(s, substr)]. *)
Fixpoint strings_Contains (s substr : string) : bool :=
  String.prefix substr s ||
  match s with
  | EmptyString => false
  | String _ s' => strings_Contains s' substr
  end.

(** [strings.Join(elems, sep)]. *)
Definition strings_Join (elems : list string) (sep : string) : string :=
  String.concat sep elems.

(** Go's [int], 64 bits wide: [z] wrapped into its range. *)
Definition wrapInt (z : Z) : Z := (z - minInt64) mod 2 ^ 64 + minInt64.

Module discover.
(** A [discover.Provider]: one of the library's own, or the Kubernetes
    provider [&discoverk8s.Provider{}] the agent adds. *)
Inductive Provider :=
| Default (name : string)
| K8s.

(** A [*discover.Discover], as far as the joiner reads it: [disco.Names()]. *)
Record Discover := { Names : list string }.
End discover.

Module agent.

(** An operand of a [Printf]. *)
Inductive operand :=
| ArgString (s : string)
| ArgInt (n : Z)
| ArgError (err : option error)        (* an [error]; [None] is nil *)
| ArgDuration (d : Duration).

Inductive effect :=
| Printf (format : string) (args : list operand)       (* r.logger.Printf *)
| discover_New (providers : gmap string discover.Provider)
| disco_Addrs (cfg : string)
| r_join (addrs : list string)
| retryJoinCh_send (err : error).                      (* a.retryJoinCh <- err *)

(** [retryJoiner].  [retryTrigger] is a channel, [None] when nil.  The
    [join] and [logger] fields are collaborators, see [pass] and [effect]. *)
Record retryJoiner := {
  cluster : string;
  addrs : list string;
  maxAttempts : Z;
  interval : Duration;
  retryTrigger : option positive
}.

(** What the collaborators answer before the loop. *)
Record setup := {
  (* the package variable [discover.Providers] *)
  Providers : gmap string discover.Provider;
  (* [discover.New(WithUserAgent(...), WithProviders(providers))] *)
  New : gmap string discover.Provider -> errorOr discover.Discover
}.

(** What the collaborators answer during one pass through the loop:
    [Addrs i addr] is the answer of [disco.Addrs(addr, r.logger)] for the
    entry at index [i] of [r.addrs], and [join addrs] the answer of
    [r.join(addrs)]. *)
Record pass := {
  Addrs : nat -> string -> errorOr (list string);
  join : list string -> Z * option error
}.

(** The case of the [select] that wakes the joiner after a failed pass. *)
Inductive wakeUp :=
| WakeInterval     (* case <-time.After(r.interval) *)
| WakeTrigger.     (* case <-r.retryTrigger *)

(** [for _, addr := range r.addrs { switch { ... } }], from index [i] on:
    the servers collected and the effects. *)
Fixpoint collect (r : retryJoiner) (p : pass) (i : nat) (cfg : list string)
    (addrs : list string) (tr : list effect) : list string * list effect :=
  match cfg with
  | [] => (addrs, tr)
  | addr :: cfg' =>
      if strings_Contains addr "provider=" then
        match Addrs p i addr with
        | Err err =>
            collect r p (S i) cfg' addrs
              (tr ++ [disco_Addrs addr;
                      Printf "[ERR] agent: Join %s: %s"
                             [ArgString (cluster r); ArgError (Some err)]])
        | Ok servers =>
            collect r p (S i) cfg' (addrs ++ servers)
              (tr ++ [disco_Addrs addr;
                      Printf "[INFO] agent: Discovered %s servers: %s"
                             [ArgString (cluster r);
                              ArgString (strings_Join servers " ")]])
        end
      else collect r p (S i) cfg' (addrs ++ [addr]) tr
  end.

(** The [for { ... }] of [retryJoin]: the pass [p], then the wake-ups
    [later], each with the pass that follows it.  [attempt] is the counter
    on entry to the pass. *)
Fixpoint retryLoop (r : retryJoiner) (attempt : Z) (tr : list effect) (p : pass)
    (later : list (wakeUp * pass)) {struct later} : list effect * run (option error) :=
  let '(addrs, tr) := collect r p 0 (agent.addrs r) [] tr in
  (* if len(addrs) > 0 { n, err := r.join(addrs); if err == nil { return nil } } *)
  let '(tr, joined) :=
    if (0 <? length addrs)%nat then
      let '(n, err) := join p addrs in
      match err with
      | None =>
          (tr ++ [r_join addrs;
                  Printf "[INFO] agent: Join %s completed. Synced with %d initial agents"
                         [ArgString (cluster r); ArgInt n]], true)
      | Some _ => (tr ++ [r_join addrs], false)
      end
    else (tr, false) in
  if joined then (tr, Done None)
  else
    (* the [err] of the loop body: the one of [r.join] lives in the scope of
       the [if] above *)
    let err : option error :=
      if (length addrs =? 0)%nat then Some "No servers to join"%string else None in
    let attempt := wrapInt (attempt + 1) in
    if (0 <? maxAttempts r) && (maxAttempts r <? attempt) then
      (tr, Done (Some ("agent: max join " +:+ cluster r +:+ " retry exhausted, exiting")))
    else
      let tr :=
        tr ++ [Printf "[WARN] agent: Join %s failed: %v, retrying in %v"
                      [ArgString (cluster r); ArgError err; ArgDuration (interval r)]] in
      match later with
      | [] => (tr, Blocked)
      | (WakeInterval, p') :: later' => retryLoop r attempt tr p' later'
      | (WakeTrigger, p') :: later' =>
          match retryTrigger r with
          | Some _ =>
              retryLoop r attempt
                        (tr ++ [Printf "[INFO] agent: Retry join re-triggered" []])
                        p' later'
          | None => (tr, Infeasible)    (* a receive from a nil channel never wakes *)
          end
      end.

Definition retryJoin (r : retryJoiner) (s : setup) (first : pass)
    (later : list (wakeUp * pass)) : list effect * run (option error) :=
  if (length (addrs r) =? 0)%nat then ([], Done None)
  else
    (* Copy the default providers, and then add the non-default *)
    let providers := map_fold (fun k v providers => <[k := v]> providers) ∅ (Providers s) in
    let providers := <["k8s"%string := discover.K8s]> providers in
    match New s providers with
    | Err err => ([discover_New providers], Done (Some err))
    | Ok disco =>
        let tr :=
          [discover_New providers;
           Printf "[INFO] agent: Retry join %s is supported for: %s"
                  [ArgString (cluster r);
                   ArgString (strings_Join (discover.Names disco) " ")];
           Printf "[INFO] agent: Joining %s cluster..." [ArgString (cluster r)]] in
        retryLoop r 0 tr first later
    end.

(** [agent.Config] and [Agent], with the fields the two starters read. *)
Record Config := {
  RetryJoinLAN : list string;
  RetryJoinMaxAttemptsLAN : Z;
  RetryJoinIntervalLAN : Duration;
  RetryJoinWAN : list string;
  RetryJoinMaxAttemptsWAN : Z;
  RetryJoinIntervalWAN : Duration
}.

Record Agent := {
  config : Config;
  retryJoinLANTrigger : option positive;
  retryJoinWANTrigger : option positive
}.

(** [if err := r.retryJoin(); err != nil { a.retryJoinCh <- err }]. *)
Definition report (res : list effect * run (option error)) : list effect * run unit :=
  let '(tr, res) := res in
  match res with
  | Done (Some err) => (tr ++ [retryJoinCh_send err], Done tt)
  | Done None => (tr, Done tt)
  | Panic => (tr, Panic)
  | Blocked => (tr, Blocked)
  | Infeasible => (tr, Infeasible)
  end.

(** [retryJoinLAN]; [join] of the passes is what [a.JoinLAN] answers. *)
Definition retryJoinLAN (a : Agent) (s : setup) (first : pass)
    (later : list (wakeUp * pass)) : list effect * run unit :=
  let r := {| cluster := "LAN";
              addrs := RetryJoinLAN (config a);
              maxAttempts := RetryJoinMaxAttemptsLAN (config a);
              interval := RetryJoinIntervalLAN (config a);
              retryTrigger := retryJoinLANTrigger a |} in
  report (retryJoin r s first later).

(** [retryJoinWAN]; [join] of the passes is what [a.JoinWAN] answers. *)
Definition retryJoinWAN (a : Agent) (s : setup) (first : pass)
    (later : list (wakeUp * pass)) : list effect * run unit :=
  let r := {| cluster := "WAN";
              addrs := RetryJoinWAN (config a);
              maxAttempts := RetryJoinMaxAttemptsWAN (config a);
              interval := RetryJoinIntervalWAN (config a);
              retryTrigger := retryJoinWANTrigger a |} in
  report (retryJoin r s first later).

End agent.

(** ** Properties of the joiner named in the statements *)

(** The servers the entry [addr] at index [i] of [r.addrs] contributes in
    the pass [p]: itself, or for a [provider=] entry what discovery answers,
    nothing when discovery fails. *)
Definition expand (p : agent.pass) (i : nat) (addr : string) : list string :=
  if strings_Contains addr "provider=" then
    match agent.Addrs p i addr with
    | Ok servers => servers
    | Err _ => []
    end
  else [addr].

(** The servers of a pass, in the order of [r.addrs]. *)
Definition targets (r : agent.retryJoiner) (p : agent.pass) : list string :=
  concat (imap (expand p) (agent.addrs r)).

(** A pass fails when it finds no server or [r.join] answers an error. *)
Definition passFails (r : agent.retryJoiner) (p : agent.pass) : bool :=
  match targets r p with
  | [] => true
  | _ => bool_decide (snd (agent.join p (targets r p)) <> None)
  end.

(** The wake-up [wk] can happen: a nil [retryTrigger] never delivers. *)
Definition canWake (r : agent.retryJoiner) (wk : agent.wakeUp) : bool :=
  match wk with
  | agent.WakeInterval => true
  | agent.WakeTrigger => bool_decide (agent.retryTrigger r <> None)
  end.

(** Every pass of [later] fails, after a wake-up that can happen. *)
Definition allFail (r : agent.retryJoiner) (later : list (agent.wakeUp * agent.pass)) : bool :=
  forallb (fun wp => canWake r (fst wp) && passFails r (snd wp)) later.

(** The error [retryJoin] gives up with. *)
Definition exhausted (r : agent.retryJoiner) : error :=
  "agent: max join " +:+ agent.cluster r +:+ " retry exhausted, exiting".

(** The providers handed to [discover.New]. *)
Definition providersOf (s : agent.setup) : gmap string discover.Provider :=
  <["k8s"%string := discover.K8s]> (agent.Providers s).

(** The number of calls of [r.join] in a run. *)
Definition joinCalls (tr : list agent.effect) : nat :=
  length (List.filter (fun e => match e with agent.r_join _ => true | _ => false end) tr).

(** ** Scenarios of the joiner *)

(** A joiner of the LAN cluster with a static address and a cloud
    auto-join entry, giving up after two attempts. *)
Definition joinerLAN : agent.retryJoiner :=
  {| agent.cluster := "LAN";
     agent.addrs := ["10.0.0.1"; "provider=aws tag_key=consul"]%string;
     agent.maxAttempts := 2;
     agent.interval := 30 * Second;
     agent.retryTrigger := Some 1%positive |}.

(** The same joiner retrying for ever. *)
Definition joinerForever : agent.retryJoiner :=
  {| agent.cluster := "LAN";
     agent.addrs := ["10.0.0.1"; "provider=aws tag_key=consul"]%string;
     agent.maxAttempts := 0;
     agent.interval := 30 * Second;
     agent.retryTrigger := None |}.

Definition setupOk : agent.setup :=
  {| agent.Providers := {[ "aws"%string := discover.Default "aws" ]};
     agent.New := fun _ => Ok {| discover.Names := ["aws"; "k8s"]%string |} |}.

(** A pass in which discovery finds two servers and the join is refused. *)
Definition passRefused : agent.pass :=
  {| agent.Addrs := fun _ _ => Ok ["10.0.0.2"; "10.0.0.3"]%string;
     agent.join := fun _ => (0, Some "connection refused"%string) |}.

(** A pass in which discovery fails and the join reaches three agents. *)
Definition passJoins : agent.pass :=
  {| agent.Addrs := fun _ _ => Err "discover-aws: no credentials"%string;
     agent.join := fun _ => (3, None) |}.

(** * Proofs *)

(** ** Rounding of binary64 products

    [SpecFloat] shifts a mantissa right one bit at a time, keeping a round
    bit and a sticky bit.  The lemmas below relate that to division by a
    power of two and give the usual error model: the rounded mantissa is
    within half a unit of the exact one. *)

(** The two constants are the binary64 numbers nearest to 6/10 and 9/10:
    they are what dividing 6 and 9 by 10 in binary64 yields, and they differ
    from the exact quotients by less than half a unit in the last place. *)
Lemma c0_6_c0_9_nearest :
  SFdiv 53 1024 (Float64.of_int64 6) (Float64.of_int64 10) = Float64.c0_6 /\
  SFdiv 53 1024 (Float64.of_int64 9) (Float64.of_int64 10) = Float64.c0_9 /\
  Z.abs (10 * 5404319552844595 - 6 * 2 ^ 53) < 5 /\
  Z.abs (10 * 8106479329266893 - 9 * 2 ^ 53) < 5.
Proof. repeat split; vm_compute; reflexivity. Qed.

Section ShiftRight.

Lemma iter_nat_add {A} (f : A -> A) a b x :
  Nat.iter (a + b) f x = Nat.iter a f (Nat.iter b f x).
Proof. induction a as [|a IH]; simpl; [reflexivity | now rewrite IH]. Qed.

Lemma iter_pos_nat {A} (f : A -> A) p x :
  SpecFloat.iter_pos f p x = Nat.iter (Pos.to_nat p) f x.
Proof.
  revert x. induction p as [p IH|p IH|]; intros x.
  - rewrite Pos2Nat.inj_xI. cbn [SpecFloat.iter_pos]. rewrite !IH.
    replace (S (2 * Pos.to_nat p))%nat with (Pos.to_nat p + (Pos.to_nat p + 1))%nat by lia.
    rewrite !iter_nat_add. simpl. reflexivity.
  - rewrite Pos2Nat.inj_xO. cbn [SpecFloat.iter_pos]. rewrite !IH.
    replace (2 * Pos.to_nat p)%nat with (Pos.to_nat p + Pos.to_nat p)%nat by lia.
    now rewrite iter_nat_add.
  - reflexivity.
Qed.

Lemma shr_1_nonneg m r s :
  0 <= m ->
  shr_1 (Build_shr_record m r s) = Build_shr_record (m / 2) (Z.odd m) (r || s).
Proof.
  intros Hm. rewrite <- Z.div2_div.
  destruct m as [|[p|p|]|]; try reflexivity; lia.
Qed.

Lemma shr_iter_spec m n :
  0 <= m ->
  exists q r s t,
    Nat.iter (S n) shr_1 (Build_shr_record m false false) = Build_shr_record q r s /\
    0 <= q /\ 0 <= t < 2 ^ Z.of_nat n /\
    m = q * 2 ^ (Z.of_nat n + 1) + Z.b2z r * 2 ^ Z.of_nat n + t /\
    (s = negb (t =? 0)).
Proof.
  intros Hm. induction n as [|n IH].
  - cbn [Nat.iter nat_rect]. rewrite shr_1_nonneg by assumption.
    exists (m / 2), (Z.odd m), false, 0. cbn [orb negb Z.of_nat].
    repeat split; try lia.
    + apply Z.div_pos; lia.
    + rewrite (Z.div_mod m 2) at 1 by lia. rewrite Zmod_odd.
      destruct (Z.odd m); simpl; lia.
  - destruct IH as (q & r & s & t & Hit & Hq & Ht & Hmq & Hs).
    change (Nat.iter (S (S n)) shr_1 ?x) with (shr_1 (Nat.iter (S n) shr_1 x)).
    rewrite Hit, shr_1_nonneg by assumption.
    exists (q / 2), (Z.odd q), (r || s), (Z.b2z r * 2 ^ Z.of_nat n + t).
    assert (H2n : 0 < 2 ^ Z.of_nat n) by (apply Z.pow_pos_nonneg; lia).
    assert (E1 : 2 ^ Z.of_nat (S n) = 2 * 2 ^ Z.of_nat n)
      by (rewrite Nat2Z.inj_succ, Z.pow_succ_r; lia).
    assert (E2 : 2 ^ (Z.of_nat n + 1) = 2 * 2 ^ Z.of_nat n)
      by (rewrite Z.pow_add_r; lia).
    assert (E3 : 2 ^ (Z.of_nat (S n) + 1) = 4 * 2 ^ Z.of_nat n)
      by (rewrite Z.pow_add_r, E1; lia).
    split; [reflexivity|].
    split; [apply Z.div_pos; lia|].
    split; [destruct r; cbn [Z.b2z]; lia|].
    split.
    + rewrite E3, E1. rewrite Hmq, E2.
      pose proof (Z.div_mod q 2 ltac:(lia)) as Hd. rewrite Zmod_odd in Hd.
      destruct (Z.odd q); cbn [Z.b2z]; nia.
    + subst s. destruct r; cbn [Z.b2z].
      * cbn [orb]. symmetry. apply negb_true_iff, Z.eqb_neq. lia.
      * cbn [orb]. do 2 f_equal; lia.
  Qed.

End ShiftRight.

Lemma digits2_pos_bounds (m : positive) :
  2 ^ (Zpos (digits2_pos m) - 1) <= Zpos m < 2 ^ Zpos (digits2_pos m).
Proof.
  induction m as [m IH|m IH|]; cbn [digits2_pos].
  - rewrite Pos2Z.inj_succ, Z.pow_succ_r by lia.
    replace (Z.succ (Zpos (digits2_pos m)) - 1) with (Z.succ (Zpos (digits2_pos m) - 1)) by lia.
    rewrite Z.pow_succ_r by lia. lia.
  - rewrite Pos2Z.inj_succ, Z.pow_succ_r by lia.
    replace (Z.succ (Zpos (digits2_pos m)) - 1) with (Z.succ (Zpos (digits2_pos m) - 1)) by lia.
    rewrite Z.pow_succ_r by lia. lia.
  - simpl. lia.
Qed.

Lemma digits2_pos_unique (m : positive) (k : Z) :
  2 ^ (k - 1) <= Zpos m < 2 ^ k -> Zpos (digits2_pos m) = k.
Proof.
  intros [Hlo Hhi]. pose proof (digits2_pos_bounds m) as [Dlo Dhi].
  set (d := Zpos (digits2_pos m)) in *.
  assert (0 < k).
  { destruct (Z.ltb_spec 0 k); [assumption|].
    assert (2 ^ k <= 2 ^ 0) by (apply Z.pow_le_mono_r; lia). simpl in *. lia. }
  destruct (Z.lt_trichotomy d k) as [Hlt|[Heq|Hgt]]; [|assumption|].
  - assert (2 ^ d <= 2 ^ (k - 1)) by (apply Z.pow_le_mono_r; lia). lia.
  - assert (2 ^ k <= 2 ^ (d - 1)) by (apply Z.pow_le_mono_r; lia). lia.
Qed.

Lemma shr_fexp_exact_0 (q : positive) (e : Z) :
  Zpos (digits2_pos q) = 53 -> -1074 <= e ->
  shr_fexp 53 1024 (Zpos q) e loc_Exact = (Build_shr_record (Zpos q) false false, e).
Proof.
  intros Hd He. unfold shr_fexp, fexp, emin. cbn [Zdigits2 shr_record_of_loc].
  rewrite Hd, Z.max_l by lia.
  replace (53 + e - 53 - e) with 0 by lia. reflexivity.
Qed.

Lemma shr_fexp_exact_shift (m : positive) (e : Z) :
  let d := Zpos (digits2_pos m) in
  53 < d -> -1074 <= d + e - 53 ->
  exists q r s t,
    shr_fexp 53 1024 (Zpos m) e loc_Exact = (Build_shr_record q r s, e + (d - 53)) /\
    0 <= q /\ 0 <= 2 * t < 2 ^ (d - 53) /\
    2 * Zpos m = 2 * q * 2 ^ (d - 53) + Z.b2z r * 2 ^ (d - 53) + 2 * t /\
    s = negb (t =? 0).
Proof.
  intros d Hd Hlo. unfold shr_fexp, fexp, emin. cbn [Zdigits2 shr_record_of_loc]. fold d.
  rewrite Z.max_l by lia.
  replace (d + e - 53 - e) with (d - 53) by lia.
  destruct (d - 53) as [|pp|pp] eqn:Ep; try lia.
  cbn [shr]. rewrite iter_pos_nat.
  destruct (Pos2Nat.is_succ pp) as [n Hn]. rewrite Hn.
  destruct (shr_iter_spec (Zpos m) n ltac:(lia)) as (q & r & s & t & Hit & Hq & Ht & Hmq & Hs).
  rewrite Hit. exists q, r, s, t.
  assert (En : Z.of_nat n + 1 = Zpos pp) by lia.
  rewrite En in Hmq.
  assert (Epow : 2 ^ Zpos pp = 2 * 2 ^ Z.of_nat n)
    by (rewrite <- En, Z.pow_add_r; lia).
  split; [reflexivity|]. split; [assumption|]. split; [lia|]. split; [|assumption].
  rewrite Hmq. nia.
Qed.

Lemma binary_round_aux_spec (m : positive) (e : Z) :
  let d := Zpos (digits2_pos m) in
  53 <= d -> -1074 <= d + e - 53 -> d + e <= 1023 ->
  exists (m' : positive) (e' : Z),
    binary_round_aux 53 1024 false (Zpos m) e loc_Exact = S754_finite false m' e' /\
    2 ^ 52 <= Zpos m' < 2 ^ 53 /\
    e + (d - 53) <= e' <= e + (d - 53) + 1 /\
    2 * Z.abs (Zpos m' * 2 ^ (e' - e) - Zpos m) <= 2 ^ (d - 53).
Proof.
  intros d Hd Hlo Hhi.
  pose proof (digits2_pos_bounds m) as Hm. fold d in Hm.
  unfold binary_round_aux.
  destruct (Z.eq_dec d 53) as [E53|N53].
  - (* the mantissa already has 53 digits: nothing is shifted out *)
    rewrite shr_fexp_exact_0 by (fold d; lia).
    cbn [shr_m loc_of_shr_record round_nearest_even].
    rewrite shr_fexp_exact_0 by (fold d; lia).
    cbn [shr_m].
    replace (e <=? 1024 - 53) with true by (symmetry; apply Z.leb_le; lia).
    exists m, e. split; [reflexivity|].
    split; [rewrite E53 in Hm; exact Hm|]. split; [lia|].
    rewrite Z.sub_diag, E53. simpl. lia.
  - destruct (shr_fexp_exact_shift m e ltac:(fold d; lia) ltac:(fold d; lia))
      as (q & r & s & t & Hsh & Hq & Ht & Hmq & Hs).
    fold d in Hsh, Ht, Hmq. rewrite Hsh. cbn [shr_m].
    set (P := 2 ^ (d - 53)) in *.
    assert (HP : 0 < P) by (apply Z.pow_pos_nonneg; lia).
    assert (Hd53 : 2 ^ d = 2 ^ 53 * P)
      by (unfold P; rewrite <- Z.pow_add_r by lia; f_equal; lia).
    assert (Hd52 : 2 ^ (d - 1) = 2 ^ 52 * P)
      by (unfold P; rewrite <- Z.pow_add_r by lia; f_equal; lia).
    assert (Hqb : 2 ^ 52 <= q < 2 ^ 53).
    { rewrite Hd53, Hd52 in Hm. destruct r; cbn [Z.b2z] in Hmq; nia. }
    set (q' := round_nearest_even q (loc_of_shr_record (Build_shr_record q r s))).
    assert (Hq' : (q' = q \/ q' = q + 1) /\ 2 * Z.abs (q' * P - Zpos m) <= P).
    { subst q' s. destruct r; cbn [Z.b2z] in Hmq; destruct (Z.eqb_spec t 0) as [Et|Et];
        cbn [negb loc_of_shr_record round_nearest_even].
      - destruct (Z.even q); split; try tauto; lia.
      - split; [tauto|]. lia.
      - split; [tauto|]. lia.
      - split; [tauto|]. lia. }
    destruct Hq' as [Hq'c Hq'e].
    destruct (Z.eq_dec q' (2 ^ 53)) as [Ecarry|Ncarry].
    + (* rounding carried into the next binade *)
      rewrite Ecarry in *.
      assert (Hsh2 : shr_fexp 53 1024 (2 ^ 53) (e + (d - 53)) loc_Exact =
                     (Build_shr_record (2 ^ 52) false false, e + (d - 53) + 1)).
      { unfold shr_fexp, fexp, emin. change (Zdigits2 (2 ^ 53)) with 54.
        rewrite Z.max_l by lia.
        replace (54 + (e + (d - 53)) - 53 - (e + (d - 53))) with 1 by lia.
        reflexivity. }
      rewrite Hsh2. cbn [shr_m]. change (2 ^ 52) with (Zpos (2 ^ 52)%positive) at 1.
      cbv iota beta.
      replace (e + (d - 53) + 1 <=? 1024 - 53) with true by (symmetry; apply Z.leb_le; lia).
      exists (2 ^ 52)%positive, (e + (d - 53) + 1).
      split; [reflexivity|]. split; [simpl; lia|]. split; [lia|].
      replace (e + (d - 53) + 1 - e) with (d - 53 + 1) by lia.
      rewrite Z.pow_add_r by lia. fold P.
      change (Zpos (2 ^ 52)) with (2 ^ 52). change (2 ^ 53) with (2 ^ 52 * 2) in Hq'e.
      change (2 ^ 1) with 2.
      replace (2 ^ 52 * (P * 2)) with (2 ^ 52 * 2 * P) by ring.
      exact Hq'e.
    + assert (Hq'b : 2 ^ 52 <= q' < 2 ^ 53) by lia.
      destruct q' as [|qp|qp] eqn:Eq'; try (simpl in Hq'b; lia).
      rewrite shr_fexp_exact_0 by (try apply digits2_pos_unique; try exact Hq'b; lia).
      cbn [shr_m].
      replace (e + (d - 53) <=? 1024 - 53) with true by (symmetry; apply Z.leb_le; lia).
      exists qp, (e + (d - 53)).
      split; [reflexivity|]. split; [exact Hq'b|]. split; [lia|].
      replace (e + (d - 53) - e) with (d - 53) by lia. exact Hq'e.
Qed.

Lemma pos_iter_xO (m k : positive) :
  Zpos (Pos.iter xO m k) = Zpos m * 2 ^ Zpos k.
Proof.
  induction k as [|k IH] using Pos.peano_ind.
  - simpl. lia.
  - rewrite Pos.iter_succ, Pos2Z.inj_xO, IH, Pos2Z.inj_succ, Z.pow_succ_r by lia. ring.
Qed.

Lemma of_int64_spec (L : positive) :
  let d := Zpos (digits2_pos L) in
  d <= 64 ->
  exists (mL : positive) (eL : Z),
    Float64.of_int64 (Zpos L) = S754_finite false mL eL /\
    2 ^ 52 <= Zpos mL < 2 ^ 53 /\
    d - 53 <= eL <= d - 52 /\
    (d <= 53 -> eL = d - 53 /\ Zpos mL = Zpos L * 2 ^ (53 - d)) /\
    (53 < d -> 2 * Z.abs (Zpos mL * 2 ^ eL - Zpos L) <= 2 ^ (d - 53)).
Proof.
  intros d Hd64. pose proof (digits2_pos_bounds L) as HL. fold d in HL.
  assert (Hd1 : 1 <= d) by (unfold d; lia).
  unfold Float64.of_int64, binary_normalize, binary_round, shl_align, fexp, emin.
  fold d. rewrite Z.max_l by lia.
  replace (d + 0 - 53) with (d - 53) by lia.
  replace (d - 53 - 0) with (d - 53) by lia.
  assert (Hexact : forall (m' : positive) (e' e0 : Z) (mz : Z),
             2 ^ 52 <= Zpos m' < 2 ^ 53 -> 2 ^ 52 <= mz < 2 ^ 53 ->
             e0 <= e' <= e0 + 1 ->
             2 * Z.abs (Zpos m' * 2 ^ (e' - e0) - mz) <= 1 ->
             e' = e0 /\ Zpos m' = mz).
  { intros m' e' e0 mz Hm' Hmz He' Hv.
    destruct (Z.eq_dec e' e0) as [->|Ne].
    - rewrite Z.sub_diag in Hv. simpl in Hv. lia.
    - replace (e' - e0) with 1 in Hv by lia. change (2 ^ 1) with 2 in Hv. lia. }
  destruct (d - 53) as [|pp|pp] eqn:Ep; cbv iota beta.
  - assert (E : d = 53) by lia.
    destruct (binary_round_aux_spec L 0) as (m' & e' & Hr & Hm' & He' & Hv);
      try (fold d; lia).
    fold d in He', Hv. rewrite E in *. change (2 ^ (53 - 53)) with 1 in *.
    destruct (Hexact m' e' 0 (Zpos L)) as [-> Em]; try assumption; try lia.
    exists m', 0. split; [exact Hr|]. split; [exact Hm'|].
    split; [lia|]. split; [intros _; split; lia | lia].
  - destruct (binary_round_aux_spec L 0) as (m' & e' & Hr & Hm' & He' & Hv);
      try (fold d; lia).
    fold d in He', Hv. rewrite Ep in *.
    exists m', e'. split; [exact Hr|]. split; [exact Hm'|].
    split; [lia|]. split; [lia|]. intros _.
    replace (e' - 0) with e' in Hv by lia. exact Hv.
  - assert (Hmz : Zpos (Pos.iter xO L pp) = Zpos L * 2 ^ (53 - d)).
    { rewrite pos_iter_xO. do 2 f_equal. lia. }
    assert (Hmzb : 2 ^ 52 <= Zpos (Pos.iter xO L pp) < 2 ^ 53).
    { rewrite Hmz.
      assert (H52 : 2 ^ 52 = 2 ^ (d - 1) * 2 ^ (53 - d))
        by (rewrite <- Z.pow_add_r by lia; f_equal; lia).
      assert (H53 : 2 ^ 53 = 2 ^ d * 2 ^ (53 - d))
        by (rewrite <- Z.pow_add_r by lia; f_equal; lia).
      assert (0 < 2 ^ (53 - d)) by (apply Z.pow_pos_nonneg; lia).
      rewrite H52 at 1. rewrite H53. nia. }
    assert (Hdz : Zpos (digits2_pos (Pos.iter xO L pp)) = 53)
      by (apply digits2_pos_unique; exact Hmzb).
    destruct (binary_round_aux_spec (Pos.iter xO L pp) (Zneg pp))
      as (m' & e' & Hr & Hm' & He' & Hv); try (rewrite Hdz; lia).
    rewrite Hdz in He', Hv. change (2 ^ (53 - 53)) with 1 in Hv.
    destruct (Hexact m' e' (Zneg pp) (Zpos (Pos.iter xO L pp))) as [-> Em];
      try assumption; try lia.
    exists m', (Zneg pp). split; [exact Hr|]. split; [exact Hm'|].
    split; [lia|]. split; [|lia]. intros _. split; [lia|]. rewrite Em. exact Hmz.
Qed.

Lemma mul_spec (mL mc : positive) (eL : Z) :
  2 ^ 52 <= Zpos mL < 2 ^ 53 -> 2 ^ 52 <= Zpos mc < 2 ^ 53 -> -60 <= eL <= 11 ->
  exists (V p : Z) (m' : positive) (e' : Z),
    52 <= p <= 53 /\ (exists k, V = k * 2 ^ p) /\
    2 * Z.abs (V - Zpos mL * Zpos mc) <= 2 ^ p /\
    Float64.mul (S754_finite false mL eL) (S754_finite false mc (-53)) =
      S754_finite false m' e' /\
    Z.shiftl (Zpos m') e' = V / 2 ^ (53 - eL).
Proof.
  intros HmL Hmc HeL.
  unfold Float64.mul, SFmul. cbn [xorb].
  set (m := (mL * mc)%positive).
  assert (Hm : 2 ^ 104 <= Zpos m < 2 ^ 106).
  { unfold m. rewrite Pos2Z.inj_mul.
    change (2 ^ 104) with (2 ^ 52 * 2 ^ 52). change (2 ^ 106) with (2 ^ 53 * 2 ^ 53). nia. }
  assert (Hd : Zpos (digits2_pos m) = 105 \/ Zpos (digits2_pos m) = 106).
  { destruct (Z.lt_ge_cases (Zpos m) (2 ^ 105)).
    - left. apply digits2_pos_unique. change (105 - 1) with 104. lia.
    - right. apply digits2_pos_unique. change (106 - 1) with 105. lia. }
  destruct (binary_round_aux_spec m (eL + -53)) as (m' & e' & Hr & Hm' & He' & Hv);
    try lia.
  remember (Zpos (digits2_pos m) - 53) as p eqn:Ep.
  remember (e' - (eL + -53)) as k eqn:Ek.
  exists (Zpos m' * 2 ^ k), p, m', e'.
  split; [lia|]. split.
  { exists (Zpos m' * 2 ^ (k - p)). rewrite <- Z.mul_assoc, <- Z.pow_add_r by lia.
    replace (k - p + p) with k by lia. reflexivity. }
  split; [exact Hv|]. split; [exact Hr|].
  assert (Ee' : e' = k + (eL - 53)) by lia.
  rewrite Ee', <- Z.shiftl_shiftl, (Z.shiftl_mul_pow2 _ k) by lia.
  replace (eL - 53) with (- (53 - eL)) by lia.
  rewrite Z.shiftl_div_pow2; [|lia]. rewrite Z.opp_involutive. reflexivity.
Qed.

(** The rounded product [float64(L) * c], seen through the conversion back
    to int64, for a positive 64-bit [L] and a constant [c = mc * 2^-53]. *)
Lemma scale_spec (L mc : positive) :
  Zpos L < 2 ^ 63 -> 2 ^ 52 <= Zpos mc < 2 ^ 53 ->
  exists (mL : positive) (eL V p : Z) (f : spec_float),
    Float64.of_int64 (Zpos L) = S754_finite false mL eL /\
    2 ^ 52 <= Zpos mL < 2 ^ 53 /\ -52 <= eL <= 11 /\
    (eL <= 0 -> Zpos mL = Zpos L * 2 ^ (- eL)) /\
    (0 < eL -> 2 * Z.abs (Zpos mL * 2 ^ eL - Zpos L) <= 2 ^ eL /\
            2 ^ 51 * 2 ^ eL <= Zpos L /\ 2 ^ 53 <= Zpos L) /\
    52 <= p <= 53 /\ (exists k, V = k * 2 ^ p) /\
    2 * Z.abs (V - Zpos mL * Zpos mc) <= 2 ^ p /\
    Float64.mul (Float64.of_int64 (Zpos L)) (S754_finite false mc (-53)) = f /\
    (0 <= V / 2 ^ (53 - eL) <= maxInt64 -> Float64.to_int64 f = V / 2 ^ (53 - eL)).
Proof.
  intros HL Hmc.
  pose proof (digits2_pos_bounds L) as HdL.
  set (d := Zpos (digits2_pos L)) in *.
  assert (Hd1 : 1 <= d) by (unfold d; lia).
  assert (Hd63 : d <= 63).
  { destruct (Z.le_gt_cases d 63); [assumption|].
    assert (2 ^ 63 <= 2 ^ (d - 1)) by (apply Z.pow_le_mono_r; lia). lia. }
  destruct (of_int64_spec L ltac:(fold d; lia)) as (mL & eL & Hof & HmL & HeL & Hsmall & Hbig).
  fold d in HeL, Hsmall, Hbig.
  destruct (mul_spec mL mc eL HmL Hmc ltac:(lia))
    as (V & p & m' & e' & Hp & Hdiv & Hv & Hmul & Hsh).
  exists mL, eL, V, p, (S754_finite false m' e').
  split; [exact Hof|]. split; [exact HmL|]. split; [lia|].
  split.
  { intros He0. destruct (Z.le_gt_cases d 53) as [Hle|Hgt].
    - destruct (Hsmall Hle) as [-> ->]. do 2 f_equal. lia.
    - lia. }
  split.
  { intros He0. assert (Hgt : 53 < d) by lia. specialize (Hbig Hgt).
    assert (2 ^ (d - 53) <= 2 ^ eL) by (apply Z.pow_le_mono_r; lia).
    split; [lia|].
    assert (2 ^ 51 * 2 ^ eL <= 2 ^ (d - 1)).
    { rewrite <- Z.pow_add_r by lia. apply Z.pow_le_mono_r; lia. }
    assert (2 ^ 53 <= 2 ^ (d - 1)) by (apply Z.pow_le_mono_r; lia).
    lia. }
  split; [exact Hp|]. split; [exact Hdiv|]. split; [exact Hv|].
  split; [rewrite Hof; exact Hmul|].
  intros Hrange. unfold Float64.to_int64. cbn [cond_Zopp]. rewrite Hsh.
  replace (minInt64 <=? V / 2 ^ (53 - eL)) with true
    by (symmetry; apply Z.leb_le; unfold minInt64; lia).
  replace (V / 2 ^ (53 - eL) <=? maxInt64) with true
    by (symmetry; apply Z.leb_le; lia).
  reflexivity.
Qed.

Lemma scale_value (L mc : positive) :
  Zpos L < 2 ^ 63 -> 2 ^ 52 <= Zpos mc <= 8106479329266893 ->
  exists (mL : positive) (eL V p : Z),
    Float64.of_int64 (Zpos L) = S754_finite false mL eL /\
    2 ^ 52 <= Zpos mL < 2 ^ 53 /\ -52 <= eL <= 11 /\
    (eL <= 0 -> Zpos mL = Zpos L * 2 ^ (- eL)) /\
    (0 < eL -> 2 ^ 53 <= Zpos L) /\
    52 <= p <= 53 /\ (exists k, V = k * 2 ^ p) /\
    2 * Z.abs (V - Zpos mL * Zpos mc) <= 2 ^ p /\
    0 <= V <= 2 ^ (53 - eL) * Zpos L /\
    scaleDuration (S754_finite false mc (-53)) (Zpos L) = V / 2 ^ (53 - eL).
Proof.
  intros HL Hmc.
  destruct (scale_spec L mc HL ltac:(simpl; lia))
    as (mL & eL & V & p & f & Hof & HmL & HeL & Hsmall & Hbig & Hp & Hk & Hv & Hmul & Hto).
  exists mL, eL, V, p.
  split; [exact Hof|]. split; [exact HmL|]. split; [exact HeL|].
  split; [exact Hsmall|]. split; [intros H; apply Hbig, H|].
  split; [exact Hp|]. split; [exact Hk|]. split; [exact Hv|].
  unfold scaleDuration. rewrite Hmul.
  assert (HP : 2 ^ p <= 2 ^ 53) by (apply Z.pow_le_mono_r; lia).
  assert (Hmm : 2 ^ 52 * 2 ^ 52 <= Zpos mL * Zpos mc <= Zpos mL * 8106479329266893) by nia.
  set (D := 2 ^ (53 - eL)) in *.
  assert (HD : 0 < D) by (apply Z.pow_pos_nonneg; lia).
  assert (HV0 : 0 <= V) by (change (2 ^ 53) with (2 * 2 ^ 52) in HP; lia).
  assert (HVL : V <= D * Zpos L).
  { destruct (Z.le_gt_cases eL 0) as [Hle|Hgt].
    - specialize (Hsmall Hle).
      assert (ED : D = 2 ^ 53 * 2 ^ (- eL))
        by (unfold D; rewrite <- Z.pow_add_r by lia; f_equal; lia).
      rewrite ED, Hsmall in *. set (T := 2 ^ (- eL)) in *.
      assert (HT : 0 < T) by (apply Z.pow_pos_nonneg; lia).
      lia.
    - destruct (Hbig Hgt) as (HmE & HLE & _).
      set (E := 2 ^ eL) in *.
      assert (HE : 0 < E) by (apply Z.pow_pos_nonneg; lia).
      assert (EDE : D * E = 2 ^ 53)
        by (unfold D, E; rewrite <- Z.pow_add_r by lia; f_equal; lia).
      apply (Z.mul_le_mono_pos_r _ _ E HE).
      replace (D * Zpos L * E) with (D * E * Zpos L) by ring. rewrite EDE.
      assert (H1 : V * E <= (Zpos mL * 8106479329266893 + 2 ^ 52) * E)
        by (apply Z.mul_le_mono_nonneg_r; lia).
      assert (H2 : 2 * (Zpos mL * E) <= 2 * Zpos L + E) by lia.
      nia. }
  assert (Hq : 0 <= V / D <= Zpos L).
  { split; [apply Z.div_pos; lia|]. apply Z.div_le_upper_bound; assumption. }
  split; [lia|]. apply Hto. unfold maxInt64. lia.
Qed.

Lemma scale_le (L mc : positive) :
  Zpos L < 2 ^ 63 -> 2 ^ 52 <= Zpos mc <= 8106479329266893 ->
  0 <= scaleDuration (S754_finite false mc (-53)) (Zpos L) <= Zpos L.
Proof.
  intros HL Hmc.
  destruct (scale_value L mc HL Hmc)
    as (mL & eL & V & p & _ & _ & HeL & _ & _ & _ & _ & _ & HV & ->).
  assert (HD : 0 < 2 ^ (53 - eL)) by (apply Z.pow_pos_nonneg; lia).
  split; [apply Z.div_pos; lia|]. apply Z.div_le_upper_bound; lia.
Qed.

Lemma scale_0_6_le_0_9 (L : positive) :
  Zpos L < 2 ^ 63 ->
  scaleDuration Float64.c0_6 (Zpos L) <= scaleDuration Float64.c0_9 (Zpos L).
Proof.
  intros HL.
  destruct (scale_value L 5404319552844595 HL ltac:(simpl; lia))
    as (mL & eL & V & p & Hof & HmL & HeL & _ & _ & Hp & _ & Hv & _ & E6).
  destruct (scale_value L 8106479329266893 HL ltac:(simpl; lia))
    as (mL' & eL' & V' & p' & Hof' & _ & _ & _ & _ & Hp' & _ & Hv' & _ & E9).
  rewrite Hof in Hof'. injection Hof' as <- <-.
  unfold Float64.c0_6, Float64.c0_9. rewrite E6, E9.
  assert (HP : 2 ^ p <= 2 ^ 53) by (apply Z.pow_le_mono_r; lia).
  assert (HP' : 2 ^ p' <= 2 ^ 53) by (apply Z.pow_le_mono_r; lia).
  apply Z.div_le_mono; [apply Z.pow_pos_nonneg; lia|]. lia.
Qed.

(** Below 2^53 ns (104 days) a lifetime that is a whole multiple of 10 ns is
    scaled without any rounding error. *)
Lemma scale_exact (j : Z) :
  0 < j -> 10 * j < 2 ^ 53 ->
  scaleDuration Float64.c0_6 (10 * j) = 6 * j /\
  scaleDuration Float64.c0_9 (10 * j) = 9 * j.
Proof.
  intros Hj Hj53.
  destruct (10 * j) as [|L|L] eqn:EL; try lia.
  assert (HL : Zpos L < 2 ^ 63) by (change (2 ^ 63) with (2 ^ 53 * 1024); lia).
  destruct (scale_value L 5404319552844595 HL ltac:(simpl; lia))
    as (mL & eL & V & p & Hof & HmL & HeL & Hsmall & Hbig & Hp & [k Hk] & Hv & _ & E6).
  destruct (scale_value L 8106479329266893 HL ltac:(simpl; lia))
    as (mL' & eL' & V' & p' & Hof' & _ & _ & _ & _ & Hp' & [k' Hk'] & Hv' & _ & E9).
  rewrite Hof in Hof'. injection Hof' as <- <-.
  unfold Float64.c0_6, Float64.c0_9. rewrite E6, E9.
  assert (He0 : eL <= 0).
  { destruct (Z.le_gt_cases eL 0); [assumption|]. specialize (Hbig ltac:(lia)). lia. }
  specialize (Hsmall He0).
  assert (ED : 2 ^ (53 - eL) = 2 ^ (- eL) * 2 ^ 53)
    by (rewrite <- Z.pow_add_r by lia; f_equal; lia).
  rewrite ED. set (T := 2 ^ (- eL)) in *.
  assert (HT : 0 < T) by (apply Z.pow_pos_nonneg; lia).
  rewrite <- EL in Hsmall.
  replace (10 * j * T) with (10 * (j * T)) in Hsmall by ring.
  set (JT := j * T) in *.
  assert (HV6 : V = 6 * JT * 2 ^ 53).
  { assert (Hpp : p = 52 \/ p = 53) by lia.
    destruct Hpp as [-> | ->]; rewrite Hsmall in *; lia. }
  assert (HV9 : V' = 9 * JT * 2 ^ 53).
  { assert (Hpp : p' = 52 \/ p' = 53) by lia.
    destruct Hpp as [-> | ->]; rewrite Hsmall in *; lia. }
  rewrite HV6, HV9. unfold JT.
  replace (6 * (j * T) * 2 ^ 53) with (6 * j * (T * 2 ^ 53)) by ring.
  replace (9 * (j * T) * 2 ^ 53) with (9 * j * (T * 2 ^ 53)) by ring.
  rewrite !Z.div_mul by lia. split; reflexivity.
Qed.

(** Below 2^50 ns (13 days) the scaled lifetime is the exact product
    truncated to whole nanoseconds. *)
Lemma scale_floor (L : Z) :
  0 < L < 2 ^ 50 ->
  scaleDuration Float64.c0_6 L = 6 * L / 10 /\
  scaleDuration Float64.c0_9 L = 9 * L / 10.
Proof.
  intros [HL0 HL50].
  destruct L as [|L|L]; try lia.
  assert (HL : Zpos L < 2 ^ 63) by (change (2 ^ 63) with (2 ^ 50 * 8192); lia).
  destruct (scale_value L 5404319552844595 HL ltac:(simpl; lia))
    as (mL & eL & V & p & Hof & HmL & HeL & Hsmall & Hbig & Hp & [k Hk] & Hv & _ & E6).
  destruct (scale_value L 8106479329266893 HL ltac:(simpl; lia))
    as (mL' & eL' & V' & p' & Hof' & _ & _ & _ & _ & Hp' & [k' Hk'] & Hv' & _ & E9).
  rewrite Hof in Hof'. injection Hof' as <- <-.
  unfold Float64.c0_6, Float64.c0_9. rewrite E6, E9.
  assert (He0 : eL <= 0).
  { destruct (Z.le_gt_cases eL 0); [assumption|].
    specialize (Hbig ltac:(lia)). change (2 ^ 53) with (2 ^ 50 * 8) in Hbig. lia. }
  specialize (Hsmall He0).
  assert (He3 : eL <= -3).
  { destruct (Z.le_gt_cases eL (-3)); [assumption|].
    assert (2 ^ (- eL) <= 2 ^ 2) by (apply Z.pow_le_mono_r; lia).
    change (2 ^ 2) with 4 in *. change (2 ^ 52) with (2 ^ 50 * 4) in HmL. nia. }
  assert (ED : 2 ^ (53 - eL) = 2 ^ (- eL) * 2 ^ 53)
    by (rewrite <- Z.pow_add_r by lia; f_equal; lia).
  assert (HT8 : 8 <= 2 ^ (- eL)).
  { change 8 with (2 ^ 3). apply Z.pow_le_mono_r; lia. }
  rewrite ED. set (T := 2 ^ (- eL)) in *.
  assert (HLT : Zpos L * T < 2 ^ 50 * T) by (apply Z.mul_lt_mono_pos_r; lia).
  assert (Hfloor : forall n, 0 <= n ->
            exists FT RT, n * (Zpos L * T) = 10 * FT + RT /\ 0 <= RT <= 9 * T /\
                          FT = (n * Zpos L / 10) * T).
  { intros n Hn. pose proof (Z.div_mod (n * Zpos L) 10 ltac:(lia)) as Hdm.
    pose proof (Z.mod_pos_bound (n * Zpos L) 10 ltac:(lia)) as Hmb.
    exists ((n * Zpos L / 10) * T), ((n * Zpos L) mod 10 * T).
    split; [|split; [nia | reflexivity]].
    replace (n * (Zpos L * T)) with (n * Zpos L * T) by ring.
    rewrite Hdm at 1. ring. }
  destruct (Hfloor 6 ltac:(lia)) as (FT6 & RT6 & H6 & HR6 & EF6).
  destruct (Hfloor 9 ltac:(lia)) as (FT9 & RT9 & H9 & HR9 & EF9).
  rewrite Hsmall in *.
  set (LT := Zpos L * T) in *.
  assert (HV6 : FT6 * 2 ^ 53 <= V < FT6 * 2 ^ 53 + T * 2 ^ 53).
  { assert (Hpp : p = 52 \/ p = 53) by lia.
    destruct Hpp as [-> | ->]; lia. }
  assert (HV9 : FT9 * 2 ^ 53 <= V' < FT9 * 2 ^ 53 + T * 2 ^ 53).
  { assert (Hpp : p' = 52 \/ p' = 53) by lia.
    destruct Hpp as [-> | ->]; lia. }
  split; symmetry.
  - apply (Z.div_unique _ _ _ (V - FT6 * 2 ^ 53)); [left; lia|]. rewrite EF6. ring.
  - apply (Z.div_unique _ _ _ (V' - FT9 * 2 ^ 53)); [left; lia|]. rewrite EF9. ring.
Qed.

(** A quotient lies within [1 + B] of [q] when the dividend lies between
    [(q - 1 - B) * D] and [(q + 2 + B) * D]. *)
Lemma div_window (V D q B : Z) :
  0 < D -> (q - 1 - B) * D <= V < (q + 2 + B) * D -> Z.abs (V / D - q) <= 1 + B.
Proof.
  intros HD [Hlo Hhi].
  assert (q - 1 - B <= V / D) by (apply Z.div_le_lower_bound; lia).
  assert (V / D < q + 2 + B) by (apply Z.div_lt_upper_bound; lia).
  lia.
Qed.

Lemma abs_mul_le (a b A B : Z) :
  Z.abs a <= A -> Z.abs b <= B -> Z.abs (a * b) <= A * B.
Proof.
  intros Ha Hb. rewrite Z.abs_mul.
  apply Z.mul_le_mono_nonneg; lia.
Qed.

(** The scaled lifetime against the exact product truncated to whole
    nanoseconds, for a constant [mc * 2^-53] nearest to [n / 10]: they differ
    by at most 1 ns below 2^53 ns (104 days), where [float64(L)] is exact,
    and by at most [1 + L / 2^50] ns in general. *)
Lemma scale_near (L mc : positive) (n : Z) :
  Zpos L < 2 ^ 63 -> 2 ^ 52 <= Zpos mc <= 8106479329266893 ->
  0 <= n <= 9 -> Z.abs (10 * Zpos mc - n * 2 ^ 53) < 5 ->
  (Zpos L < 2 ^ 53 ->
   Z.abs (scaleDuration (S754_finite false mc (-53)) (Zpos L) - n * Zpos L / 10) <= 1) /\
  Z.abs (scaleDuration (S754_finite false mc (-53)) (Zpos L) - n * Zpos L / 10)
    <= 1 + Zpos L / 2 ^ 50.
Proof.
  intros HL Hmc Hn Hc.
  destruct (scale_value L mc HL Hmc)
    as (mL & eL & V & p & Hof & HmL & HeL & Hsmall & _ & Hp & _ & Hv & _ & ->).
  destruct (scale_spec L mc HL ltac:(simpl; lia))
    as (mL' & eL' & _ & _ & _ & Hof' & _ & _ & _ & Hbig & _).
  rewrite Hof in Hof'. injection Hof' as <- <-.
  assert (HP : 2 ^ p <= 2 ^ 53) by (apply Z.pow_le_mono_r; lia).
  pose proof (Z.div_mod (n * Zpos L) 10 ltac:(lia)) as Hdm.
  pose proof (Z.mod_pos_bound (n * Zpos L) 10 ltac:(lia)) as Hmb.
  set (q := n * Zpos L / 10) in *. set (r := (n * Zpos L) mod 10) in *.
  set (D := 2 ^ (53 - eL)) in *.
  assert (HD : 0 < D) by (apply Z.pow_pos_nonneg; lia).
  assert (HB0 : 0 <= Zpos L / 2 ^ 50) by (apply Z.div_pos; lia).
  remember (10 * Zpos mc - n * 2 ^ 53) as e2 eqn:Ee2.
  remember (V - Zpos mL * Zpos mc) as e1 eqn:Ee1.
  assert (He1 : Z.abs e1 <= 2 ^ 52) by (change (2 ^ 53) with (2 * 2 ^ 52) in HP; lia).
  assert (He2 : Z.abs e2 <= 4) by lia.
  destruct (Z.le_gt_cases eL 0) as [Hle|Hgt].
  - specialize (Hsmall Hle).
    assert (ED : D = 2 ^ 53 * 2 ^ (- eL))
      by (unfold D; rewrite <- Z.pow_add_r by lia; f_equal; lia).
    set (T := 2 ^ (- eL)) in *.
    assert (HT : 1 <= T) by (assert (0 < T) by (apply Z.pow_pos_nonneg; lia); lia).
    assert (H53D : 2 ^ 53 <= D).
    { rewrite ED. rewrite <- (Z.mul_1_r (2 ^ 53)) at 1.
      apply Z.mul_le_mono_nonneg_l; lia. }
    assert (H1 : Z.abs (V / D - q) <= 1 + 0).
    { apply div_window; [exact HD|].
      assert (He : Z.abs (Zpos mL * e2) <= 2 ^ 53 * 4) by (apply abs_mul_le; lia).
      assert (EnLD : Zpos mL * (n * 2 ^ 53) = 10 * (q * D) + r * D).
      { replace (10 * (q * D) + r * D) with ((10 * q + r) * D) by ring.
        rewrite <- Hdm, Hsmall, ED. ring. }
      assert (HrD : 0 <= r * D <= 9 * D).
      { split; [apply Z.mul_nonneg_nonneg; lia | apply Z.mul_le_mono_nonneg_r; lia]. }
      assert (Hprod : 10 * (Zpos mL * Zpos mc) = Zpos mL * (n * 2 ^ 53) + Zpos mL * e2).
      { rewrite Ee2. ring. }
      replace ((q - 1 - 0) * D) with (q * D - D) by ring.
      replace ((q + 2 + 0) * D) with (q * D + 2 * D) by ring.
      remember (q * D) as qD. remember (r * D) as rD.
      remember (Zpos mL * Zpos mc) as MM. remember (Zpos mL * (n * 2 ^ 53)) as MN.
      remember (Zpos mL * e2) as Me.
      clear - He1 He HrD EnLD Hprod H53D Ee1. lia. }
    split; [intros _|]; lia.
  - destruct (Hbig Hgt) as (HmE & HLE & HL53).
    set (E := 2 ^ eL) in *.
    assert (HE : 2 <= E).
    { change 2 with (2 ^ 1). apply Z.pow_le_mono_r; lia. }
    assert (EDE : D * E = 2 ^ 53)
      by (unfold D, E; rewrite <- Z.pow_add_r by lia; f_equal; lia).
    assert (H2E : 2 * E <= Zpos L / 2 ^ 50).
    { apply Z.div_le_lower_bound; [lia|]. change (2 ^ 51) with (2 ^ 50 * 2) in HLE. lia. }
    split; [intros; lia|].
    assert (H1 : Z.abs (V / D - q) <= 1 + 2 * E).
    { apply div_window; [exact HD|].
      remember (Zpos mL * E - Zpos L) as e3 eqn:Ee3.
      assert (He3 : 2 * Z.abs e3 <= E) by exact HmE.
      assert (HmLE : Zpos mL * E = Zpos L + e3) by lia.
      assert (Hkey : 10 * (V * E) =
                     (10 * q + r) * 2 ^ 53 + n * e3 * 2 ^ 53 + (Zpos mL * E) * e2
                     + 10 * (e1 * E)).
      { rewrite <- Hdm.
        replace V with (Zpos mL * Zpos mc + e1) by lia.
        replace (10 * ((Zpos mL * Zpos mc + e1) * E))
          with (Zpos mL * E * (10 * Zpos mc) + 10 * (e1 * E)) by ring.
        replace (10 * Zpos mc) with (n * 2 ^ 53 + e2) by lia.
        rewrite HmLE. ring. }
      assert (Ha : Z.abs (n * e3) * 2 <= 9 * E).
      { assert (Z.abs (n * e3) <= 9 * Z.abs e3).
        { rewrite Z.abs_mul. apply Z.mul_le_mono_nonneg; lia. }
        lia. }
      assert (HME : 0 <= Zpos mL * E <= 2 ^ 53 * E).
      { split; [apply Z.mul_nonneg_nonneg; lia | apply Z.mul_le_mono_nonneg_r; lia]. }
      assert (Hb : Z.abs ((Zpos mL * E) * e2) <= (2 ^ 53 * E) * 4).
      { apply abs_mul_le; lia. }
      assert (Hc' : Z.abs (e1 * E) <= 2 ^ 52 * E).
      { apply abs_mul_le; lia. }
      remember (n * e3) as ne3. remember (Zpos mL * E * e2) as MEe. remember (e1 * E) as e1E.
      remember (V * E) as VE.
      assert (Hlo : (q - 1 - 2 * E) * 2 ^ 53 <= VE).
      { clear - Hkey Ha Hb Hc' Hmb HE. lia. }
      assert (Hhi : VE < (q + 2 + 2 * E) * 2 ^ 53).
      { clear - Hkey Ha Hb Hc' Hmb HE. lia. }
      rewrite <- EDE in Hlo, Hhi. rewrite HeqVE in Hlo, Hhi.
      rewrite Z.mul_assoc in Hlo, Hhi.
      split.
      - apply (Z.mul_le_mono_pos_r _ _ E); [lia | exact Hlo].
      - apply (Z.mul_lt_mono_pos_r E); [lia | exact Hhi]. }
    lia.
Qed.

(** ** The renewal window *)

Lemma Time_Sub_bounds (t u : Time) :
  minInt64 <= Time_Sub t u <= maxInt64.
Proof. unfold Time_Sub, minInt64, maxInt64. lia. Qed.

Lemma Time_Sub_le (t u : Time) :
  u <= t -> 0 <= Time_Sub t u <= t - u.
Proof. unfold Time_Sub, minInt64, maxInt64. lia. Qed.

(** For a lifetime of at least ten minutes the 60% mark does not exceed the
    90% mark, which does not exceed the lifetime. *)
Lemma marks_ordered (L : Duration) :
  10 * Minute <= L <= maxInt64 ->
  0 <= scaleDuration Float64.c0_6 L <= scaleDuration Float64.c0_9 L /\
  scaleDuration Float64.c0_9 L <= L.
Proof.
  unfold Minute, Second, Nanosecond, maxInt64. intros [Hlo Hhi].
  destruct L as [|L|L]; try lia.
  assert (HL : Zpos L < 2 ^ 63) by lia.
  pose proof (scale_le L 5404319552844595 HL ltac:(simpl; lia)) as H6.
  pose proof (scale_le L 8106479329266893 HL ltac:(simpl; lia)) as H9.
  pose proof (scale_0_6_le_0_9 L HL) as H69.
  unfold Float64.c0_6, Float64.c0_9 in *. lia.
Qed.

(** The three ways out of [calculateSoftExpiry], by cases. *)
Lemma calculateSoftExpiry_at_cases (now : Time) (cert : IssuedCert) :
  let L := Time_Sub (ValidBefore cert) (ValidAfter cert) in
  let soft := ValidAfter cert + scaleDuration Float64.c0_6 L in
  let hard := ValidAfter cert + scaleDuration Float64.c0_9 L in
  calculateSoftExpiry_at now cert =
    if L <? 10 * Minute then (ReturnTooShort, (now, now))
    else if hard <? now then (ReturnHardRenew, (now, now))
    else (ReturnWindow, (Z.max now soft, hard)).
Proof.
  intros L soft hard. unfold calculateSoftExpiry_at, Time_After, Time_Add.
  fold L. fold soft. fold hard.
  destruct (L <? 10 * Minute); [reflexivity|].
  destruct (hard <? now); [reflexivity|].
  destruct (Z.ltb_spec soft now); do 2 f_equal; lia.
Qed.

(** C4: for every instant [now] strictly inside the validity period of
    [cert], the window [(min, max)] returned by [calculateSoftExpiry]
    satisfies [min <= max], [now <= min] and [max <= ValidBefore]. *)
Theorem calculateSoftExpiry_within_validity (now : Time) (cert : IssuedCert) :
  ValidAfter cert < now < ValidBefore cert ->
  fst (calculateSoftExpiry now cert) <= snd (calculateSoftExpiry now cert) /\
  now <= fst (calculateSoftExpiry now cert) /\
  snd (calculateSoftExpiry now cert) <= ValidBefore cert.
Proof.
  intros [Hafter Hbefore]. unfold calculateSoftExpiry.
  rewrite calculateSoftExpiry_at_cases.
  pose proof (Time_Sub_le (ValidBefore cert) (ValidAfter cert) ltac:(lia)) as HL.
  pose proof (Time_Sub_bounds (ValidBefore cert) (ValidAfter cert)) as HB.
  set (L := Time_Sub (ValidBefore cert) (ValidAfter cert)) in *.
  destruct (Z.ltb_spec L (10 * Minute)) as [Hshort|Hlong]; cbn [fst snd]; [lia|].
  destruct (marks_ordered L ltac:(lia)) as [H69 H9L].
  destruct (Z.ltb_spec (ValidAfter cert + scaleDuration Float64.c0_9 L) now);
    cbn [fst snd]; lia.
Qed.

(** The cert valid 10:00 to 13:00 at 10:30. *)
Lemma calculateSoftExpiry_within_validity_witness :
  ValidAfter certS1 < clock 10 30 0 < ValidBefore certS1 /\
  fst (calculateSoftExpiry (clock 10 30 0) certS1)
    <= snd (calculateSoftExpiry (clock 10 30 0) certS1) /\
  clock 10 30 0 <= fst (calculateSoftExpiry (clock 10 30 0) certS1) /\
  snd (calculateSoftExpiry (clock 10 30 0) certS1) <= ValidBefore certS1.
Proof.
  assert (H : ValidAfter certS1 < clock 10 30 0 < ValidBefore certS1)
    by (vm_compute; split; reflexivity).
  split; [exact H|]. exact (calculateSoftExpiry_within_validity _ _ H).
Defined.

(** C6: for a cert whose lifetime [L] is at least ten minutes and an instant
    [now] not after the 60% mark, [calculateSoftExpiry] returns exactly the
    two marks the source computes, [ValidAfter + time.Duration(float64(L)*0.6)]
    and [ValidAfter + time.Duration(float64(L)*0.9)].  For lifetimes below
    2^50 ns the two products are the exact ones truncated to whole
    nanoseconds; for lifetimes below 2^53 ns that are whole multiples of
    10 ns they are exactly six and nine tenths of [L]; below 2^53 ns they
    are within 1 ns of the truncated exact products, and for every lifetime
    within [1 + L / 2^50] ns of them. *)
Theorem calculateSoftExpiry_marks (now : Time) (cert : IssuedCert) :
  let L := Time_Sub (ValidBefore cert) (ValidAfter cert) in
  10 * Minute <= L ->
  now <= ValidAfter cert + scaleDuration Float64.c0_6 L ->
  calculateSoftExpiry now cert =
    (ValidAfter cert + scaleDuration Float64.c0_6 L,
     ValidAfter cert + scaleDuration Float64.c0_9 L) /\
  (L < 2 ^ 50 ->
   scaleDuration Float64.c0_6 L = 6 * L / 10 /\
   scaleDuration Float64.c0_9 L = 9 * L / 10) /\
  (L < 2 ^ 53 -> L mod 10 = 0 ->
   10 * scaleDuration Float64.c0_6 L = 6 * L /\
   10 * scaleDuration Float64.c0_9 L = 9 * L) /\
  (L < 2 ^ 53 ->
   Z.abs (scaleDuration Float64.c0_6 L - 6 * L / 10) <= 1 /\
   Z.abs (scaleDuration Float64.c0_9 L - 9 * L / 10) <= 1) /\
  Z.abs (scaleDuration Float64.c0_6 L - 6 * L / 10) <= 1 + L / 2 ^ 50 /\
  Z.abs (scaleDuration Float64.c0_9 L - 9 * L / 10) <= 1 + L / 2 ^ 50.
Proof.
  intros L Hlong Hnow. split; [|split; [|split]].
  - unfold calculateSoftExpiry. rewrite calculateSoftExpiry_at_cases. fold L.
    pose proof (Time_Sub_bounds (ValidBefore cert) (ValidAfter cert)) as HB. fold L in HB.
    destruct (marks_ordered L ltac:(lia)) as [H69 H9L].
    destruct (Z.ltb_spec L (10 * Minute)); [lia|].
    destruct (Z.ltb_spec (ValidAfter cert + scaleDuration Float64.c0_9 L) now); [lia|].
    cbn [snd]. f_equal. lia.
  - intros H50. apply scale_floor. unfold Minute, Second, Nanosecond in Hlong. lia.
  - intros H53 Hmod. unfold Minute, Second, Nanosecond in Hlong.
    pose proof (Z.div_mod L 10 ltac:(lia)) as Hdm. rewrite Hmod, Z.add_0_r in Hdm.
    destruct (scale_exact (L / 10) ltac:(lia) ltac:(lia)) as [E6 E9].
    rewrite <- Hdm in E6, E9. lia.
  - pose proof (Time_Sub_bounds (ValidBefore cert) (ValidAfter cert)) as HB. fold L in HB.
    unfold Minute, Second, Nanosecond in Hlong. unfold maxInt64 in HB.
    destruct L as [|P|P]; try lia.
    assert (HP : Zpos P < 2 ^ 63) by lia.
    destruct (scale_near P 5404319552844595 6 HP ltac:(simpl; lia) ltac:(lia)
                         ltac:(vm_compute; reflexivity)) as [H6s H6].
    destruct (scale_near P 8106479329266893 9 HP ltac:(simpl; lia) ltac:(lia)
                         ltac:(vm_compute; reflexivity)) as [H9s H9].
    unfold Float64.c0_6, Float64.c0_9.
    split; [intros H53; split; [apply H6s|apply H9s]; exact H53|].
    split; [exact H6|exact H9].
Qed.

(** The scenario of the claim: valid 10:00 to 13:00, [now] = 10:30, window
    11:48 to 12:42. *)
Lemma calculateSoftExpiry_marks_witness :
  10 * Minute <= Time_Sub (ValidBefore certS1) (ValidAfter certS1) /\
  clock 10 30 0 <=
    ValidAfter certS1 +
    scaleDuration Float64.c0_6 (Time_Sub (ValidBefore certS1) (ValidAfter certS1)) /\
  calculateSoftExpiry (clock 10 30 0) certS1 = (clock 11 48 0, clock 12 42 0).
Proof.
  assert (H1 : 10 * Minute <= Time_Sub (ValidBefore certS1) (ValidAfter certS1))
    by (vm_compute; discriminate).
  assert (H2 : clock 10 30 0 <=
               ValidAfter certS1 +
               scaleDuration Float64.c0_6
                 (Time_Sub (ValidBefore certS1) (ValidAfter certS1)))
    by (vm_compute; discriminate).
  split; [exact H1|]. split; [exact H2|].
  destruct (calculateSoftExpiry_marks (clock 10 30 0) certS1 H1 H2) as [E _].
  rewrite E. vm_compute. reflexivity.
Defined.

(** C6, as worded, against the code: a lifetime of 120 days and 10 ns is a
    whole multiple of 10 ns, so six and nine tenths of it are whole
    nanoseconds; [float64(L) * 0.9] rounds to the next binary64 number, and
    the 90% mark returned is one nanosecond after [ValidAfter + 9 L / 10]. *)
Lemma calculateSoftExpiry_marks_counterexample :
  let L := Time_Sub (ValidBefore certLong) (ValidAfter certLong) in
  10 * Minute <= L /\
  L mod 10 = 0 /\
  clock 10 30 0 <= ValidAfter certLong + 6 * L / 10 /\
  calculateSoftExpiry (clock 10 30 0) certLong =
    (ValidAfter certLong + 6 * L / 10, ValidAfter certLong + 9 * L / 10 + 1) /\
  calculateSoftExpiry (clock 10 30 0) certLong <>
    (ValidAfter certLong + 6 * L / 10, ValidAfter certLong + 9 * L / 10).
Proof.
  cbv zeta. split; [vm_compute; discriminate|]. split; [vm_compute; reflexivity|].
  split; [vm_compute; discriminate|]. split; [vm_compute; reflexivity|].
  vm_compute. discriminate.
Qed.

(** C9: the comparisons of [calculateSoftExpiry] are strict.  A lifetime of
    exactly ten minutes is not too short (the window is computed from the
    marks at 6 and 9 minutes); a lifetime one nanosecond shorter yields
    [(now, now)]; and at [now = hardRenewTime] the hard-renew return is not
    taken: a cert that is not too short leaves by the final return. *)
Theorem calculateSoftExpiry_strict_boundaries :
  (forall (now va : Time) (pem key : string) (idx : Z),
      calculateSoftExpiry_at now
        {| CertPEM := pem; PrivateKeyPEM := key; ValidAfter := va;
           ValidBefore := va + 10 * Minute; ModifyIndex := idx |} =
      if va + 9 * Minute <? now then (ReturnHardRenew, (now, now))
      else (ReturnWindow, (Z.max now (va + 6 * Minute), va + 9 * Minute))) /\
  (forall (now va : Time) (pem key : string) (idx : Z),
      calculateSoftExpiry_at now
        {| CertPEM := pem; PrivateKeyPEM := key; ValidAfter := va;
           ValidBefore := va + (10 * Minute - Nanosecond); ModifyIndex := idx |} =
      (ReturnTooShort, (now, now))) /\
  (forall (cert : IssuedCert),
      let L := Time_Sub (ValidBefore cert) (ValidAfter cert) in
      let hardRenewTime := ValidAfter cert + scaleDuration Float64.c0_9 L in
      calculateSoftExpiry_at hardRenewTime cert =
      if L <? 10 * Minute then (ReturnTooShort, (hardRenewTime, hardRenewTime))
      else (ReturnWindow, (hardRenewTime, hardRenewTime))).
Proof.
  split; [|split].
  - intros now va pem key idx. rewrite calculateSoftExpiry_at_cases. cbn [ValidAfter ValidBefore].
    replace (Time_Sub (va + 10 * Minute) va) with (10 * Minute)
      by (unfold Time_Sub, Minute, Second, Nanosecond, minInt64, maxInt64; lia).
    replace (scaleDuration Float64.c0_6 (10 * Minute)) with (6 * Minute)
      by (vm_compute; reflexivity).
    replace (scaleDuration Float64.c0_9 (10 * Minute)) with (9 * Minute)
      by (vm_compute; reflexivity).
    rewrite Z.ltb_irrefl. reflexivity.
  - intros now va pem key idx. rewrite calculateSoftExpiry_at_cases. cbn [ValidAfter ValidBefore].
    replace (Time_Sub (va + (10 * Minute - Nanosecond)) va) with (10 * Minute - Nanosecond)
      by (unfold Time_Sub, Minute, Second, Nanosecond, minInt64, maxInt64; lia).
    reflexivity.
  - intros cert L hard. rewrite calculateSoftExpiry_at_cases. fold L. fold hard.
    pose proof (Time_Sub_bounds (ValidBefore cert) (ValidAfter cert)) as HB. fold L in HB.
    destruct (Z.ltb_spec L (10 * Minute)); [reflexivity|].
    destruct (marks_ordered L ltac:(lia)) as [H69 H9L].
    rewrite Z.ltb_irrefl. do 2 f_equal. unfold hard. lia.
Qed.

(** ** The leaf generator and the store *)

(** When [generateNewLeaf] returns an error, the store is the one it was
    given, unless the error comes from [connect.ParseCert]: the forced expiry
    of the state has then already been reset. *)
Lemma generateNewLeaf_error_store (ext : externals) (req : option ConnectCALeafRequest)
    (state : option loc) (h h' : heap) (res : FetchResult) (e : error) :
  generateNewLeaf ext req state h = Done (h', (res, Some e)) ->
  res = zeroFetchResult /\
  (h' = h \/
   exists l s pem,
     state = Some l /\ h !! l = Some s /\ ParseCert ext pem = Err e /\
     h' = <[l := {| authorityKeyID := authorityKeyID s; forceExpireAfter := 0 |}]> h).
Proof.
  unfold generateNewLeaf, store_forceExpireAfter, store_authorityKeyID, deref, run_bind.
  intros H.
  repeat (case_match; simplify_eq/=); eauto 10.
Qed.

(** A successful [generateNewLeaf] returns the cert the signing RPC issued,
    with the fresh private key attached, and resets the forced expiry. *)
Lemma generateNewLeaf_success (ext : externals) (req : option ConnectCALeafRequest)
    (state : option loc) (h h' : heap) (res : FetchResult) :
  generateNewLeaf ext req state h = Done (h', (res, None)) ->
  exists reply args pk l s,
    RPC_Sign ext args = Ok reply /\
    res = {| Value := any_IssuedCert
                        (Some {| CertPEM := CertPEM reply;
                                 PrivateKeyPEM := pk;
                                 ValidAfter := ValidAfter reply;
                                 ValidBefore := ValidBefore reply;
                                 ModifyIndex := ModifyIndex reply |});
             State := any_fetchState state;
             Index := ModifyIndex reply |} /\
    state = Some l /\ h' !! l = Some s /\ forceExpireAfter s = 0.
Proof.
  unfold generateNewLeaf, store_forceExpireAfter, store_authorityKeyID, deref, run_bind.
  intros H.
  repeat (case_match; simplify_eq/=).
  do 5 eexists. split; [eassumption|]. split; [reflexivity|].
  split; [reflexivity|]. rewrite lookup_insert_eq. split; [reflexivity|].
  cbn. match goal with H : <[_:=_]> _ !! _ = Some _ |- _ =>
    rewrite lookup_insert_eq in H; injection H as <- end. reflexivity.
Qed.

(** C3 (defect in the source): [generateNewLeaf] resets
    [state.forceExpireAfter] before it parses the signed cert.  With a forced
    expiry pending at 10:30:20 and a signed cert that does not parse, the
    call returns the parse error and the state has lost its forced expiry. *)
Theorem generateNewLeaf_parse_error_clears_forceExpireAfter :
  generateNewLeaf extParseFails (Some reqWeb) (Some 1%positive)
                  {[ 1%positive := stateR1 (clock 10 30 20) ]} =
  Done ({[ 1%positive := stateR1 0 ]},
        (zeroFetchResult, Some "x509: malformed certificate"%string)).
Proof. vm_compute. reflexivity. Qed.

(** ** The roots-change branch of [Fetch] *)

Lemma activeRootHasKey_loop_no_active (roots : list CARoot) (key : string) :
  Forall (fun ca => Active ca = false) roots ->
  activeRootHasKey_loop roots key = false.
Proof.
  induction 1 as [|ca rest Hca _ IH]; cbn [activeRootHasKey_loop].
  - reflexivity.
  - rewrite Hca. exact IH.
Qed.

Lemma onRootUpdate_error (c : ConnectCALeaf) (state : option loc) (result : FetchResult)
    (h : heap) (expiresAt now : Time) (get : errorOr any)
    (RandomStagger : Duration -> Duration)
    (roots : option IndexedCARoots) (e : error) :
  rootsFromCache get = (roots, Some e) ->
  onRootUpdate c state result h expiresAt now get RandomStagger = Done (Return h result (Some e)).
Proof. intros H. unfold onRootUpdate. rewrite H. reflexivity. Qed.

Lemma onRootUpdate_same_signer (c : ConnectCALeaf) (l : loc) (s : fetchState)
    (result : FetchResult) (h : heap) (expiresAt now : Time) (get : errorOr any)
    (RandomStagger : Duration -> Duration) (roots : IndexedCARoots) :
  h !! l = Some s ->
  rootsFromCache get = (Some roots, None) ->
  activeRootHasKey roots (authorityKeyID s) = true ->
  onRootUpdate c (Some l) result h expiresAt now get RandomStagger = Done (Continue h expiresAt).
Proof.
  intros Hl Hget Hkey. unfold onRootUpdate, load, deref, run_bind.
  rewrite Hget, Hl, Hkey. reflexivity.
Qed.

Lemma onRootUpdate_signer_changed (c : ConnectCALeaf) (l : loc) (s : fetchState)
    (result : FetchResult) (h : heap) (expiresAt now : Time) (get : errorOr any)
    (RandomStagger : Duration -> Duration) (roots : IndexedCARoots) :
  h !! l = Some s ->
  rootsFromCache get = (Some roots, None) ->
  activeRootHasKey roots (authorityKeyID s) = false ->
  onRootUpdate c (Some l) result h expiresAt now get RandomStagger =
  Done (Continue
          (<[l := {| authorityKeyID := authorityKeyID s;
                     forceExpireAfter := now + RandomStagger (jitterOf c) |}]> h)
          (Z.min expiresAt (now + RandomStagger (jitterOf c)))).
Proof.
  intros Hl Hget Hkey.
  unfold onRootUpdate, load, store_forceExpireAfter, deref, run_bind, Time_Add, Time_Before.
  rewrite Hget, Hl, Hkey. cbv zeta. fold (jitterOf c).
  rewrite lookup_insert_eq. cbn [forceExpireAfter].
  destruct (Z.ltb_spec (now + RandomStagger (jitterOf c)) expiresAt); do 2 f_equal; lia.
Qed.

(** Every way [case <-rootUpdateCh:] can end when the state is allocated. *)
Lemma onRootUpdate_inv (c : ConnectCALeaf) (l : loc) (s : fetchState)
    (result : FetchResult) (h : heap) (expiresAt now : Time) (get : errorOr any)
    (RandomStagger : Duration -> Duration) (st : loopStep) :
  h !! l = Some s ->
  onRootUpdate c (Some l) result h expiresAt now get RandomStagger = Done st ->
  (exists roots e, rootsFromCache get = (roots, Some e) /\ st = Return h result (Some e)) \/
  (exists roots, rootsFromCache get = (Some roots, None) /\
                 activeRootHasKey roots (authorityKeyID s) = true /\
                 st = Continue h expiresAt) \/
  (exists roots, rootsFromCache get = (Some roots, None) /\
                 activeRootHasKey roots (authorityKeyID s) = false /\
                 st = Continue
                        (<[l := {| authorityKeyID := authorityKeyID s;
                                   forceExpireAfter := now + RandomStagger (jitterOf c) |}]> h)
                        (Z.min expiresAt (now + RandomStagger (jitterOf c)))).
Proof.
  intros Hl H.
  destruct (rootsFromCache get) as [roots [e|]] eqn:Hget.
  - left. rewrite (onRootUpdate_error _ _ _ _ _ _ _ _ roots e Hget) in H.
    injection H as <-. eauto.
  - destruct roots as [roots|].
    + destruct (activeRootHasKey roots (authorityKeyID s)) eqn:Hkey.
      * right; left. rewrite (onRootUpdate_same_signer _ _ s _ _ _ _ _ _ roots Hl Hget Hkey) in H.
        injection H as <-. eauto.
      * right; right.
        rewrite (onRootUpdate_signer_changed _ _ s _ _ _ _ _ _ roots Hl Hget Hkey) in H.
        injection H as <-. eauto.
    + exfalso. unfold onRootUpdate, load, deref, run_bind in H.
      rewrite Hget, Hl in H. discriminate.
Qed.

(** ** The wait loop *)

Section WaitLoop.
Context (c : ConnectCALeaf) (ext : externals) (opts : FetchOptions).
Context (reqReal : option ConnectCALeafRequest) (l : loc) (result : FetchResult).

Local Abbreviation loop := (waitLoop c ext opts reqReal (Some l) result).

(** A run that returns has taken at least one wake-up. *)
Lemma waitLoop_wakes evs t expiresAt h k ret :
  loop t expiresAt h k evs = Done ret -> (k < ret_wakes ret)%nat.
Proof.
  revert t expiresAt h k.
  induction evs as [|ev evs IH]; intros t expiresAt h k H; cbn [waitLoop] in H.
  - discriminate.
  - destruct ev as [w|w|w get RandomStagger].
    + destruct (timerFired _ _ _); [|discriminate]. injection H as <-. cbn. lia.
    + destruct (timerFired _ _ _); [|discriminate].
      destruct (generateNewLeaf _ _ _ _); try discriminate.
      injection H as <-. cbn. lia.
    + destruct (t <=? w); [|discriminate].
      destruct (onRootUpdate _ _ _ _ _ _ _ _) as [[h' eA'|h' res err]| | |];
        try discriminate; cbn [run_bind] in H.
      * apply IH in H. lia.
      * injection H as <-. cbn. lia.
Qed.

(** A run that takes more wake-ups than [pre] has events went through all
    of [pre] by roots-change notices that continued the loop.  The
    authority key of the state is the same afterwards. *)
Lemma waitLoop_prefix pre rest t expiresAt h k ret s :
  loop t expiresAt h k (pre ++ rest) = Done ret ->
  (k + length pre < ret_wakes ret)%nat ->
  h !! l = Some s ->
  exists t' expiresAt' h' s',
    loop t' expiresAt' h' (k + length pre)%nat rest = Done ret /\
    t <= t' /\ h' !! l = Some s' /\ authorityKeyID s' = authorityKeyID s.
Proof.
  revert t expiresAt h k s.
  induction pre as [|ev pre IH]; intros t expiresAt h k s H Hw Hl.
  - cbn [app length] in *. rewrite Nat.add_0_r in *.
    exists t, expiresAt, h, s. repeat split; auto. lia.
  - cbn [app length waitLoop] in *.
    destruct ev as [w|w|w get RandomStagger].
    + destruct (timerFired _ _ _); [|discriminate]. injection H as <-. cbn in Hw. lia.
    + destruct (timerFired _ _ _); [|discriminate].
      destruct (generateNewLeaf _ _ _ _); try discriminate.
      injection H as <-. cbn in Hw. lia.
    + destruct (Z.leb_spec t w) as [Htw|]; [|discriminate].
      destruct (onRootUpdate _ _ _ _ _ _ _ _) as [st| | |] eqn:Hstep;
        try discriminate; cbn [run_bind] in H.
      destruct (onRootUpdate_inv _ _ _ _ _ _ _ _ _ _ Hl Hstep)
        as [(roots & e & _ & ->)|[(roots & _ & _ & ->)|(roots & _ & _ & ->)]].
      * injection H as <-. cbn in Hw. lia.
      * destruct (IH _ _ _ _ s H ltac:(lia) Hl) as (t' & eA' & h' & s' & Hrun & Ht & Hl' & Hk).
        exists t', eA', h', s'. replace (k + S (length pre))%nat with (S k + length pre)%nat by lia.
        repeat split; auto. lia.
      * destruct (IH _ _ _ _ _ H ltac:(lia) (lookup_insert_eq _ _ _))
          as (t' & eA' & h' & s' & Hrun & Ht & Hl' & Hk).
        exists t', eA', h', s'. replace (k + S (length pre))%nat with (S k + length pre)%nat by lia.
        repeat split; auto. lia.
Qed.

(** A failing roots read ends the call with the pre-seeded result. *)
Lemma waitLoop_roots_error w get RandomStagger post t expiresAt h k roots e :
  t <= w ->
  rootsFromCache get = (roots, Some e) ->
  loop t expiresAt h k (EvRootUpdate w get RandomStagger :: post) =
  Done {| ret_result := result; ret_err := Some e; ret_heap := h;
          ret_exit := ExitRootsError; ret_at := w; ret_wakes := S k;
          ret_registered := true |}.
Proof.
  intros Htw Hget. cbn [waitLoop].
  rewrite (proj2 (Z.leb_le t w) Htw), (onRootUpdate_error _ _ _ _ _ _ _ _ roots e Hget).
  reflexivity.
Qed.

(** The caller timeout ends the call with the pre-seeded result and no
    error, once the timer of the current iteration has fired. *)
Lemma waitLoop_timeout w post t expiresAt h k :
  t + Z.max 0 (Timeout opts) <= w ->
  loop t expiresAt h k (EvTimeout w :: post) =
  Done {| ret_result := result; ret_err := None; ret_heap := h;
          ret_exit := ExitTimeout; ret_at := w; ret_wakes := S k;
          ret_registered := true |}.
Proof.
  intros Hw. cbn [waitLoop]. unfold timerFired.
  rewrite (proj2 (Z.leb_le _ _) Hw). reflexivity.
Qed.

(** Whatever way the loop ends by the caller timeout, the result is the
    pre-seeded one, the error is nil, and the timeout has elapsed since the
    last wake-up of the loop (not since the start of the call). *)
Lemma waitLoop_exit_timeout evs t expiresAt h k ret :
  loop t expiresAt h k evs = Done ret ->
  ret_exit ret = ExitTimeout ->
  ret_result ret = result /\ ret_err ret = None /\
  exists t', t <= t' /\ t' + Z.max 0 (Timeout opts) <= ret_at ret /\
             (t' = t \/ exists get RandomStagger, In (EvRootUpdate t' get RandomStagger) evs).
Proof.
  revert t expiresAt h k.
  induction evs as [|ev evs IH]; intros t expiresAt h k H Hx; cbn [waitLoop] in H.
  - discriminate.
  - destruct ev as [w|w|w get RandomStagger].
    + destruct (timerFired _ _ _) eqn:Hfire; [|discriminate]. injection H as <-.
      cbn. repeat split; auto. exists t. unfold timerFired in Hfire.
      apply Z.leb_le in Hfire. repeat split; auto; lia.
    + destruct (timerFired _ _ _); [|discriminate].
      destruct (generateNewLeaf _ _ _ _); try discriminate.
      injection H as <-. cbn in Hx. discriminate.
    + destruct (Z.leb_spec t w) as [Htw|]; [|discriminate].
      destruct (onRootUpdate _ _ _ _ _ _ _ _) as [[h' eA'|h' res err]| | |];
        try discriminate; cbn [run_bind] in H.
      * destruct (IH _ _ _ _ H Hx) as (Hr & He & t' & Ht' & Hfire & Hin).
        repeat split; auto. exists t'. repeat split; auto; [lia|].
        right. destruct Hin as [->|(g & d & Hin)].
        -- exists get, RandomStagger. left. reflexivity.
        -- exists g, d. right. exact Hin.
      * injection H as <-. cbn in Hx. discriminate.
Qed.
(** Events that send the loop round again only move its state. *)
Lemma waitLoop_after pre rest t expiresAt h k t' expiresAt' h' :
  loopAfter c (Some l) result t expiresAt h pre = Some (t', expiresAt', h') ->
  loop t expiresAt h k (pre ++ rest) = loop t' expiresAt' h' (k + length pre)%nat rest.
Proof.
  revert t expiresAt h k.
  induction pre as [|ev pre IH]; intros t expiresAt h k H; cbn [loopAfter] in H.
  - injection H as <- <- <-. cbn [app length]. rewrite Nat.add_0_r. reflexivity.
  - destruct ev as [w|w|w get RandomStagger]; try discriminate.
    cbn [app length waitLoop].
    destruct (t <=? w); [|discriminate].
    destruct (onRootUpdate _ _ _ _ _ _ _ _) as [[h1 eA1|h1 res err]| | |]; try discriminate.
    cbn [run_bind]. rewrite (IH _ _ _ (S k) H). f_equal. lia.
Qed.

(** They leave the state allocated and its authority key as it was, and
    time does not go back. *)
Lemma loopAfter_inv pre t expiresAt h s t' expiresAt' h' :
  loopAfter c (Some l) result t expiresAt h pre = Some (t', expiresAt', h') ->
  h !! l = Some s ->
  t <= t' /\ exists s', h' !! l = Some s' /\ authorityKeyID s' = authorityKeyID s.
Proof.
  revert t expiresAt h s.
  induction pre as [|ev pre IH]; intros t expiresAt h s H Hl; cbn [loopAfter] in H.
  - injection H as <- <- <-. split; [lia|]. eauto.
  - destruct ev as [w|w|w get RandomStagger]; try discriminate.
    destruct (Z.leb_spec t w) as [Htw|]; [|discriminate].
    destruct (onRootUpdate _ _ _ _ _ _ _ _) as [[h1 eA1|h1 res err]| | |] eqn:Hstep;
      try discriminate.
    destruct (onRootUpdate_inv _ _ _ _ _ _ _ _ _ _ Hl Hstep)
      as [(roots & e & _ & Hst)|[(roots & _ & _ & Hst)|(roots & _ & _ & Hst)]];
      try discriminate; injection Hst as -> ->.
    + destruct (IH _ _ _ _ H Hl) as [Ht Hs]. split; [lia|exact Hs].
    + destruct (IH _ _ _ _ H (lookup_insert_eq _ _ _)) as [Ht Hs]. split; [lia|exact Hs].
Qed.
End WaitLoop.

(** ** [Fetch] *)

(** A call that passed through at least one wake-up of the [select], or that
    left by the caller timeout, had a prior cert and state, and ran the loop
    from the pre-seeded result. *)
Lemma Fetch_loop_inv (c : ConnectCALeaf) (ext : externals) (opts : FetchOptions)
    (req : any) (h : heap) (now : Time) (stagger : Duration -> Duration)
    (evs : list selectEvent) (ret : fetchReturn) :
  Fetch c ext opts req h now stagger evs = Done ret ->
  (0 < ret_wakes ret)%nat \/ ret_exit ret = ExitTimeout ->
  exists reqReal existing l idx s expiresAt,
    req = any_ConnectCALeafRequest reqReal /\
    LastResult opts =
      Some {| Value := any_IssuedCert (Some existing);
              State := any_fetchState (Some l); Index := idx |} /\
    h !! l = Some s /\
    waitLoop c ext opts reqReal (Some l)
             {| Value := any_IssuedCert (Some existing);
                State := any_fetchState (Some l);
                Index := ModifyIndex existing |}
             now expiresAt h 0 evs = Done ret.
Proof.
  unfold Fetch. intros H Hw.
  assert (Hout : forall r : fetchReturn,
             ret_wakes r = 0%nat -> ret_exit r <> ExitTimeout -> Done r = Done ret -> False).
  { intros r Hr0 Hrx [= <-]. destruct Hw as [Hw|Hw]; [lia|contradiction]. }
  destruct req as [| | | |reqReal|]; try (exfalso; eapply Hout; [| |exact H]; cbn; congruence).
  destruct (LastResult opts) as [[v st idx]|] eqn:Hlast; cbn [Value State] in H.
  - destruct v as [|existing| | | |];
      try (exfalso; eapply Hout; [| |exact H]; cbn; congruence).
    destruct st as [| |state| | |];
      try (exfalso; eapply Hout; [| |exact H]; cbn; congruence).
    destruct existing as [existing|], state as [l|];
      try (destruct (generateNewLeaf _ _ _ _); try discriminate;
           exfalso; eapply Hout; [| |exact H]; cbn; congruence).
    destruct (calculateSoftExpiry now existing) as [minExpire maxExpire].
    unfold load, deref in H. cbn [run_bind] in H.
    destruct (h !! l) as [s|] eqn:Hl; [|discriminate]. cbn [run_bind] in H.
    destruct (_ || _).
    + destruct (generateNewLeaf _ _ _ _); try discriminate.
      exfalso; eapply Hout; [| |exact H]; cbn; congruence.
    + eauto 10.
  - destruct (generateNewLeaf _ _ _ _); try discriminate.
    exfalso; eapply Hout; [| |exact H]; cbn; congruence.
Qed.

(** A call with a cached cert and state whose target expiry lies ahead
    enters the loop with the pre-seeded result. *)
Lemma Fetch_enters_loop (c : ConnectCALeaf) (ext : externals) (opts : FetchOptions)
    (reqReal : option ConnectCALeafRequest) (existing : IssuedCert) (l : loc) (idx : Z)
    (s : fetchState) (h : heap) (now : Time) (stagger : Duration -> Duration)
    (evs : list selectEvent) :
  LastResult opts =
    Some {| Value := any_IssuedCert (Some existing);
            State := any_fetchState (Some l); Index := idx |} ->
  h !! l = Some s ->
  now < entryExpiresAt now existing stagger s ->
  Fetch c ext opts (any_ConnectCALeafRequest reqReal) h now stagger evs =
  waitLoop c ext opts reqReal (Some l)
           {| Value := any_IssuedCert (Some existing);
              State := any_fetchState (Some l);
              Index := ModifyIndex existing |}
           now (entryExpiresAt now existing stagger s) h 0 evs.
Proof.
  intros Hlast Hl Hahead. unfold Fetch. rewrite Hlast. cbn [Value State].
  unfold entryExpiresAt in *.
  destruct (calculateSoftExpiry now existing) as [minExpire maxExpire]. cbn [fst] in *.
  unfold load, deref. cbn [run_bind]. rewrite Hl. cbn [run_bind].
  set (expiresAt := if _ && _ then _ else _) in *.
  replace ((expiresAt =? now) || Time_Before expiresAt now) with false; [reflexivity|].
  symmetry. apply orb_false_iff. unfold Time_Before.
  split; [apply Z.eqb_neq|apply Z.ltb_ge]; lia.
Qed.

(** C7: when the roots read that follows a roots-change notice fails,
    [Fetch] returns that error together with the pre-seeded result: the prior
    cert, its [ModifyIndex], and the prior state (the same [*fetchState],
    whose authority key is untouched).  [pre] are the notices that sent the
    loop round before. *)
Theorem Fetch_roots_error_returns_preseeded
    (c : ConnectCALeaf) (ext : externals) (opts : FetchOptions)
    (reqReal : option ConnectCALeafRequest) (existing : IssuedCert) (l : loc) (idx : Z)
    (s : fetchState) (h : heap) (now : Time) (stagger : Duration -> Duration)
    (pre post : list selectEvent) (w : Time) (get : errorOr any)
    (RandomStagger : Duration -> Duration)
    (roots : option IndexedCARoots) (e : error)
    (t' expiresAt' : Time) (h' : heap) :
  let result := {| Value := any_IssuedCert (Some existing);
                   State := any_fetchState (Some l);
                   Index := ModifyIndex existing |} in
  LastResult opts =
    Some {| Value := any_IssuedCert (Some existing);
            State := any_fetchState (Some l); Index := idx |} ->
  h !! l = Some s ->
  now < entryExpiresAt now existing stagger s ->
  loopAfter c (Some l) result now (entryExpiresAt now existing stagger s) h pre =
    Some (t', expiresAt', h') ->
  t' <= w ->
  rootsFromCache get = (roots, Some e) ->
  Fetch c ext opts (any_ConnectCALeafRequest reqReal) h now stagger
        (pre ++ EvRootUpdate w get RandomStagger :: post) =
    Done {| ret_result := result; ret_err := Some e; ret_heap := h';
            ret_exit := ExitRootsError; ret_at := w;
            ret_wakes := S (length pre); ret_registered := true |} /\
  exists s', h' !! l = Some s' /\ authorityKeyID s' = authorityKeyID s.
Proof.
  intros result Hlast Hl Hahead Hpre Htw Hget.
  split.
  - rewrite (Fetch_enters_loop _ _ _ _ _ _ _ _ _ _ _ _ Hlast Hl Hahead).
    fold result. rewrite (waitLoop_after _ _ _ _ _ _ _ _ _ _ _ _ _ _ _ Hpre).
    rewrite (waitLoop_roots_error _ _ _ _ _ _ _ _ _ _ _ _ _ _ roots e Htw Hget).
    reflexivity.
  - eapply loopAfter_inv; eauto.
Qed.

(** Scenario: the cached cert of 10:00 to 13:00, a caller timeout of 60 s,
    a notice at 10:30:02 with an unchanged signer, then a notice at 10:30:05
    for which the roots cache fails. *)
Lemma Fetch_roots_error_returns_preseeded_witness :
  let pre := [EvRootUpdate (clock 10 30 2) (Ok (any_IndexedCARoots (Some rootsR1))) (drawn 0)] in
  LastResult (optsS1 (60 * Second)) = Some lastS1 /\
  ({[ 1%positive := stateR1 0 ]} : heap) !! 1%positive = Some (stateR1 0) /\
  clock 10 30 0 < entryExpiresAt (clock 10 30 0) certS1 (drawn (30 * Minute)) (stateR1 0) /\
  loopAfter leafDefault (Some 1%positive) lastS1 (clock 10 30 0)
            (entryExpiresAt (clock 10 30 0) certS1 (drawn (30 * Minute)) (stateR1 0))
            {[ 1%positive := stateR1 0 ]} pre =
    Some (clock 10 30 2, clock 12 18 0, {[ 1%positive := stateR1 0 ]}) /\
  clock 10 30 2 <= clock 10 30 5 /\
  rootsFromCache (Err "roots unavailable"%string) = (None, Some "roots unavailable"%string) /\
  Fetch leafDefault extOk (optsS1 (60 * Second))
        (any_ConnectCALeafRequest (Some reqWeb))
        {[ 1%positive := stateR1 0 ]} (clock 10 30 0) (drawn (30 * Minute))
        (pre ++ EvRootUpdate (clock 10 30 5) (Err "roots unavailable"%string) (drawn 0) :: []) =
    Done {| ret_result := lastS1; ret_err := Some "roots unavailable"%string;
            ret_heap := {[ 1%positive := stateR1 0 ]};
            ret_exit := ExitRootsError; ret_at := clock 10 30 5;
            ret_wakes := 2; ret_registered := true |}.
Proof.
  intros pre.
  assert (H1 : LastResult (optsS1 (60 * Second)) = Some lastS1) by reflexivity.
  assert (H2 : ({[ 1%positive := stateR1 0 ]} : heap) !! 1%positive = Some (stateR1 0))
    by reflexivity.
  assert (H3 : clock 10 30 0 <
               entryExpiresAt (clock 10 30 0) certS1 (drawn (30 * Minute)) (stateR1 0))
    by (vm_compute; reflexivity).
  assert (H4 : loopAfter leafDefault (Some 1%positive) lastS1 (clock 10 30 0)
                 (entryExpiresAt (clock 10 30 0) certS1 (drawn (30 * Minute)) (stateR1 0))
                 {[ 1%positive := stateR1 0 ]} pre =
               Some (clock 10 30 2, clock 12 18 0, {[ 1%positive := stateR1 0 ]}))
    by (vm_compute; reflexivity).
  assert (H5 : clock 10 30 2 <= clock 10 30 5) by (vm_compute; discriminate).
  assert (H6 : rootsFromCache (Err "roots unavailable"%string) =
               (None, Some "roots unavailable"%string)) by reflexivity.
  do 6 (split; [assumption|]).
  exact (proj1 (Fetch_roots_error_returns_preseeded
                  leafDefault extOk (optsS1 (60 * Second)) (Some reqWeb) certS1
                  1%positive 7 (stateR1 0) {[ 1%positive := stateR1 0 ]}
                  (clock 10 30 0) (drawn (30 * Minute)) pre []
                  (clock 10 30 5) (Err "roots unavailable"%string) (drawn 0)
                  None "roots unavailable"%string
                  (clock 10 30 2) (clock 12 18 0) {[ 1%positive := stateR1 0 ]}
                  H1 H2 H3 H4 H5 H6)).
Defined.

(** Conversely, a call whose last wake-up was a roots-change notice with a
    failing roots read returned that error with the pre-seeded result. *)
Lemma Fetch_roots_error_inv
    (c : ConnectCALeaf) (ext : externals) (opts : FetchOptions) (req : any)
    (h : heap) (now : Time) (stagger : Duration -> Duration)
    (pre post : list selectEvent) (w : Time) (get : errorOr any)
    (RandomStagger : Duration -> Duration)
    (roots : option IndexedCARoots) (e : error) (ret : fetchReturn) :
  Fetch c ext opts req h now stagger (pre ++ EvRootUpdate w get RandomStagger :: post) = Done ret ->
  ret_wakes ret = S (length pre) ->
  rootsFromCache get = (roots, Some e) ->
  exists existing l idx s s',
    LastResult opts =
      Some {| Value := any_IssuedCert (Some existing);
              State := any_fetchState (Some l); Index := idx |} /\
    ret_err ret = Some e /\
    ret_result ret =
      {| Value := any_IssuedCert (Some existing);
         State := any_fetchState (Some l);
         Index := ModifyIndex existing |} /\
    ret_exit ret = ExitRootsError /\
    h !! l = Some s /\ ret_heap ret !! l = Some s' /\
    authorityKeyID s' = authorityKeyID s.
Proof.
  intros H Hw Hget.
  destruct (Fetch_loop_inv _ _ _ _ _ _ _ _ _ H ltac:(left; lia))
    as (reqReal & existing & l & idx & s & eA & _ & Hlast & Hl & Hloop).
  destruct (waitLoop_prefix _ _ _ _ _ _ _ _ _ _ _ _ _ _ Hloop ltac:(lia) Hl)
    as (t' & eA' & h' & s' & Hrun & Ht & Hl' & Hk).
  cbn [waitLoop] in Hrun.
  destruct (t' <=? w); [|discriminate].
  rewrite (onRootUpdate_error _ _ _ _ _ _ _ _ roots e Hget) in Hrun.
  cbn [run_bind] in Hrun. injection Hrun as <-. cbn.
  exists existing, l, idx, s, s'. repeat split; auto.
Qed.

(** C10: in a roots snapshot with no root marked active,
    [activeRootHasKey] is false for every key; a [Fetch] woken by a
    roots-change notice that reads such a snapshot therefore takes it for a
    change of signer: it schedules the forced expiry at [now + RandomStagger (jitterOf c)], lowers
    its target to that instant if earlier, and goes round the loop. *)
Theorem no_active_root_forces_expiry
    (c : ConnectCALeaf) (ext : externals) (opts : FetchOptions)
    (reqReal : option ConnectCALeafRequest) (l : loc) (s : fetchState)
    (result : FetchResult) (h : heap) (t expiresAt now : Time)
    (RandomStagger : Duration -> Duration)
    (roots : IndexedCARoots) (key : string) (k : nat) (evs : list selectEvent) :
  Forall (fun ca => Active ca = false) (Roots roots) ->
  h !! l = Some s ->
  t <= now ->
  let h' := <[l := {| authorityKeyID := authorityKeyID s;
                      forceExpireAfter := now + RandomStagger (jitterOf c) |}]> h in
  activeRootHasKey roots key = false /\
  onRootUpdate c (Some l) result h expiresAt now
               (Ok (any_IndexedCARoots (Some roots))) RandomStagger =
    Done (Continue h' (Z.min expiresAt (now + RandomStagger (jitterOf c)))) /\
  waitLoop c ext opts reqReal (Some l) result t expiresAt h k
           (EvRootUpdate now (Ok (any_IndexedCARoots (Some roots))) RandomStagger :: evs) =
    waitLoop c ext opts reqReal (Some l) result now
             (Z.min expiresAt (now + RandomStagger (jitterOf c))) h' (S k) evs.
Proof.
  intros Hno Hl Ht h'.
  assert (Hkey : forall key', activeRootHasKey roots key' = false)
    by (intros key'; apply activeRootHasKey_loop_no_active, Hno).
  assert (Hstep : onRootUpdate c (Some l) result h expiresAt now
                    (Ok (any_IndexedCARoots (Some roots))) RandomStagger =
                  Done (Continue h' (Z.min expiresAt (now + RandomStagger (jitterOf c)))))
    by (apply (onRootUpdate_signer_changed _ _ s _ _ _ _ _ _ roots); auto).
  split; [apply Hkey|]. split; [exact Hstep|].
  cbn [waitLoop]. rewrite (proj2 (Z.leb_le t now) Ht), Hstep. reflexivity.
Qed.

(** A notice at 10:30:05 with the snapshot without active root and a drawn
    delay of 4 s: the forced expiry and the target become 10:30:09. *)
Lemma no_active_root_forces_expiry_witness :
  Forall (fun ca => Active ca = false) (Roots rootsNoActive) /\
  ({[ 1%positive := stateR1 0 ]} : heap) !! 1%positive = Some (stateR1 0) /\
  clock 10 30 0 <= clock 10 30 5 /\
  activeRootHasKey rootsNoActive "R1" = false /\
  onRootUpdate leafDefault (Some 1%positive) lastS1 {[ 1%positive := stateR1 0 ]}
               (clock 12 0 0) (clock 10 30 5)
               (Ok (any_IndexedCARoots (Some rootsNoActive))) (drawn (4 * Second)) =
    Done (Continue {[ 1%positive := stateR1 (clock 10 30 9) ]} (clock 10 30 9)).
Proof.
  assert (H1 : Forall (fun ca => Active ca = false) (Roots rootsNoActive))
    by (repeat constructor).
  assert (H2 : ({[ 1%positive := stateR1 0 ]} : heap) !! 1%positive = Some (stateR1 0))
    by reflexivity.
  assert (H3 : clock 10 30 0 <= clock 10 30 5) by (vm_compute; discriminate).
  split; [exact H1|]. split; [exact H2|]. split; [exact H3|].
  destruct (no_active_root_forces_expiry leafDefault extOk (optsS1 (60 * Second))
              (Some reqWeb) 1%positive (stateR1 0) lastS1 {[ 1%positive := stateR1 0 ]}
              (clock 10 30 0) (clock 12 0 0) (clock 10 30 5) (drawn (4 * Second))
              rootsNoActive "R1" 0 [] H1 H2 H3) as (Hkey & Hstep & _).
  split; [exact Hkey|]. rewrite Hstep. vm_compute. reflexivity.
Defined.

(** ** A forced expiry across calls *)

(** With a parser that accepts what it is given, a failing
    [generateNewLeaf] leaves the store as it was. *)
Lemma generateNewLeaf_error_parses (ext : externals) (req : option ConnectCALeafRequest)
    (state : option loc) (h h' : heap) (res : FetchResult) (e : error) :
  parses ext ->
  generateNewLeaf ext req state h = Done (h', (res, Some e)) ->
  h' = h.
Proof.
  intros Hp H.
  destruct (generateNewLeaf_error_store _ _ _ _ _ _ _ H)
    as [_ [->|(l & s & pem & _ & _ & Hparse & _)]]; [reflexivity|].
  destruct (Hp pem) as [cert Hok]. rewrite Hok in Hparse. discriminate.
Qed.

(** A forced expiry stays scheduled as time passes. *)
Lemma forcedBy_later (c : ConnectCALeaf) (l : loc) (all : list selectEvent)
    (since t t' : Time) (h : heap) :
  forcedBy c l all since t h -> t <= t' -> forcedBy c l all since t' h.
Proof.
  intros (s & w & get & d & Hl & Hin & Hf & Hd & Hw & Hsw) Ht.
  exists s, w, get, d. repeat split; auto; lia.
Qed.

Section ForcedExpiry.
Context (c : ConnectCALeaf) (l : loc) (all : list selectEvent) (since : Time).

(** With a forced expiry scheduled, the loop ends in one of two ways: a
    renewal that succeeded, or a return that leaves a forced expiry
    scheduled; in the second case a nil error means the caller timeout, with
    the pre-seeded result. *)
Lemma waitLoop_forcedBy (ext : externals) (opts : FetchOptions)
    (reqReal : option ConnectCALeafRequest) (result : FetchResult)
    (evs : list selectEvent) (t expiresAt : Time) (h : heap) (k : nat)
    (ret : fetchReturn) :
  waitLoop c ext opts reqReal (Some l) result t expiresAt h k evs = Done ret ->
  forcedBy c l all since t h ->
  (forall ev, In ev evs -> In ev all) ->
  draws_ok c evs = true ->
  parses ext ->
  0 < t -> since <= t ->
  t <= ret_at ret /\
  ((ret_err ret = None /\ ret_exit ret = ExitExpiry /\
    exists h0, generateNewLeaf ext reqReal (Some l) h0 =
               Done (ret_heap ret, (ret_result ret, None))) \/
   ((ret_err ret = None -> ret_exit ret = ExitTimeout /\ ret_result ret = result) /\
    forcedBy c l all since (ret_at ret) (ret_heap ret))).
Proof.
  revert t expiresAt h k.
  induction evs as [|ev evs IH]; intros t expiresAt h k H Hf Hin Hd Hp Ht Hs;
    cbn [waitLoop] in H.
  - discriminate.
  - cbn [draws_ok forallb] in Hd. apply andb_true_iff in Hd as [Hd1 Hd].
    destruct ev as [w|w|w get RandomStagger].
    + destruct (timerFired _ _ _) eqn:Hfire; [|discriminate]. injection H as <-.
      unfold timerFired in Hfire. apply Z.leb_le in Hfire. cbn.
      split; [lia|]. right. split; [auto|].
      apply (forcedBy_later _ _ _ _ t); [exact Hf|lia].
    + destruct (timerFired _ _ _) eqn:Hfire; [|discriminate].
      unfold timerFired in Hfire. apply Z.leb_le in Hfire.
      destruct (generateNewLeaf _ _ _ _) as [[h' [res err]]| | |] eqn:Hgen; try discriminate.
      injection H as <-. cbn. split; [lia|].
      destruct err as [e|].
      * right. split; [discriminate|].
        rewrite (generateNewLeaf_error_parses _ _ _ _ _ _ _ Hp Hgen).
        apply (forcedBy_later _ _ _ _ t); [exact Hf|lia].
      * left. repeat split; auto. eauto.
    + destruct (Z.leb_spec t w) as [Htw|]; [|discriminate].
      destruct (onRootUpdate _ _ _ _ _ _ _ _) as [st| | |] eqn:Hstep;
        try discriminate; cbn [run_bind] in H.
      pose proof Hf as (s & w0 & get0 & d0 & Hl & Hin0 & Hf0 & Hd0 & Hw0 & Hsw0).
      destruct (onRootUpdate_inv _ _ _ _ _ _ _ _ _ _ Hl Hstep)
        as [(roots & e & _ & ->)|[(roots & _ & _ & ->)|(roots & _ & _ & ->)]].
      * injection H as <-. cbn. split; [lia|]. right. split; [discriminate|].
        apply (forcedBy_later _ _ _ _ t); [exact Hf|lia].
      * destruct (IH w expiresAt h (S k) H) as [Hat Hres]; auto; try lia.
        -- apply (forcedBy_later _ _ _ _ t); [exact Hf|lia].
        -- intros ev Hev. apply Hin. right. exact Hev.
        -- split; [lia|exact Hres].
      * apply andb_true_iff in Hd1 as [Hd1 HdJ]. apply Z.leb_le in Hd1, HdJ.
        destruct (IH w _ _ (S k) H) as [Hat Hres]; auto; try lia.
        -- eexists _, w, get, RandomStagger. rewrite lookup_insert_eq.
           split; [reflexivity|]. split; [apply Hin; left; reflexivity|].
           cbn [forceExpireAfter]. repeat split; auto; lia.
        -- intros ev Hev. apply Hin. right. exact Hev.
        -- split; [lia|exact Hres].
Qed.

(** The same for a whole call handed the state at [l]. *)
Lemma Fetch_forcedBy (ext : externals) (opts : FetchOptions) (req : any)
    (h : heap) (now : Time) (stagger : Duration -> Duration) (evs : list selectEvent)
    (existing : IssuedCert) (idx : Z) (ret : fetchReturn) :
  Fetch c ext opts req h now stagger evs = Done ret ->
  LastResult opts =
    Some {| Value := any_IssuedCert (Some existing);
            State := any_fetchState (Some l); Index := idx |} ->
  forcedBy c l all since now h ->
  (forall ev, In ev evs -> In ev all) ->
  draws_ok c evs = true ->
  parses ext ->
  0 < now -> since <= now ->
  now <= ret_at ret /\
  ((ret_err ret = None /\ (ret_exit ret = ExitExpiry \/ ret_exit ret = ExitExpired) /\
    exists reqReal h0, generateNewLeaf ext reqReal (Some l) h0 =
                       Done (ret_heap ret, (ret_result ret, None))) \/
   ((ret_err ret = None ->
     ret_exit ret = ExitTimeout /\
     ret_result ret = {| Value := any_IssuedCert (Some existing);
                         State := any_fetchState (Some l);
                         Index := ModifyIndex existing |}) /\
    forcedBy c l all since (ret_at ret) (ret_heap ret))).
Proof.
  intros H Hlast Hf Hin Hd Hp Hnow Hs.
  unfold Fetch in H.
  destruct req as [| | | |reqReal|];
    try (injection H as <-; cbn; split; [lia|]; right; split; [discriminate|exact Hf]).
  rewrite Hlast in H. cbn [Value State] in H.
  destruct (calculateSoftExpiry now existing) as [minExpire maxExpire].
  pose proof Hf as (s & w0 & get0 & d0 & Hl & _).
  unfold load, deref in H. cbn [run_bind] in H. rewrite Hl in H. cbn [run_bind] in H.
  destruct (_ || _).
  - destruct (generateNewLeaf _ _ _ _) as [[h' [res err]]| | |] eqn:Hgen; try discriminate.
    injection H as <-. cbn. split; [lia|].
    destruct err as [e|].
    + right. split; [discriminate|].
      rewrite (generateNewLeaf_error_parses _ _ _ _ _ _ _ Hp Hgen). exact Hf.
    + left. repeat split; auto. eauto.
  - destruct (waitLoop_forcedBy _ _ _ _ _ _ _ _ _ _ H Hf Hin Hd Hp Hnow Hs) as [Hat Hres].
    split; [exact Hat|].
    destruct Hres as [(He & Hx & h0 & Hgen)|[Hto Hfb]].
    + left. repeat split; auto. eauto.
    + right. split; [exact Hto|exact Hfb].
Qed.

(** And for the first of a series of calls that returns a nil error. *)
Lemma nextSuccess_forcedBy (calls : list fetchCall) (h : heap) (t : Time)
    (ret : fetchReturn) :
  nextSuccess c h t calls = Done ret ->
  Forall (callOn l) calls ->
  Forall (fun k => parses (call_ext k)) calls ->
  Forall (fun k => draws_ok c (call_evs k) = true) calls ->
  (forall ev, In ev (concat (map call_evs calls)) -> In ev all) ->
  forcedBy c l all since t h ->
  0 < t -> since <= t ->
  ret_err ret = None /\ t <= ret_at ret /\
  exists k existing idx,
    In k calls /\
    LastResult (call_opts k) =
      Some {| Value := any_IssuedCert (Some existing);
              State := any_fetchState (Some l); Index := idx |} /\
    (((ret_exit ret = ExitExpiry \/ ret_exit ret = ExitExpired) /\
      exists reqReal h0, generateNewLeaf (call_ext k) reqReal (Some l) h0 =
                         Done (ret_heap ret, (ret_result ret, None))) \/
     (ret_exit ret = ExitTimeout /\
      ret_result ret = {| Value := any_IssuedCert (Some existing);
                          State := any_fetchState (Some l);
                          Index := ModifyIndex existing |} /\
      forcedBy c l all since (ret_at ret) (ret_heap ret))).
Proof.
  revert h t.
  induction calls as [|k calls IH]; intros h t H Hon Hps Hds Hin Hf Ht Hs;
    cbn [nextSuccess] in H.
  - discriminate.
  - destruct (Z.leb_spec t (call_now k)) as [Htk|]; [|discriminate].
    inversion Hon as [|? ? (existing & idx & Hlast) Hon']; subst.
    inversion Hps as [|? ? Hp Hps']; subst.
    inversion Hds as [|? ? Hd Hds']; subst.
    cbn [map concat] in Hin.
    unfold runCall in H.
    destruct (Fetch _ _ _ _ _ _ _ _) as [r| | |] eqn:Hrun; try discriminate.
    cbn [run_bind] in H.
    destruct (Fetch_forcedBy _ _ _ _ _ _ _ _ _ _ Hrun Hlast) as [Hat Hres]; auto; try lia.
    { apply (forcedBy_later _ _ _ _ t); [exact Hf|lia]. }
    { intros ev Hev. apply Hin, in_or_app. left. exact Hev. }
    destruct (ret_err r) as [e|] eqn:He.
    + destruct Hres as [(Hn & _)|[_ Hfb]]; [discriminate|].
      destruct (IH _ _ H) as (He' & Hat' & k' & ex' & idx' & Hk' & Hlast' & Hres');
        auto; try lia.
      { intros ev Hev. apply Hin, in_or_app. right. exact Hev. }
      split; [exact He'|]. split; [lia|].
      exists k', ex', idx'. split; [right; exact Hk'|]. split; [exact Hlast'|exact Hres'].
    + injection H as <-. split; [exact He|]. split; [lia|].
      exists k, existing, idx. split; [left; reflexivity|]. split; [exact Hlast|].
      destruct Hres as [(_ & Hx & Hgen)|[Hto Hfb]].
      * left. split; [exact Hx|exact Hgen].
      * right. destruct (Hto eq_refl) as [Hx Hr]. repeat split; auto.
Qed.
End ForcedExpiry.

(** C5: when a roots-change notice wakes the loop and the active root is
    not signed by [state.authorityKeyID], [Fetch] sets
    [state.forceExpireAfter] to the instant of the notice plus a delay drawn
    from [[0, jitter]] (20 s unless the test override is set), lowers its
    target to that instant if earlier, and goes round the loop with the
    lowered target.  Consequently the next call on that cache entry that
    returns without error, be it the call that took the notice or a later
    one, either returns a new cert, or returns the cached one with a state
    whose [forceExpireAfter] is non-zero and is the instant of that notice
    or of a later one plus the delay drawn there, hence at most [jitter]
    after it.  Renewals that fail in [connect.ParseCert] are left aside. *)
Theorem Fetch_signer_change_forces_expiry
    (c : ConnectCALeaf) (ext : externals) (opts : FetchOptions) (req : any)
    (h : heap) (now : Time) (stagger : Duration -> Duration)
    (pre post : list selectEvent) (w : Time) (get : errorOr any)
    (RandomStagger : Duration -> Duration)
    (roots : IndexedCARoots) (existing : IssuedCert) (l : loc) (idx : Z)
    (s : fetchState) (later : list fetchCall) (r1 ret : fetchReturn) :
  let notice := EvRootUpdate w get RandomStagger in
  let first :=
    {| call_ext := ext; call_opts := opts; call_req := req; call_now := now;
       call_stagger := stagger; call_evs := pre ++ notice :: post |} in
  LastResult opts =
    Some {| Value := any_IssuedCert (Some existing);
            State := any_fetchState (Some l); Index := idx |} ->
  h !! l = Some s ->
  0 < now ->
  rootsFromCache get = (Some roots, None) ->
  activeRootHasKey roots (authorityKeyID s) = false ->
  Forall (fun k => draws_ok c (call_evs k) = true) (first :: later) ->
  Forall (callOn l) later ->
  Forall (fun k => parses (call_ext k)) (first :: later) ->
  (0 <= RandomStagger (jitterOf c) <= jitterOf c /\
   (testSetCAChangeInitialJitter c <= 0 -> jitterOf c = 20 * Second) /\
   (0 < testSetCAChangeInitialJitter c -> jitterOf c = testSetCAChangeInitialJitter c) /\
   forall (reqReal : option ConnectCALeafRequest) (result : FetchResult) (h0 : heap)
          (s0 : fetchState) (t expiresAt : Time) (k : nat) (evs : list selectEvent),
     h0 !! l = Some s0 -> authorityKeyID s0 = authorityKeyID s -> t <= w ->
     let h0' := <[l := {| authorityKeyID := authorityKeyID s0;
                          forceExpireAfter := w + RandomStagger (jitterOf c) |}]> h0 in
     onRootUpdate c (Some l) result h0 expiresAt w get RandomStagger =
       Done (Continue h0' (Z.min expiresAt (w + RandomStagger (jitterOf c)))) /\
     waitLoop c ext opts reqReal (Some l) result t expiresAt h0 k (notice :: evs) =
       waitLoop c ext opts reqReal (Some l) result w
                (Z.min expiresAt (w + RandomStagger (jitterOf c))) h0' (S k) evs) /\
  (runCall c h first = Done r1 ->
   (length pre < ret_wakes r1)%nat ->
   nextSuccess c h now (first :: later) = Done ret ->
   ret_err ret = None /\
   exists (k : fetchCall) (existing' : IssuedCert) (idx' : Z),
     In k (first :: later) /\
     LastResult (call_opts k) =
       Some {| Value := any_IssuedCert (Some existing');
               State := any_fetchState (Some l); Index := idx' |} /\
     (((ret_exit ret = ExitExpiry \/ ret_exit ret = ExitExpired) /\
       exists args reply key s',
         RPC_Sign (call_ext k) args = Ok reply /\
         ret_result ret =
           {| Value := any_IssuedCert
                         (Some {| CertPEM := CertPEM reply;
                                  PrivateKeyPEM := key;
                                  ValidAfter := ValidAfter reply;
                                  ValidBefore := ValidBefore reply;
                                  ModifyIndex := ModifyIndex reply |});
              State := any_fetchState (Some l);
              Index := ModifyIndex reply |} /\
         ret_heap ret !! l = Some s' /\ forceExpireAfter s' = 0) \/
      (ret_exit ret = ExitTimeout /\
       ret_result ret =
         {| Value := any_IssuedCert (Some existing');
            State := any_fetchState (Some l);
            Index := ModifyIndex existing' |} /\
       exists s' w' get' RandomStagger',
         ret_heap ret !! l = Some s' /\
         In (EvRootUpdate w' get' RandomStagger')
            (notice :: post ++ concat (map call_evs later)) /\
         forceExpireAfter s' = w' + RandomStagger' (jitterOf c) /\
         w <= w' <= ret_at ret /\
         forceExpireAfter s' <> 0 /\
         forceExpireAfter s' <= w' + jitterOf c))).
Proof.
  intros notice first Hlast Hl Hnow Hget Hkey Hdraws Hon Hparse.
  inversion Hdraws as [|? ? Hd1 Hdl]; subst. cbn [call_evs first] in Hd1.
  inversion Hparse as [|? ? Hp1 Hpl]; subst. cbn [call_ext first] in Hp1.
  assert (Hdelay : 0 <= RandomStagger (jitterOf c) <= jitterOf c).
  { unfold draws_ok in Hd1. rewrite forallb_app in Hd1.
    apply andb_true_iff in Hd1 as [_ Hd]. cbn [forallb notice] in Hd.
    apply andb_true_iff in Hd as [Hd _]. apply andb_true_iff in Hd as [H0 HJ].
    apply Z.leb_le in H0, HJ. lia. }
  assert (Hpost : draws_ok c post = true).
  { unfold draws_ok in Hd1 |- *. rewrite forallb_app in Hd1.
    apply andb_true_iff in Hd1 as [_ Hd]. cbn [forallb] in Hd.
    apply andb_true_iff in Hd as [_ Hd]. exact Hd. }
  split.
  { split; [exact Hdelay|].
    split; [|split].
    - intros Hle. unfold jitterOf, caChangeInitialJitter.
      destruct (Z.ltb_spec 0 (testSetCAChangeInitialJitter c)); [lia|reflexivity].
    - intros Hlt. unfold jitterOf, caChangeInitialJitter.
      destruct (Z.ltb_spec 0 (testSetCAChangeInitialJitter c)); [reflexivity|lia].
    - intros reqReal result h0 s0 t eA k evs Hl0 Hk0 Htw h0'.
      assert (Hstep : onRootUpdate c (Some l) result h0 eA w get RandomStagger =
                      Done (Continue h0' (Z.min eA (w + RandomStagger (jitterOf c))))).
      { apply (onRootUpdate_signer_changed _ _ s0 _ _ _ _ _ _ roots); auto.
        rewrite Hk0. exact Hkey. }
      split; [exact Hstep|].
      unfold notice. cbn [waitLoop]. rewrite (proj2 (Z.leb_le t w) Htw), Hstep.
      reflexivity. }
  intros H1 Hw Hchain.
  cbn [nextSuccess call_now first] in Hchain.
  rewrite Z.leb_refl, H1 in Hchain. cbn [run_bind] in Hchain.
  unfold runCall in H1.
  cbn [call_ext call_opts call_req call_now call_stagger call_evs first] in H1.
  destruct (Fetch_loop_inv _ _ _ _ _ _ _ _ _ H1 ltac:(left; lia))
    as (reqReal & existing0 & l0 & idx0 & s0 & eA & _ & Hlast0 & Hl0 & Hloop).
  rewrite Hlast in Hlast0. injection Hlast0 as <- <- <-.
  rewrite Hl in Hl0. injection Hl0 as <-.
  destruct (waitLoop_prefix _ _ _ _ _ _ _ _ _ _ _ _ _ _ Hloop ltac:(lia) Hl)
    as (t' & eA' & h' & s' & Hrun & Ht & Hl' & Hk).
  unfold notice in Hrun. cbn [waitLoop] in Hrun.
  destruct (Z.leb_spec t' w) as [Htw|]; [|discriminate].
  rewrite (onRootUpdate_signer_changed _ _ s' _ _ _ _ _ _ roots Hl' Hget) in Hrun
    by (rewrite Hk; exact Hkey).
  cbn [run_bind] in Hrun.
  set (all := notice :: post ++ concat (map call_evs later)).
  destruct (waitLoop_forcedBy c l all w _ _ _ _ _ _ _ _ _ _ Hrun) as [Hat Hres];
    auto; try lia.
  { eexists _, w, get, RandomStagger. rewrite lookup_insert_eq.
    split; [reflexivity|]. split; [left; reflexivity|].
    cbn [forceExpireAfter]. repeat split; auto; lia. }
  { intros ev Hev. right. apply in_or_app. left. exact Hev. }
  assert (Hfin : forall (k : fetchCall) (ex : IssuedCert) (r : fetchReturn),
             ret_exit r = ExitTimeout /\
             ret_result r = {| Value := any_IssuedCert (Some ex);
                               State := any_fetchState (Some l);
                               Index := ModifyIndex ex |} /\
             forcedBy c l all w (ret_at r) (ret_heap r) ->
             ret_exit r = ExitTimeout /\
             ret_result r = {| Value := any_IssuedCert (Some ex);
                               State := any_fetchState (Some l);
                               Index := ModifyIndex ex |} /\
             exists s' w' get' RandomStagger',
               ret_heap r !! l = Some s' /\
               In (EvRootUpdate w' get' RandomStagger') all /\
               forceExpireAfter s' = w' + RandomStagger' (jitterOf c) /\
               w <= w' <= ret_at r /\
               forceExpireAfter s' <> 0 /\
               forceExpireAfter s' <= w' + jitterOf c).
  { intros k ex r (Hx & Hr & (s1 & w1 & g1 & d1 & Hl1 & Hin1 & Hf1 & Hd1' & Hw1 & Hsw1)).
    split; [exact Hx|]. split; [exact Hr|].
    exists s1, w1, g1, d1. repeat split; auto; lia. }
  assert (Hnew : forall (e : externals) (rq : option ConnectCALeafRequest) (h0 : heap)
                        (r : fetchReturn),
             generateNewLeaf e rq (Some l) h0 = Done (ret_heap r, (ret_result r, None)) ->
             exists args reply key s',
               RPC_Sign e args = Ok reply /\
               ret_result r =
                 {| Value := any_IssuedCert
                               (Some {| CertPEM := CertPEM reply;
                                        PrivateKeyPEM := key;
                                        ValidAfter := ValidAfter reply;
                                        ValidBefore := ValidBefore reply;
                                        ModifyIndex := ModifyIndex reply |});
                    State := any_fetchState (Some l);
                    Index := ModifyIndex reply |} /\
               ret_heap r !! l = Some s' /\ forceExpireAfter s' = 0).
  { intros e rq h0 r Hgen.
    destruct (generateNewLeaf_success _ _ _ _ _ _ Hgen)
      as (reply & args & pk & l1 & s1 & Hsign & Hres1 & Hst & Hl1 & Hf0).
    injection Hst as <-. exists args, reply, pk, s1. repeat split; auto. }
  destruct (ret_err r1) as [e|] eqn:He1.
  - destruct Hres as [(Hn & _)|[_ Hfb]]; [discriminate|].
    destruct (nextSuccess_forcedBy c l all w later _ _ _ Hchain)
      as (He & Hat' & k & ex & ix & Hk' & Hlastk & Hres'); auto; try lia.
    { intros ev Hev. right. apply in_or_app. right. exact Hev. }
    split; [exact He|].
    exists k, ex, ix. split; [right; exact Hk'|]. split; [exact Hlastk|].
    destruct Hres' as [(Hx & rq & h0 & Hgen)|Hto].
    + left. split; [exact Hx|]. exact (Hnew _ _ _ _ Hgen).
    + right. exact (Hfin k ex ret Hto).
  - injection Hchain as <-. split; [exact He1|].
    exists first, existing, idx. split; [left; reflexivity|]. split; [exact Hlast|].
    destruct Hres as [(_ & Hx & h0 & Hgen)|[Hto Hfb]].
    + left. split; [left; exact Hx|]. exact (Hnew _ _ _ _ Hgen).
    + right. destruct (Hto eq_refl) as [Hx Hr]. apply (Hfin first); auto.
Qed.

(** Scenario: the cached cert signed by ["R1"]; a notice at 10:30:05 with
    ["R2"] active and a drawn delay of 15 s; the call ends at 10:30:08 on a
    failing roots read.  The next call, at 10:30:10 with a caller timeout of
    5 s, returns the cached cert at 10:30:15; the state carries the forced
    expiry 10:30:20. *)
Lemma Fetch_signer_change_forces_expiry_witness :
  LastResult (optsS1 (60 * Second)) = Some lastS1 /\
  ({[ 1%positive := stateR1 0 ]} : heap) !! 1%positive = Some (stateR1 0) /\
  0 < clock 10 30 0 /\
  rootsFromCache (Ok (any_IndexedCARoots (Some rootsR2))) = (Some rootsR2, None) /\
  activeRootHasKey rootsR2 (authorityKeyID (stateR1 0)) = false /\
  Forall (fun k => draws_ok leafDefault (call_evs k) = true) [callRotation; callAfter] /\
  Forall (callOn 1%positive) [callAfter] /\
  Forall (fun k => parses (call_ext k)) [callRotation; callAfter] /\
  runCall leafDefault {[ 1%positive := stateR1 0 ]} callRotation = Done retRootsError /\
  (length (@nil selectEvent) < ret_wakes retRootsError)%nat /\
  nextSuccess leafDefault {[ 1%positive := stateR1 0 ]} (clock 10 30 0)
              [callRotation; callAfter] = Done retAfter /\
  exists s' w' get' RandomStagger',
    ret_heap retAfter !! 1%positive = Some s' /\
    In (EvRootUpdate w' get' RandomStagger')
       (EvRootUpdate (clock 10 30 5) (Ok (any_IndexedCARoots (Some rootsR2)))
                     (drawn (15 * Second))
        :: [EvRootUpdate (clock 10 30 8) (Err "roots unavailable"%string) (drawn 0)]
           ++ concat (map call_evs [callAfter])) /\
    forceExpireAfter s' = w' + RandomStagger' (jitterOf leafDefault) /\
    clock 10 30 5 <= w' <= ret_at retAfter /\
    forceExpireAfter s' <> 0 /\
    forceExpireAfter s' <= w' + jitterOf leafDefault.
Proof.
  assert (H1 : LastResult (optsS1 (60 * Second)) = Some lastS1) by reflexivity.
  assert (H2 : ({[ 1%positive := stateR1 0 ]} : heap) !! 1%positive = Some (stateR1 0))
    by reflexivity.
  assert (H3 : 0 < clock 10 30 0) by (vm_compute; reflexivity).
  assert (H4 : rootsFromCache (Ok (any_IndexedCARoots (Some rootsR2))) = (Some rootsR2, None))
    by reflexivity.
  assert (H5 : activeRootHasKey rootsR2 (authorityKeyID (stateR1 0)) = false)
    by reflexivity.
  assert (H6 : Forall (fun k => draws_ok leafDefault (call_evs k) = true)
                      [callRotation; callAfter])
    by (repeat constructor; vm_compute; reflexivity).
  assert (H7 : Forall (callOn 1%positive) [callAfter])
    by (repeat constructor; exists certS1, 7; reflexivity).
  assert (H8 : Forall (fun k => parses (call_ext k)) [callRotation; callAfter])
    by (repeat constructor; intros pem; eexists; reflexivity).
  assert (H9 : runCall leafDefault {[ 1%positive := stateR1 0 ]} callRotation =
               Done retRootsError) by (vm_compute; reflexivity).
  assert (H10 : (length (@nil selectEvent) < ret_wakes retRootsError)%nat) by (cbn; lia).
  assert (H11 : nextSuccess leafDefault {[ 1%positive := stateR1 0 ]} (clock 10 30 0)
                            [callRotation; callAfter] = Done retAfter)
    by (vm_compute; reflexivity).
  do 11 (split; [assumption|]).
  destruct (Fetch_signer_change_forces_expiry
              leafDefault extOk (optsS1 (60 * Second))
              (any_ConnectCALeafRequest (Some reqWeb))
              {[ 1%positive := stateR1 0 ]} (clock 10 30 0) (drawn (30 * Minute))
              []
              [EvRootUpdate (clock 10 30 8) (Err "roots unavailable"%string) (drawn 0)]
              (clock 10 30 5)
              (Ok (any_IndexedCARoots (Some rootsR2))) (drawn (15 * Second))
              rootsR2 certS1 1%positive 7 (stateR1 0) [callAfter]
              retRootsError retAfter
              H1 H2 H3 H4 H5 H6 H7 H8) as [_ Hrun].
  destruct (Hrun H9 H10 H11) as (_ & k & ex & ix & _ & _ & [[[Hx|Hx] _]|(_ & _ & Hforced)]).
  - discriminate Hx.
  - discriminate Hx.
  - exact Hforced.
Defined.

(** C5, as worded, against the code: the bound does not hold relative to
    the instant of every such notice.  The cached cert is signed by
    ["R1"]; a rotation to ["R2"] is noticed at 10:30:01 and a further one
    to ["R3"] at 10:30:05, each with a drawn delay of 19 s; the caller
    timeout of 10 s fires at 10:30:15, before the lowered target 10:30:20.
    The call returns the cached cert without error, and the state carries
    [forceExpireAfter] = 10:30:24, later than 20 s after the first
    notice. *)
Lemma Fetch_signer_change_forces_expiry_counterexample :
  let evs := [EvRootUpdate (clock 10 30 1) (Ok (any_IndexedCARoots (Some rootsR2)))
                           (drawn (19 * Second));
              EvRootUpdate (clock 10 30 5) (Ok (any_IndexedCARoots (Some rootsR3)))
                           (drawn (19 * Second));
              EvTimeout (clock 10 30 15)] in
  draws_ok leafDefault evs = true /\
  activeRootHasKey rootsR2 (authorityKeyID (stateR1 0)) = false /\
  activeRootHasKey rootsR3 (authorityKeyID (stateR1 0)) = false /\
  Fetch leafDefault extOk (optsS1 (10 * Second))
        (any_ConnectCALeafRequest (Some reqWeb))
        {[ 1%positive := stateR1 0 ]} (clock 10 30 0) (drawn (30 * Minute)) evs =
    Done retTwoNotices /\
  ret_err retTwoNotices = None /\
  ret_result retTwoNotices = lastS1 /\
  ret_heap retTwoNotices !! 1%positive = Some (stateR1 (clock 10 30 24)) /\
  jitterOf leafDefault = caChangeInitialJitter /\
  clock 10 30 1 + caChangeInitialJitter < forceExpireAfter (stateR1 (clock 10 30 24)).
Proof.
  cbv zeta. repeat split; vm_compute; reflexivity.
Qed.

(** C2 (defect in the source): the timer of the caller timeout is made anew
    by [time.After(opts.Timeout)] on every pass through the loop.  A call
    entered at 10:30:00 with a timeout of 30 s that is woken at 10:30:20 by a
    roots-change notice with an unchanged signer cannot take the timeout
    branch at 10:30:30; it takes it at 10:30:50, and then returns the
    pre-seeded result with a nil error. *)
Theorem Fetch_timeout_restarts_after_roots_notice :
  let fetch := Fetch leafDefault extOk (optsS1 (30 * Second))
                     (any_ConnectCALeafRequest (Some reqWeb))
                     {[ 1%positive := stateR1 0 ]} (clock 10 30 0) (drawn (30 * Minute)) in
  let notice := EvRootUpdate (clock 10 30 20) (Ok (any_IndexedCARoots (Some rootsR1))) (drawn 0) in
  fetch [EvTimeout (clock 10 30 30)] <> Infeasible /\
  fetch [notice; EvTimeout (clock 10 30 30)] = Infeasible /\
  fetch [notice; EvTimeout (clock 10 30 50)] = Done retLateTimeout /\
  ret_at retLateTimeout = clock 10 30 0 + 30 * Second + 20 * Second.
Proof.
  cbv zeta. split; [|split; [|split]].
  - vm_compute. discriminate.
  - vm_compute. reflexivity.
  - vm_compute. reflexivity.
  - vm_compute. reflexivity.
Qed.

(** X1: the timer of the caller timeout is made again at each pass of the
    loop.  After a roots-change notice that arrives strictly later than the
    start and shows the signer unchanged, the timeout branch cannot be taken
    at [now + opts.Timeout]; it is taken [opts.Timeout] after the notice, with
    the pre-seeded result. *)
Lemma Fetch_timeout_rearmed (c : ConnectCALeaf) (ext : externals) (opts : FetchOptions)
    (reqReal : option ConnectCALeafRequest) (existing : IssuedCert) (l : loc) (idx : Z)
    (s : fetchState) (h : heap) (now : Time) (stagger : Duration -> Duration)
    (w : Time) (get : errorOr any) (RandomStagger : Duration -> Duration)
    (roots : IndexedCARoots) :
  let result := {| Value := any_IssuedCert (Some existing);
                   State := any_fetchState (Some l);
                   Index := ModifyIndex existing |} in
  let fetch := Fetch c ext opts (any_ConnectCALeafRequest reqReal) h now stagger in
  LastResult opts =
    Some {| Value := any_IssuedCert (Some existing);
            State := any_fetchState (Some l); Index := idx |} ->
  h !! l = Some s ->
  now < entryExpiresAt now existing stagger s ->
  rootsFromCache get = (Some roots, None) ->
  activeRootHasKey roots (authorityKeyID s) = true ->
  now < w ->
  0 < Timeout opts ->
  fetch [EvRootUpdate w get RandomStagger; EvTimeout (now + Timeout opts)] = Infeasible /\
  fetch [EvRootUpdate w get RandomStagger; EvTimeout (w + Timeout opts)] =
    Done {| ret_result := result; ret_err := None; ret_heap := h;
            ret_exit := ExitTimeout; ret_at := w + Timeout opts;
            ret_wakes := 2; ret_registered := true |}.
Proof.
  intros result fetch Hlast Hl Hahead Hget Hkey Hw Ht. unfold fetch.
  rewrite !(Fetch_enters_loop _ _ _ _ _ _ _ _ _ _ _ _ Hlast Hl Hahead).
  cbn [waitLoop]. rewrite (proj2 (Z.leb_le now w) ltac:(lia)).
  rewrite (onRootUpdate_same_signer _ _ s _ _ _ _ _ _ roots Hl Hget Hkey).
  cbn [run_bind]. unfold timerFired.
  rewrite (proj2 (Z.leb_gt _ _)) by lia.
  rewrite (proj2 (Z.leb_le _ _)) by lia.
  split; reflexivity.
Qed.

(** X2: whenever [Fetch] leaves by the caller timeout, it returns the
    pre-seeded result (the prior cert, its [ModifyIndex], the prior state)
    with a nil error, and not before the timeout has elapsed: [opts.Timeout]
    has passed since the start of the call or since a roots-change notice
    received during it. *)
Lemma Fetch_exit_timeout_preseeded (c : ConnectCALeaf) (ext : externals)
    (opts : FetchOptions) (req : any) (h : heap) (now : Time) (stagger : Duration -> Duration)
    (evs : list selectEvent) (ret : fetchReturn) :
  Fetch c ext opts req h now stagger evs = Done ret ->
  ret_exit ret = ExitTimeout ->
  ret_err ret = None /\
  exists existing l idx,
    LastResult opts =
      Some {| Value := any_IssuedCert (Some existing);
              State := any_fetchState (Some l); Index := idx |} /\
    ret_result ret =
      {| Value := any_IssuedCert (Some existing);
         State := any_fetchState (Some l);
         Index := ModifyIndex existing |} /\
    exists t, now <= t /\ t + Z.max 0 (Timeout opts) <= ret_at ret /\
              (t = now \/ exists get RandomStagger, In (EvRootUpdate t get RandomStagger) evs).
Proof.
  intros H Hx.
  destruct (Fetch_loop_inv _ _ _ _ _ _ _ _ _ H (or_intror Hx))
    as (reqReal & existing & l & idx & s & eA & _ & Hlast & Hl & Hloop).
  destruct (waitLoop_exit_timeout _ _ _ _ _ _ _ _ _ _ _ _ Hloop Hx)
    as (Hr & He & t & Ht & Hfire & Hin).
  split; [exact He|]. exists existing, l, idx. repeat split; auto.
  exists t. auto.
Qed.

(** ** End-to-end scenarios *)

(** A cached cert valid 10:00 to 13:00, [now] = 10:30, a caller timeout of
    30 s and no other event: [Fetch] returns the cached cert with the same
    index and leaves the state as it was. *)
Example scenario_cached_cert_times_out :
  exists ret,
    Fetch leafDefault extOk (optsS1 (30 * Second))
          (any_ConnectCALeafRequest (Some reqWeb))
          {[ 1%positive := stateR1 0 ]} (clock 10 30 0) (drawn (30 * Minute))
          [EvTimeout (clock 10 30 30)] = Done ret /\
    ret_result ret = lastS1 /\ ret_err ret = None /\
    ret_heap ret = {[ 1%positive := stateR1 0 ]}.
Proof. eexists. split; [vm_compute; reflexivity|]. repeat split. Qed.

(** A cached cert that expired at 10:00, [now] = 10:01: [Fetch] generates at
    once and returns the new cert with index 42, the parsed authority key and
    no forced expiry. *)
Example scenario_expired_on_entry :
  exists ret,
    Fetch leafDefault extOk
          {| MinIndex := 5; Timeout := 30 * Second;
             LastResult := Some {| Value := any_IssuedCert (Some certExpired);
                                   State := any_fetchState (Some 1%positive);
                                   Index := 5 |} |}
          (any_ConnectCALeafRequest (Some reqWeb))
          {[ 1%positive := stateR1 0 ]} (clock 10 1 0) (drawn 0) [] = Done ret /\
    ret_exit ret = ExitExpired /\
    ret_result ret = {| Value := any_IssuedCert (Some certIssued);
                        State := any_fetchState (Some 1%positive);
                        Index := 42 |} /\
    ret_err ret = None /\
    ret_heap ret = {[ 1%positive := {| authorityKeyID := "R2"; forceExpireAfter := 0 |} ]}.
Proof. eexists. split; [vm_compute; reflexivity|]. repeat split. Qed.

(** A rotation to ["R2"] noticed at 10:30:05 with a test jitter of 10 s and a
    drawn delay of 4 s: the renewal cannot fire before 10:30:09, fires then,
    and [Fetch] returns the new cert. *)
Example scenario_rotation_mid_fetch :
  let fetch := Fetch leafTestJitter extOk (optsS1 (60 * Second))
                     (any_ConnectCALeafRequest (Some reqWeb))
                     {[ 1%positive := stateR1 0 ]} (clock 10 30 0) (drawn (30 * Minute)) in
  let notice := EvRootUpdate (clock 10 30 5) (Ok (any_IndexedCARoots (Some rootsR2)))
                             (drawn (4 * Second)) in
  fetch [notice; EvExpiry (clock 10 30 8)] = Infeasible /\
  exists ret,
    fetch [notice; EvExpiry (clock 10 30 9)] = Done ret /\
    ret_result ret = {| Value := any_IssuedCert (Some certIssued);
                        State := any_fetchState (Some 1%positive);
                        Index := 42 |} /\
    ret_err ret = None.
Proof.
  cbv zeta. split; [vm_compute; reflexivity|].
  eexists. split; [vm_compute; reflexivity|]. repeat split.
Qed.

(** A notice at 10:30:05 whose active root is still ["R1"]: the loop goes on
    without touching the state, and [Fetch] returns the cached cert when the
    caller timeout fires. *)
Example scenario_rotation_same_signer :
  exists ret,
    Fetch leafTestJitter extOk (optsS1 (60 * Second))
          (any_ConnectCALeafRequest (Some reqWeb))
          {[ 1%positive := stateR1 0 ]} (clock 10 30 0) (drawn (30 * Minute))
          [EvRootUpdate (clock 10 30 5) (Ok (any_IndexedCARoots (Some rootsR1)))
                        (drawn (4 * Second));
           EvTimeout (clock 10 31 5)] = Done ret /\
    ret_result ret = lastS1 /\ ret_err ret = None /\
    ret_heap ret = {[ 1%positive := stateR1 0 ]}.
Proof. eexists. split; [vm_compute; reflexivity|]. repeat split. Qed.

(** What the early reset in [generateNewLeaf] costs: the renewal forced by a
    rotation fails on a cert that does not parse, and the next [Fetch], handed
    the same cached value and state, waits out its timeout with no forced
    expiry left. *)
Example scenario_forced_expiry_forgotten :
  exists ret1 ret2,
    Fetch leafDefault extParseFails (optsS1 (60 * Second))
          (any_ConnectCALeafRequest (Some reqWeb))
          {[ 1%positive := stateR1 0 ]} (clock 10 30 0) (drawn (30 * Minute))
          [EvRootUpdate (clock 10 30 5) (Ok (any_IndexedCARoots (Some rootsR2)))
                        (drawn (4 * Second));
           EvExpiry (clock 10 30 9)] = Done ret1 /\
    ret_err ret1 = Some "x509: malformed certificate"%string /\
    Fetch leafDefault extOk (optsS1 (60 * Second))
          (any_ConnectCALeafRequest (Some reqWeb))
          (ret_heap ret1) (clock 10 30 10) (drawn (30 * Minute))
          [EvTimeout (clock 10 31 10)] = Done ret2 /\
    ret_result ret2 = lastS1 /\ ret_err ret2 = None /\
    ret_heap ret2 = {[ 1%positive := stateR1 0 ]}.
Proof.
  do 2 eexists. split; [vm_compute; reflexivity|]. split; [reflexivity|].
  split; [vm_compute; reflexivity|]. repeat split.
Qed.

(** ** The roots watcher: fan-out *)

Lemma trySend_spec (bufs : gmap positive nat) (ch : positive) :
  trySend bufs ch =
  if decide (default 0%nat (bufs !! ch) = 0%nat)
  then (<[ch := 1%nat]> bufs, true) else (bufs, false).
Proof.
  unfold trySend. destruct (default 0%nat (bufs !! ch)) as [|n]; reflexivity.
Qed.

Lemma notifyChans_spec (chs : list positive) (bufs : gmap positive nat) :
  NoDup chs ->
  snd (notifyChans chs bufs) =
    map (fun ch => (ch, bool_decide (default 0%nat (bufs !! ch) = 0%nat))) chs /\
  forall ch,
    fst (notifyChans chs bufs) !! ch =
    if decide (ch ∈ chs /\ default 0%nat (bufs !! ch) = 0%nat) then Some 1%nat
    else bufs !! ch.
Proof.
  induction 1 as [|a l Ha Hnd IH]; cbn [notifyChans foldr map].
  - split; [reflexivity|]. intros ch. case_decide as H; [|reflexivity].
    destruct H as [H _]. inversion H.
  - destruct IH as [IHs IHb]. fold (notifyChans l bufs).
    rewrite trySend_spec. rewrite (IHb a).
    rewrite (decide_False (P := a ∈ l /\ _)) by tauto.
    case_decide as Hempty; cbn [fst snd].
    + split.
      * rewrite IHs, bool_decide_eq_true_2 by assumption. reflexivity.
      * intros ch. destruct (decide (ch = a)) as [->|Hne].
        -- rewrite lookup_insert_eq, decide_True; [reflexivity|].
           split; [left|assumption].
        -- rewrite lookup_insert_ne by congruence. rewrite IHb.
           repeat case_decide; try reflexivity; exfalso.
           ++ destruct H as [H ?]. apply H0. split; [right; exact H|assumption].
           ++ destruct H0 as [H0 ?]. apply H. split; [|assumption].
              inversion H0; subst; [congruence|assumption].
    + split.
      * rewrite IHs, bool_decide_eq_false_2 by assumption. reflexivity.
      * intros ch. rewrite IHb.
        repeat case_decide; try reflexivity; exfalso.
        -- destruct H as [H ?]. apply H0. split; [right; exact H|assumption].
        -- destruct H0 as [H0 ?]. inversion H0; subst; [contradiction|].
           apply H. split; assumption.
Qed.

(** The fan-out attempts one send per subscriber: the item is taken by the
    channels whose buffer was empty and dropped for the others; no other
    channel is touched. *)
Lemma notifySubscribers_spec (subs : option (gset positive)) (bufs : gmap positive nat) :
  snd (notifySubscribers subs bufs) =
    map (fun ch => (ch, bool_decide (default 0%nat (bufs !! ch) = 0%nat)))
        (elements (default ∅ subs)) /\
  forall ch,
    fst (notifySubscribers subs bufs) !! ch =
    if decide (ch ∈ default ∅ subs /\ default 0%nat (bufs !! ch) = 0%nat) then Some 1%nat
    else bufs !! ch.
Proof.
  unfold notifySubscribers.
  destruct (notifyChans_spec (elements (default ∅ subs)) bufs (NoDup_elements _)) as [Hs Hb].
  split; [exact Hs|]. intros ch. rewrite Hb.
  repeat case_decide; try reflexivity; exfalso.
  - destruct H as [H ?]. apply H0. split; [apply elem_of_elements, H|assumption].
  - destruct H0 as [H0 ?]. apply H. split; [apply elem_of_elements, H0|assumption].
Qed.

(** C8: on an update event the watcher notifies only when the event carries
    no error and its active root differs from the one of the last snapshot
    (or there is no snapshot yet); it then attempts one non-blocking send per
    subscriber present, which fills the empty buffers and is dropped for the
    full ones, touches no other channel, and remembers the snapshot.  In every
    other case nothing is sent and nothing changes.  The pass never blocks. *)
Theorem rootWatcher_fan_out (subs : option (gset positive))
    (oldRoots : option IndexedCARoots) (e : cache.UpdateEvent)
    (bufs : gmap positive nat) :
  match onUpdateEvent subs oldRoots e bufs with
  | Done (oldRoots', bufs', sends) =>
      (cache.Err e = None /\
       cache.Result e = any_IndexedCARoots oldRoots' /\
       activeRootChanged oldRoots oldRoots' /\
       sends = map (fun ch => (ch, bool_decide (default 0%nat (bufs !! ch) = 0%nat)))
                   (elements (default ∅ subs)) /\
       forall ch,
         bufs' !! ch =
         if decide (ch ∈ default ∅ subs /\ default 0%nat (bufs !! ch) = 0%nat)
         then Some 1%nat else bufs !! ch)
      \/
      (oldRoots' = oldRoots /\ bufs' = bufs /\ sends = [] /\
       (cache.Err e <> None \/
        (forall roots, cache.Result e <> any_IndexedCARoots roots) \/
        exists old r, oldRoots = Some old /\
                      cache.Result e = any_IndexedCARoots (Some r) /\
                      ActiveRootID old = ActiveRootID r))
  | Panic =>
      cache.Err e = None /\ cache.Result e = any_IndexedCARoots None /\ oldRoots <> None
  | Blocked | Infeasible => False
  end.
Proof.
  unfold onUpdateEvent.
  destruct (cache.Err e) as [err|] eqn:Herr; cbn beta iota zeta.
  { right. repeat split; auto. }
  destruct (cache.Result e) as [| | |roots| |] eqn:Hres; cbn beta iota zeta;
    try (right; repeat split; auto; right; left; intros roots; discriminate).
  pose proof (notifySubscribers_spec subs bufs) as [Hs Hb].
  destruct oldRoots as [old|]; cbn [run_bind deref].
  - destruct roots as [r|]; cbn [run_bind deref].
    + destruct (String.eqb_spec (ActiveRootID old) (ActiveRootID r)) as [Heq|Hne];
        cbn beta iota zeta.
      * right. repeat split; auto. right; right. eauto.
      * destruct (notifySubscribers subs bufs) as [bufs' sends]. cbn [fst snd] in *.
        left. repeat split; auto. cbn. eauto.
    + repeat split; auto.
  - destruct (notifySubscribers subs bufs) as [bufs' sends]. cbn [fst snd] in *.
    left. repeat split; auto.
Qed.

Example rootWatcher_fan_out_example :
  onUpdateEvent (Some {[ 1%positive; 2%positive ]}) (Some rootsR1)
                {| cache.Result := any_IndexedCARoots (Some rootsR2); cache.Err := None |}
                {[ 1%positive := 1%nat ]} =
  Done (Some rootsR2, {[ 1%positive := 1%nat; 2%positive := 1%nat ]},
        [(2%positive, true); (1%positive, false)]).
Proof. vm_compute. reflexivity. Qed.

(** ** The roots watcher: life cycle *)

(** [rootWatchCancel] is set by the first [fetchStart] and never reset:
    whatever the steps, at most one watcher goroutine is ever started. *)
Lemma watchStep_cancel_inv (op : watchOp) (c c' : ConnectCALeaf) (rt rt' : runtime) :
  watchStep op (c, rt) = Done (c', rt') ->
  (rootWatchCancel c = None /\ contexts rt = 0%nat) \/
  (rootWatchCancel c = Some 0%nat /\ contexts rt = 1%nat) ->
  (rootWatchCancel c' = None /\ contexts rt' = 0%nat) \/
  (rootWatchCancel c' = Some 0%nat /\ contexts rt' = 1%nat).
Proof.
  intros H Hinv. destruct op as [ch|ch|ctx err|ctx|ctx e]; cbn in H.
  - inversion H as [H1]; clear H.
    destruct Hinv as [[Hc Hn]|[Hc Hn]]; rewrite Hc in H1; inversion H1; subst; clear H1;
      cbn; rewrite ?Hn; auto.
  - revert H. destruct (rootWatchCancel c) as [ctx|] eqn:Hc; cbn.
    + case_decide; intros Hx; inversion Hx; subst; clear Hx; cbn;
        destruct Hinv as [[? ?]|[? ?]]; try discriminate; auto.
    + intros Hx; inversion Hx; subst; clear Hx. cbn.
      destruct Hinv as [[? ?]|[? ?]]; try discriminate; auto.
  - destruct (watchers rt !! ctx) as [[| |]|]; try discriminate.
    inversion H; subst; clear H. exact Hinv.
  - destruct (watchers rt !! ctx) as [[| |]|]; try discriminate.
    case_decide; try discriminate. inversion H; subst; clear H. exact Hinv.
  - destruct (watchers rt !! ctx) as [[|old|]|]; try discriminate.
    destruct (onUpdateEvent _ _ _ _) as [[[old' bufs'] sends]| | |]; try discriminate.
    cbn in H. inversion H; subst; clear H. exact Hinv.
Qed.

(** X3: in every run from a fresh [ConnectCALeaf], [ensureRootWatcher]
    makes at most one context, and so starts at most one watcher goroutine. *)
Lemma watchSteps_at_most_one_watcher (ops : list watchOp) (c : ConnectCALeaf) (rt : runtime) :
  watchSteps ops (leafDefault, runtime0) = Done (c, rt) ->
  (contexts rt <= 1)%nat.
Proof.
  assert (Hgen : forall ops c0 rt0,
             (rootWatchCancel c0 = None /\ contexts rt0 = 0%nat) \/
             (rootWatchCancel c0 = Some 0%nat /\ contexts rt0 = 1%nat) ->
             watchSteps ops (c0, rt0) = Done (c, rt) -> (contexts rt <= 1)%nat).
  { clear ops. induction ops as [|op ops IH]; intros c0 rt0 Hinv H; cbn [watchSteps] in H.
    - inversion H; subst; clear H. destruct Hinv as [[_ ->]|[_ ->]]; lia.
    - destruct (watchStep op (c0, rt0)) as [[c1 rt1]| | |] eqn:Hstep; try discriminate.
      cbn [run_bind] in H. eapply IH; [|exact H].
      eapply watchStep_cancel_inv; eauto. }
  apply Hgen. left. split; reflexivity.
Qed.

(** The first registration starts a watcher, and the last deregistration
    cancels it. *)
Lemma first_fetchStart_starts_watcher :
  exists c rt,
    watchSteps [OpFetchStart 1] (leafDefault, runtime0) = Done (c, rt) /\
    subscribers c = {[ 1%positive ]} /\ liveWatchers rt = [0%nat].
Proof. do 2 eexists. split; [reflexivity|]. split; vm_compute; reflexivity. Qed.

Lemma last_fetchDone_cancels_watcher :
  exists c rt,
    watchSteps [OpFetchStart 1; OpFetchDone 1] (leafDefault, runtime0) = Done (c, rt) /\
    subscribers c = ∅ /\ liveWatchers rt = [] /\ cancelled rt = {[ 0%nat ]}.
Proof. do 2 eexists. split; [reflexivity|]. repeat split; vm_compute; reflexivity. Qed.

(** One half of the invariant does hold on every run: a watcher is live only
    while the subscriber set is non-empty. *)
Lemma watchStep_live_inv (op : watchOp) (c c' : ConnectCALeaf) (rt rt' : runtime) :
  watchStep op (c, rt) = Done (c', rt') ->
  (rootWatchCancel c = None /\ contexts rt = 0%nat) \/
  (rootWatchCancel c = Some 0%nat /\ contexts rt = 1%nat /\
   (subscribers c = ∅ -> 0%nat ∈ cancelled rt)) ->
  (rootWatchCancel c' = None /\ contexts rt' = 0%nat) \/
  (rootWatchCancel c' = Some 0%nat /\ contexts rt' = 1%nat /\
   (subscribers c' = ∅ -> 0%nat ∈ cancelled rt')).
Proof.
  intros H Hinv. destruct op as [ch|ch|ctx err|ctx|ctx e]; cbn in H.
  - inversion H as [H1]; clear H. right.
    destruct Hinv as [[Hc Hn]|(Hc & Hn & _)]; rewrite Hc in H1; inversion H1; subst; clear H1;
      cbn; rewrite ?Hn; (split; [reflexivity|]); (split; [reflexivity|]);
      unfold subscribers; cbn; intros Hempty; exfalso; set_solver.
  - revert H. destruct (rootWatchCancel c) as [ctx|] eqn:Hc; cbn.
    + case_decide as Hsize; intros Hx; inversion Hx; subst; clear Hx; cbn;
        destruct Hinv as [[? ?]|(Hc0 & Hn & Himp)]; try discriminate;
        right; (split; [assumption|]); (split; [assumption|]).
      * intros _. injection Hc0 as ->. set_solver.
      * unfold subscribers. cbn. intros Hempty. exfalso. apply Hsize.
        rewrite Hempty. apply size_empty.
    + intros Hx; inversion Hx; subst; clear Hx. cbn.
      destruct Hinv as [[? ?]|(? & ? & ?)]; try discriminate; auto.
  - destruct (watchers rt !! ctx) as [[| |]|]; try discriminate.
    inversion H; subst; clear H. exact Hinv.
  - destruct (watchers rt !! ctx) as [[| |]|]; try discriminate.
    case_decide; try discriminate. inversion H; subst; clear H. exact Hinv.
  - destruct (watchers rt !! ctx) as [[|old|]|]; try discriminate.
    destruct (onUpdateEvent _ _ _ _) as [[[old' bufs'] sends]| | |]; try discriminate.
    cbn in H. inversion H; subst; clear H. exact Hinv.
Qed.

(** X4: in every run from a fresh [ConnectCALeaf], a watcher is live only
    while the subscriber set is not empty. *)
Lemma live_watcher_has_subscribers (ops : list watchOp) (c : ConnectCALeaf) (rt : runtime) :
  watchSteps ops (leafDefault, runtime0) = Done (c, rt) ->
  liveWatchers rt <> [] -> subscribers c <> ∅.
Proof.
  assert (Hgen : forall ops c0 rt0,
             (rootWatchCancel c0 = None /\ contexts rt0 = 0%nat) \/
             (rootWatchCancel c0 = Some 0%nat /\ contexts rt0 = 1%nat /\
              (subscribers c0 = ∅ -> 0%nat ∈ cancelled rt0)) ->
             watchSteps ops (c0, rt0) = Done (c, rt) ->
             liveWatchers rt <> [] -> subscribers c <> ∅).
  { clear ops. induction ops as [|op ops IH]; intros c0 rt0 Hinv H; cbn [watchSteps] in H.
    - inversion H; subst; clear H. intros Hlive Hempty. apply Hlive.
      unfold liveWatchers.
      destruct Hinv as [[_ Hn]|(_ & Hn & Himp)]; rewrite Hn; cbn; [reflexivity|].
      unfold isLive. specialize (Himp Hempty).
      destruct (watchers rt !! 0%nat) as [[| |]|];
        rewrite ?bool_decide_eq_false_2 by (intros Hn0; apply Hn0, Himp);
        rewrite ?decide_False by discriminate; reflexivity.
    - destruct (watchStep op (c0, rt0)) as [[c1 rt1]| | |] eqn:Hstep; try discriminate.
      cbn [run_bind] in H. eapply IH; [|exact H].
      eapply watchStep_live_inv; eauto. }
  apply Hgen. left. split; reflexivity.
Qed.

(** C1 (defect in the source): [fetchDone] calls [rootWatchCancel] but leaves
    the field set, so [ensureRootWatcher] never starts a watcher again.
    After the subscriber set has drained and a new [Fetch] registers, the
    set is non-empty and no watcher is live; the same holds when the watcher
    had exited because [c.Cache.Notify] failed. *)
Theorem watcher_not_restarted_after_drain :
  (exists c rt,
      watchSteps [OpFetchStart 1; OpFetchDone 1; OpFetchStart 2]
                 (leafDefault, runtime0) = Done (c, rt) /\
      subscribers c = {[ 2%positive ]} /\ liveWatchers rt = [] /\
      contexts rt = 1%nat) /\
  (exists c rt,
      watchSteps [OpFetchStart 1; OpNotifyReturned 0 (Some "notify failed"%string);
                  OpFetchDone 1; OpFetchStart 2]
                 (leafDefault, runtime0) = Done (c, rt) /\
      subscribers c = {[ 2%positive ]} /\ liveWatchers rt = [] /\
      contexts rt = 1%nat).
Proof.
  split; do 2 eexists; (split; [reflexivity|]); repeat split; vm_compute; reflexivity.
Qed.

(** * Further properties of the cache type *)

(** ** Roots *)

(** X5: [activeRootHasKey] looks at the first root marked active, in the
    order of [roots.Roots], and at no other: it answers true exactly when
    that root exists and its [SigningKeyID] is the given key. *)
Theorem activeRootHasKey_first_active (roots : IndexedCARoots) (key : string) :
  activeRootHasKey roots key = true <->
  exists pre ca post,
    Roots roots = pre ++ ca :: post /\
    Forall (fun x => Active x = false) pre /\
    Active ca = true /\ SigningKeyID ca = key.
Proof.
  unfold activeRootHasKey. generalize (Roots roots) as l. clear roots.
  induction l as [|x l IH]; cbn [activeRootHasKey_loop].
  - split; [discriminate|]. intros (pre & ca & post & H & _). destruct pre; discriminate.
  - destruct (Active x) eqn:Hx.
    + destruct (String.eqb_spec (SigningKeyID x) key) as [Hk|Hk].
      * split; [|reflexivity]. intros _. exists [], x, l. repeat split; auto.
      * split; [discriminate|]. intros (pre & ca & post & H & Hpre & Hca & Hkey).
        destruct pre as [|y pre]; cbn in H; injection H as -> ->.
        -- contradiction.
        -- inversion Hpre; subst. congruence.
    + rewrite IH. split.
      * intros (pre & ca & post & -> & Hpre & Hca & Hkey).
        exists (x :: pre), ca, post. repeat split; auto.
      * intros (pre & ca & post & H & Hpre & Hca & Hkey).
        destruct pre as [|y pre]; cbn in H; injection H as -> ->.
        -- congruence.
        -- inversion Hpre; subst. exists pre, ca, post. repeat split; auto.
Qed.

(** ** The leaf generator *)

(** A nil error from [generateNewLeaf]: every step succeeded. *)
Lemma generateNewLeaf_success_inv (ext : externals) (req : option ConnectCALeafRequest)
    (state : option loc) (h h' : heap) (res : FetchResult) :
  generateNewLeaf ext req state h = Done (h', (res, None)) ->
  exists roots r l s pk pkPEM csr reply cert,
    Cache_Get ext = Ok (any_IndexedCARoots (Some roots)) /\
    TrustDomain roots <> ""%string /\
    req = Some r /\ state = Some l /\ h !! l = Some s /\
    GeneratePrivateKey ext = Ok (pk, pkPEM) /\
    CreateCSR ext {| connect.Host := TrustDomain roots;
                     connect.Datacenter := Datacenter r;
                     connect.Namespace := "default";
                     connect.Service := Service r |} pk = Ok csr /\
    RPC_Sign ext {| structs.Token := Token r;
                    structs.Datacenter := Datacenter r;
                    structs.CSR := csr |} = Ok reply /\
    ParseCert ext (CertPEM reply) = Ok cert /\
    res = {| Value := any_IssuedCert
                        (Some {| CertPEM := CertPEM reply;
                                 PrivateKeyPEM := pkPEM;
                                 ValidAfter := ValidAfter reply;
                                 ValidBefore := ValidBefore reply;
                                 ModifyIndex := ModifyIndex reply |});
             State := any_fetchState (Some l);
             Index := ModifyIndex reply |} /\
    h' = <[l := {| authorityKeyID := HexString ext (connect.AuthorityKeyId cert);
                   forceExpireAfter := 0 |}]> h.
Proof.
  unfold generateNewLeaf, rootsFromCache, store_forceExpireAfter, store_authorityKeyID,
    deref, run_bind.
  intros H.
  destruct (Cache_Get ext) as [[| | |[roots|]| |]|e] eqn:Hget; try discriminate.
  destruct (String.eqb_spec (TrustDomain roots) "") as [Htd|Htd]; [discriminate|].
  destruct req as [r|]; [|discriminate].
  destruct (GeneratePrivateKey ext) as [[pk pkPEM]|e] eqn:Hpk; [|discriminate].
  destruct (CreateCSR ext _ pk) as [csr|e] eqn:Hcsr; [|discriminate].
  destruct (RPC_Sign ext _) as [reply|e] eqn:Hsign; [|discriminate].
  destruct state as [l|]; [|discriminate].
  destruct (h !! l) as [s|] eqn:Hl; [|discriminate].
  cbn [CertPEM] in H.
  destruct (ParseCert ext (CertPEM reply)) as [cert|e] eqn:Hparse; [|discriminate].
  rewrite lookup_insert_eq in H. cbn [forceExpireAfter authorityKeyID ModifyIndex] in H.
  rewrite insert_insert_eq in H.
  inversion H; subst; clear H.
  exists roots, r, l, s, pk, pkPEM, csr, reply, cert. repeat split; auto.
Qed.

(** X6: [generateNewLeaf] returns a nil error exactly when every step
    succeeded: the roots cache holds roots with a trust domain, a key was
    generated, the CSR was built for the service of the request in that trust
    domain (namespace ["default"]) and signed with the token of the request,
    and the signed cert parsed.  It then returns the signed cert with the new
    private key attached and its [ModifyIndex] as index, the state pointer it
    was given, and a store in which that state alone has changed: it holds
    the authority key of the new cert and no forced expiry. *)
Theorem generateNewLeaf_success_iff (ext : externals) (req : option ConnectCALeafRequest)
    (state : option loc) (h h' : heap) (res : FetchResult) :
  generateNewLeaf ext req state h = Done (h', (res, None)) <->
  exists roots r l s pk pkPEM csr reply cert,
    Cache_Get ext = Ok (any_IndexedCARoots (Some roots)) /\
    TrustDomain roots <> ""%string /\
    req = Some r /\ state = Some l /\ h !! l = Some s /\
    GeneratePrivateKey ext = Ok (pk, pkPEM) /\
    CreateCSR ext {| connect.Host := TrustDomain roots;
                     connect.Datacenter := Datacenter r;
                     connect.Namespace := "default";
                     connect.Service := Service r |} pk = Ok csr /\
    RPC_Sign ext {| structs.Token := Token r;
                    structs.Datacenter := Datacenter r;
                    structs.CSR := csr |} = Ok reply /\
    ParseCert ext (CertPEM reply) = Ok cert /\
    res = {| Value := any_IssuedCert
                        (Some {| CertPEM := CertPEM reply;
                                 PrivateKeyPEM := pkPEM;
                                 ValidAfter := ValidAfter reply;
                                 ValidBefore := ValidBefore reply;
                                 ModifyIndex := ModifyIndex reply |});
             State := any_fetchState (Some l);
             Index := ModifyIndex reply |} /\
    h' = <[l := {| authorityKeyID := HexString ext (connect.AuthorityKeyId cert);
                   forceExpireAfter := 0 |}]> h.
Proof.
  split; [apply generateNewLeaf_success_inv|].
  intros (roots & r & l & s & pk & pkPEM & csr & reply & cert & Hget & Htd & -> & -> & Hl
          & Hpk & Hcsr & Hsign & Hparse & -> & ->).
  unfold generateNewLeaf, rootsFromCache, store_forceExpireAfter, store_authorityKeyID,
    deref, run_bind.
  rewrite Hget. apply String.eqb_neq in Htd. rewrite Htd, Hpk, Hcsr, Hsign, Hl.
  cbn [CertPEM]. rewrite Hparse, lookup_insert_eq.
  cbn [forceExpireAfter authorityKeyID ModifyIndex]. rewrite insert_insert_eq.
  reflexivity.
Qed.

(** X7: with every state pointer allocated, [generateNewLeaf] panics in
    exactly three cases: the roots cache answers a nil [*IndexedCARoots]; the
    request pointer is nil and the roots have a trust domain; or the state
    pointer is nil and the signing succeeded. *)
Theorem generateNewLeaf_panics_iff (ext : externals) (req : option ConnectCALeafRequest)
    (state : option loc) (h : heap) :
  (forall l, state = Some l -> is_Some (h !! l)) ->
  generateNewLeaf ext req state h = Panic <->
  Cache_Get ext = Ok (any_IndexedCARoots None) \/
  exists roots,
    Cache_Get ext = Ok (any_IndexedCARoots (Some roots)) /\
    TrustDomain roots <> ""%string /\
    (req = None \/
     exists r pk pkPEM csr reply,
       req = Some r /\ state = None /\
       GeneratePrivateKey ext = Ok (pk, pkPEM) /\
       CreateCSR ext {| connect.Host := TrustDomain roots;
                        connect.Datacenter := Datacenter r;
                        connect.Namespace := "default";
                        connect.Service := Service r |} pk = Ok csr /\
       RPC_Sign ext {| structs.Token := Token r;
                       structs.Datacenter := Datacenter r;
                       structs.CSR := csr |} = Ok reply).
Proof.
  intros Halloc.
  unfold generateNewLeaf, rootsFromCache, store_forceExpireAfter, store_authorityKeyID,
    deref, run_bind.
  destruct (Cache_Get ext) as [[| | |[roots|]| |]|e] eqn:Hget;
    try (split; [discriminate|intros [H|(roots' & H & _)]; discriminate]).
  2: { split; [auto|reflexivity]. }
  destruct (String.eqb_spec (TrustDomain roots) "") as [Htd|Htd].
  { split; [discriminate|]. intros [H|(roots' & H & Htd' & _)]; [discriminate|].
    injection H as <-. contradiction. }
  destruct req as [r|].
  2: { split; [|reflexivity]. intros _. right. exists roots. auto. }
  destruct (GeneratePrivateKey ext) as [[pk pkPEM]|e] eqn:Hpk.
  2: { split; [discriminate|].
       intros [H|(roots' & _ & _ & [H|(r' & pk & pkPEM & csr & reply & _ & _ & H & _)])];
         discriminate. }
  destruct (CreateCSR ext _ pk) as [csr|e] eqn:Hcsr.
  2: { split; [discriminate|].
       intros [H|(roots' & H & _ &
                  [H'|(r' & pk' & pkPEM' & csr & reply & Hr & _ & Hpk' & Hc & _)])];
         try discriminate.
       injection H as <-. injection Hr as <-. injection Hpk' as <- <-.
       rewrite Hcsr in Hc. discriminate. }
  destruct (RPC_Sign ext _) as [reply|e] eqn:Hsign.
  2: { split; [discriminate|].
       intros [H|(roots' & H & _ &
                  [H'|(r' & pk' & pkPEM' & csr' & reply & Hr & _ & Hpk' & Hc & Hs)])];
         try discriminate.
       injection H as <-. injection Hr as <-. injection Hpk' as <- <-.
       rewrite Hcsr in Hc. injection Hc as <-. rewrite Hsign in Hs. discriminate. }
  destruct state as [l|].
  - destruct (Halloc l eq_refl) as [s Hl]. rewrite Hl. cbn [CertPEM].
    split.
    + destruct (ParseCert ext (CertPEM reply)); [|discriminate].
      rewrite lookup_insert_eq. discriminate.
    + intros [H|(roots' & _ & _ & [H|(r' & pk' & pkPEM' & csr' & reply' & _ & H & _)])];
        discriminate.
  - split; [|reflexivity]. intros _. right. exists roots. split; [reflexivity|].
    split; [assumption|]. right. exists r, pk, pkPEM, csr, reply. auto.
Qed.

(** A nil state pointer, as passed on by [Fetch] when the cached state is a
    nil [*fetchState]: the call panics once the cert is signed. *)
Lemma generateNewLeaf_panics_iff_witness :
  (forall l : loc, (None : option loc) = Some l ->
                   is_Some (({[ 1%positive := stateR1 0 ]} : heap) !! l)) /\
  generateNewLeaf extOk (Some reqWeb) None {[ 1%positive := stateR1 0 ]} = Panic.
Proof.
  assert (H : forall l : loc, (None : option loc) = Some l ->
                              is_Some (({[ 1%positive := stateR1 0 ]} : heap) !! l))
    by (intros l Hl; discriminate).
  split; [exact H|].
  apply (proj2 (generateNewLeaf_panics_iff extOk (Some reqWeb) None _ H)).
  right. exists rootsR2. split; [reflexivity|]. split; [discriminate|].
  right. exists reqWeb, "pk-2"%string, "key-2"%string, "csr-2"%string, certNew.
  repeat split.
Defined.


(** ** The renewal window, without preconditions *)

(** X8: whatever the instant and the cert, the window returned by
    [calculateSoftExpiry] does not start in the past, is not empty, and ends
    at [now] or within the validity of the cert. *)
Theorem calculateSoftExpiry_window_ahead (now : Time) (cert : IssuedCert) :
  now <= fst (calculateSoftExpiry now cert) /\
  fst (calculateSoftExpiry now cert) <= snd (calculateSoftExpiry now cert) /\
  snd (calculateSoftExpiry now cert) <= Z.max now (ValidBefore cert).
Proof.
  unfold calculateSoftExpiry. rewrite calculateSoftExpiry_at_cases.
  pose proof (Time_Sub_bounds (ValidBefore cert) (ValidAfter cert)) as HB.
  assert (HL : 0 < Time_Sub (ValidBefore cert) (ValidAfter cert) ->
               Time_Sub (ValidBefore cert) (ValidAfter cert)
               <= ValidBefore cert - ValidAfter cert)
    by (unfold Time_Sub, minInt64, maxInt64; lia).
  set (L := Time_Sub (ValidBefore cert) (ValidAfter cert)) in *.
  destruct (Z.ltb_spec L (10 * Minute)) as [Hshort|Hlong]; cbn [fst snd]; [lia|].
  destruct (marks_ordered L ltac:(lia)) as [H69 H9L].
  assert (0 < L) by (unfold Minute, Second, Nanosecond in Hlong; lia).
  destruct (Z.ltb_spec (ValidAfter cert + scaleDuration Float64.c0_9 L) now);
    cbn [fst snd]; lia.
Qed.

(** X9: for a cert that has expired, and for one valid for less than ten
    minutes, [calculateSoftExpiry] returns [(now, now)]: renew now. *)
Theorem calculateSoftExpiry_expired_or_short (now : Time) (cert : IssuedCert) :
  ValidBefore cert < now \/ ValidBefore cert - ValidAfter cert < 10 * Minute ->
  calculateSoftExpiry now cert = (now, now).
Proof.
  intros H. unfold calculateSoftExpiry. rewrite calculateSoftExpiry_at_cases.
  pose proof (Time_Sub_bounds (ValidBefore cert) (ValidAfter cert)) as HB.
  assert (HL : 0 < Time_Sub (ValidBefore cert) (ValidAfter cert) ->
               Time_Sub (ValidBefore cert) (ValidAfter cert)
               <= ValidBefore cert - ValidAfter cert)
    by (unfold Time_Sub, minInt64, maxInt64; lia).
  assert (HS : ValidBefore cert - ValidAfter cert < 10 * Minute ->
               Time_Sub (ValidBefore cert) (ValidAfter cert) < 10 * Minute)
    by (unfold Time_Sub, minInt64, maxInt64, Minute, Second, Nanosecond; lia).
  set (L := Time_Sub (ValidBefore cert) (ValidAfter cert)) in *.
  destruct (Z.ltb_spec L (10 * Minute)) as [Hshort|Hlong]; [reflexivity|].
  destruct H as [H|H]; [|lia].
  destruct (marks_ordered L ltac:(lia)) as [H69 H9L].
  assert (0 < L) by (unfold Minute, Second, Nanosecond in Hlong; lia).
  destruct (Z.ltb_spec (ValidAfter cert + scaleDuration Float64.c0_9 L) now);
    [reflexivity|lia].
Qed.

(** The cert that ran from 07:00 to 10:00, at 10:01. *)
Lemma calculateSoftExpiry_expired_or_short_witness :
  (ValidBefore certExpired < clock 10 1 0 \/
   ValidBefore certExpired - ValidAfter certExpired < 10 * Minute) /\
  calculateSoftExpiry (clock 10 1 0) certExpired = (clock 10 1 0, clock 10 1 0).
Proof.
  assert (H : ValidBefore certExpired < clock 10 1 0 \/
              ValidBefore certExpired - ValidAfter certExpired < 10 * Minute)
    by (left; vm_compute; reflexivity).
  split; [exact H|]. exact (calculateSoftExpiry_expired_or_short _ _ H).
Defined.

(** ** [Fetch]: entry *)

(** A call whose target expiry is not ahead of [now] generates at once. *)
Lemma Fetch_expired_on_entry (c : ConnectCALeaf) (ext : externals) (opts : FetchOptions)
    (reqReal : option ConnectCALeafRequest) (existing : IssuedCert) (l : loc) (idx : Z)
    (s : fetchState) (h : heap) (now : Time) (stagger : Duration -> Duration)
    (evs : list selectEvent) :
  LastResult opts =
    Some {| Value := any_IssuedCert (Some existing);
            State := any_fetchState (Some l); Index := idx |} ->
  h !! l = Some s ->
  entryExpiresAt now existing stagger s <= now ->
  Fetch c ext opts (any_ConnectCALeafRequest reqReal) h now stagger evs =
  (r <- generateNewLeaf ext reqReal (Some l) h ;;
   Done {| ret_result := fst (snd r); ret_err := snd (snd r); ret_heap := fst r;
           ret_exit := ExitExpired; ret_at := now; ret_wakes := 0;
           ret_registered := true |}).
Proof.
  intros Hlast Hl Hdue. unfold Fetch. rewrite Hlast. cbn [Value State].
  unfold entryExpiresAt in *.
  destruct (calculateSoftExpiry now existing) as [minExpire maxExpire].
  unfold load, deref. cbn [run_bind]. rewrite Hl. cbn [run_bind].
  set (expiresAt := if _ && _ then _ else _) in *.
  replace ((expiresAt =? now) || Time_Before expiresAt now) with true; [reflexivity|].
  symmetry. apply orb_true_iff. unfold Time_Before.
  destruct (Z.eq_dec expiresAt now) as [->|Hne];
    [left; apply Z.eqb_refl|right; apply Z.ltb_lt; lia].
Qed.

Lemma calculateSoftExpiry_min_le_max (now : Time) (cert : IssuedCert) :
  fst (calculateSoftExpiry now cert) <= snd (calculateSoftExpiry now cert).
Proof.
  unfold calculateSoftExpiry. rewrite calculateSoftExpiry_at_cases.
  pose proof (Time_Sub_bounds (ValidBefore cert) (ValidAfter cert)) as HB.
  set (L := Time_Sub (ValidBefore cert) (ValidAfter cert)) in *.
  destruct (Z.ltb_spec L (10 * Minute)) as [Hshort|Hlong]; cbn [fst snd]; [lia|].
  destruct (marks_ordered L ltac:(lia)) as [H69 H9L].
  destruct (Z.ltb_spec (ValidAfter cert + scaleDuration Float64.c0_9 L) now);
    cbn [fst snd]; lia.
Qed.

(** With no forced expiry in the state and a stagger drawn within its
    interval, the target expiry lies within the renewal window. *)
Lemma entryExpiresAt_in_window (now : Time) (existing : IssuedCert)
    (stagger : Duration -> Duration) (s : fetchState) :
  forceExpireAfter s = 0 ->
  staggerInRange stagger
    (Time_Sub (snd (calculateSoftExpiry now existing))
              (fst (calculateSoftExpiry now existing))) = true ->
  fst (calculateSoftExpiry now existing) <= entryExpiresAt now existing stagger s
  <= snd (calculateSoftExpiry now existing).
Proof.
  intros Hf Hr. unfold entryExpiresAt.
  pose proof (calculateSoftExpiry_min_le_max now existing) as Hmm.
  destruct (calculateSoftExpiry now existing) as [mn mx]. cbn [fst snd] in *.
  rewrite Hf. cbn [Time_IsZero Z.eqb negb andb].
  unfold staggerInRange in Hr. apply andb_true_iff in Hr as [H0 H1].
  apply Z.leb_le in H0, H1.
  pose proof (Time_Sub_le mx mn Hmm). unfold Time_Add. lia.
Qed.

(** X10: when the renewal window is [(now, now)] (a cert that is expired,
    past its 90% mark or valid for less than ten minutes), [Fetch] does not
    wait: it calls [generateNewLeaf] at once, with the cached state, and
    returns what that returns. *)
Theorem Fetch_renews_at_once (c : ConnectCALeaf) (ext : externals) (opts : FetchOptions)
    (reqReal : option ConnectCALeafRequest) (existing : IssuedCert) (l : loc) (idx : Z)
    (s : fetchState) (h : heap) (now : Time) (stagger : Duration -> Duration)
    (evs : list selectEvent) :
  LastResult opts =
    Some {| Value := any_IssuedCert (Some existing);
            State := any_fetchState (Some l); Index := idx |} ->
  h !! l = Some s ->
  calculateSoftExpiry now existing = (now, now) ->
  staggerInRange stagger 0 = true ->
  Fetch c ext opts (any_ConnectCALeafRequest reqReal) h now stagger evs =
  (r <- generateNewLeaf ext reqReal (Some l) h ;;
   Done {| ret_result := fst (snd r); ret_err := snd (snd r); ret_heap := fst r;
           ret_exit := ExitExpired; ret_at := now; ret_wakes := 0;
           ret_registered := true |}).
Proof.
  intros Hlast Hl Hwin Hr. apply (Fetch_expired_on_entry _ _ _ _ _ _ _ _ _ _ _ _ Hlast Hl).
  unfold entryExpiresAt. rewrite Hwin.
  replace (Time_Sub now now) with 0 by (unfold Time_Sub, minInt64, maxInt64; lia).
  unfold staggerInRange in Hr. apply andb_true_iff in Hr as [H0 H1].
  apply Z.leb_le in H0, H1. unfold Time_Add, Time_Before.
  destruct (_ && _) eqn:Hforce; [|lia].
  apply andb_true_iff in Hforce as [_ Hforce]. apply Z.ltb_lt in Hforce. lia.
Qed.

(** The cert that ran from 07:00 to 10:00, fetched at 10:01. *)
Lemma Fetch_renews_at_once_witness :
  calculateSoftExpiry (clock 10 1 0) certExpired = (clock 10 1 0, clock 10 1 0) /\
  staggerInRange (drawn 0) 0 = true /\
  Fetch leafDefault extOk
        {| MinIndex := 5; Timeout := 30 * Second;
           LastResult := Some {| Value := any_IssuedCert (Some certExpired);
                                 State := any_fetchState (Some 1%positive);
                                 Index := 5 |} |}
        (any_ConnectCALeafRequest (Some reqWeb))
        {[ 1%positive := stateR1 0 ]} (clock 10 1 0) (drawn 0)
        [EvTimeout (clock 10 1 30)] =
  Done {| ret_result := {| Value := any_IssuedCert (Some certIssued);
                           State := any_fetchState (Some 1%positive);
                           Index := 42 |};
          ret_err := None;
          ret_heap := {[ 1%positive := {| authorityKeyID := "R2"; forceExpireAfter := 0 |} ]};
          ret_exit := ExitExpired; ret_at := clock 10 1 0; ret_wakes := 0;
          ret_registered := true |}.
Proof.
  assert (H1 : calculateSoftExpiry (clock 10 1 0) certExpired = (clock 10 1 0, clock 10 1 0))
    by (vm_compute; reflexivity).
  assert (H2 : staggerInRange (drawn 0) 0 = true) by reflexivity.
  assert (Hl : ({[ 1%positive := stateR1 0 ]} : heap) !! 1%positive = Some (stateR1 0))
    by reflexivity.
  split; [exact H1|]. split; [exact H2|].
  rewrite (Fetch_renews_at_once leafDefault extOk
             {| MinIndex := 5; Timeout := 30 * Second;
                LastResult := Some {| Value := any_IssuedCert (Some certExpired);
                                      State := any_fetchState (Some 1%positive);
                                      Index := 5 |} |}
             (Some reqWeb) certExpired 1%positive 5
             (stateR1 0) {[ 1%positive := stateR1 0 ]} (clock 10 1 0) (drawn 0)
             [EvTimeout (clock 10 1 30)] eq_refl Hl H1 H2).
  vm_compute. reflexivity.
Defined.

(** X11: a forced expiry left in the cached state by an earlier call is
    honoured by the next one.  The target expiry of the call is at most
    [forceExpireAfter]; if that instant has passed on entry, [Fetch] calls
    [generateNewLeaf] at once; otherwise the expiry branch of the [select]
    can be taken at every instant from [forceExpireAfter] on, and calls
    [generateNewLeaf]. *)
Theorem Fetch_honours_pending_forced_expiry
    (c : ConnectCALeaf) (ext : externals) (opts : FetchOptions)
    (reqReal : option ConnectCALeafRequest) (existing : IssuedCert) (l : loc) (idx : Z)
    (s : fetchState) (h : heap) (now : Time) (stagger : Duration -> Duration) :
  let fetch := Fetch c ext opts (any_ConnectCALeafRequest reqReal) h now stagger in
  let renewed (ex : fetchExit) (at_ : Time) (wakes : nat) : run fetchReturn :=
    r <- generateNewLeaf ext reqReal (Some l) h ;;
    Done {| ret_result := fst (snd r); ret_err := snd (snd r); ret_heap := fst r;
            ret_exit := ex; ret_at := at_; ret_wakes := wakes;
            ret_registered := true |} in
  LastResult opts =
    Some {| Value := any_IssuedCert (Some existing);
            State := any_fetchState (Some l); Index := idx |} ->
  h !! l = Some s ->
  forceExpireAfter s <> 0 ->
  entryExpiresAt now existing stagger s <= forceExpireAfter s /\
  (forceExpireAfter s <= now -> forall evs, fetch evs = renewed ExitExpired now 0%nat) /\
  (now < entryExpiresAt now existing stagger s ->
   forall w post, forceExpireAfter s <= w ->
                  fetch (EvExpiry w :: post) = renewed ExitExpiry w 1%nat).
Proof.
  intros fetch renewed Hlast Hl Hforce.
  assert (Hle : entryExpiresAt now existing stagger s <= forceExpireAfter s).
  { unfold entryExpiresAt. destruct (calculateSoftExpiry now existing) as [mn mx].
    unfold Time_IsZero, Time_Before. rewrite (proj2 (Z.eqb_neq _ _) Hforce).
    cbn [negb andb]. destruct (Z.ltb_spec (forceExpireAfter s)
                                          (Time_Add mn (stagger (Time_Sub mx mn)))); lia. }
  split; [exact Hle|]. split.
  - intros Hpast evs. unfold fetch, renewed.
    apply (Fetch_expired_on_entry _ _ _ _ _ _ _ _ _ _ _ _ Hlast Hl). lia.
  - intros Hahead w post Hw. unfold fetch, renewed.
    rewrite (Fetch_enters_loop _ _ _ _ _ _ _ _ _ _ _ _ Hlast Hl Hahead).
    cbn [waitLoop]. unfold timerFired.
    replace (now + Z.max 0 (Time_Sub (entryExpiresAt now existing stagger s) now) <=? w)
      with true; [reflexivity|].
    symmetry. apply Z.leb_le. unfold Time_Sub, minInt64, maxInt64. lia.
Qed.

(** The forced expiry of 10:30:20 left in the state: a call at 10:30:30
    renews at once, and a call at 10:30:10 renews at 10:30:20. *)
Lemma Fetch_honours_pending_forced_expiry_witness :
  forceExpireAfter (stateR1 (clock 10 30 20)) <> 0 /\
  (exists ret,
      Fetch leafDefault extOk (optsS1 (60 * Second)) (any_ConnectCALeafRequest (Some reqWeb))
            {[ 1%positive := stateR1 (clock 10 30 20) ]} (clock 10 30 30)
            (drawn (30 * Minute)) [] = Done ret /\
      ret_exit ret = ExitExpired /\ ret_err ret = None) /\
  (exists ret,
      Fetch leafDefault extOk (optsS1 (60 * Second)) (any_ConnectCALeafRequest (Some reqWeb))
            {[ 1%positive := stateR1 (clock 10 30 20) ]} (clock 10 30 10)
            (drawn (30 * Minute)) [EvExpiry (clock 10 30 20)] = Done ret /\
      ret_exit ret = ExitExpiry /\ ret_at ret = clock 10 30 20 /\ ret_err ret = None).
Proof.
  assert (H1 : forceExpireAfter (stateR1 (clock 10 30 20)) <> 0) by (vm_compute; discriminate).
  assert (Hl : ({[ 1%positive := stateR1 (clock 10 30 20) ]} : heap) !! 1%positive =
               Some (stateR1 (clock 10 30 20))) by reflexivity.
  split; [exact H1|]. split.
  - destruct (Fetch_honours_pending_forced_expiry leafDefault extOk (optsS1 (60 * Second))
                (Some reqWeb) certS1 1%positive 7 (stateR1 (clock 10 30 20))
                {[ 1%positive := stateR1 (clock 10 30 20) ]} (clock 10 30 30)
                (drawn (30 * Minute)) eq_refl Hl H1) as (_ & Hpast & _).
    rewrite (Hpast ltac:(vm_compute; discriminate) []).
    eexists. split; [vm_compute; reflexivity|]. repeat split.
  - destruct (Fetch_honours_pending_forced_expiry leafDefault extOk (optsS1 (60 * Second))
                (Some reqWeb) certS1 1%positive 7 (stateR1 (clock 10 30 20))
                {[ 1%positive := stateR1 (clock 10 30 20) ]} (clock 10 30 10)
                (drawn (30 * Minute)) eq_refl Hl H1) as (_ & _ & Hahead).
    rewrite (Hahead ltac:(vm_compute; reflexivity) (clock 10 30 20) []
                    ltac:(vm_compute; discriminate)).
    eexists. split; [vm_compute; reflexivity|]. repeat split.
Defined.

(** ** [Fetch]: when the renewal happens *)

(** Notices that leave the signer as it is do not move the target expiry:
    a run that ends by the expiry branch took it when the timer made at the
    last wake-up had fired. *)
Lemma waitLoop_same_signer_expiry (c : ConnectCALeaf) (ext : externals)
    (opts : FetchOptions) (reqReal : option ConnectCALeafRequest) (l : loc)
    (result : FetchResult) (s : fetchState) (expiresAt : Time) (h : heap)
    (evs : list selectEvent) :
  forall (t : Time) (k : nat) (ret : fetchReturn),
    h !! l = Some s ->
    (forall w get RandomStagger roots,
        In (EvRootUpdate w get RandomStagger) evs ->
        rootsFromCache get = (Some roots, None) ->
        activeRootHasKey roots (authorityKeyID s) = true) ->
    waitLoop c ext opts reqReal (Some l) result t expiresAt h k evs = Done ret ->
    ret_exit ret = ExitExpiry ->
    exists t', t <= t' /\ timerFired t' (Time_Sub expiresAt t') (ret_at ret) = true.
Proof.
  induction evs as [|ev evs IH]; intros t k ret Hl Hsame H Hx; cbn [waitLoop] in H.
  - discriminate.
  - destruct ev as [w|w|w get RandomStagger].
    + destruct (timerFired _ _ _); [|discriminate]. injection H as <-. discriminate.
    + destruct (timerFired _ _ _) eqn:Hfire; [|discriminate].
      destruct (generateNewLeaf _ _ _ _); try discriminate.
      injection H as <-. cbn. exists t. split; [lia|exact Hfire].
    + destruct (Z.leb_spec t w) as [Htw|]; [|discriminate].
      destruct (onRootUpdate _ _ _ _ _ _ _ _) as [st| | |] eqn:Hstep;
        try discriminate; cbn [run_bind] in H.
      destruct (onRootUpdate_inv _ _ _ _ _ _ _ _ _ _ Hl Hstep)
        as [(roots & e & _ & ->)|[(roots & _ & _ & ->)|(roots & Hget & Hkey & ->)]].
      * injection H as <-. discriminate.
      * destruct (IH w (S k) ret Hl) as (t' & Ht' & Hfire); auto.
        { intros w' get' RS' roots' Hin. apply (Hsame w' get' RS' roots'). right. exact Hin. }
        exists t'. split; [lia|exact Hfire].
      * rewrite (Hsame w get RandomStagger roots (or_introl eq_refl) Hget) in Hkey.
        discriminate.
Qed.

(** X12: a cert is not renewed before its 60% mark unless the signer
    changes.  For a cert valid for at least ten minutes and already valid,
    with no forced expiry in the cached state, a stagger drawn within its
    interval, and roots-change notices that all show the signer of the cert
    still active, every return of [Fetch] that generated a new leaf (on entry
    or from the expiry branch) happens at or after
    [ValidAfter + 0.6 * lifetime]. *)
Theorem Fetch_never_renews_before_soft_mark
    (c : ConnectCALeaf) (ext : externals) (opts : FetchOptions)
    (reqReal : option ConnectCALeafRequest) (existing : IssuedCert) (l : loc) (idx : Z)
    (s : fetchState) (h : heap) (now : Time) (stagger : Duration -> Duration)
    (evs : list selectEvent) (ret : fetchReturn) :
  let L := Time_Sub (ValidBefore existing) (ValidAfter existing) in
  LastResult opts =
    Some {| Value := any_IssuedCert (Some existing);
            State := any_fetchState (Some l); Index := idx |} ->
  h !! l = Some s ->
  forceExpireAfter s = 0 ->
  10 * Minute <= L ->
  ValidAfter existing <= now ->
  staggerInRange stagger
    (Time_Sub (snd (calculateSoftExpiry now existing))
              (fst (calculateSoftExpiry now existing))) = true ->
  (forall w get RandomStagger roots,
      In (EvRootUpdate w get RandomStagger) evs ->
      rootsFromCache get = (Some roots, None) ->
      activeRootHasKey roots (authorityKeyID s) = true) ->
  Fetch c ext opts (any_ConnectCALeafRequest reqReal) h now stagger evs = Done ret ->
  ret_exit ret = ExitExpired \/ ret_exit ret = ExitExpiry ->
  ValidAfter existing + scaleDuration Float64.c0_6 L <= ret_at ret.
Proof.
  intros L Hlast Hl Hforce Hlong Hvalid Hrange Hsame H Hx.
  pose proof (entryExpiresAt_in_window now existing stagger s Hforce Hrange) as [Hlo Hhi].
  set (expiresAt := entryExpiresAt now existing stagger s) in *.
  pose proof (Time_Sub_bounds (ValidBefore existing) (ValidAfter existing)) as HB. fold L in HB.
  destruct (marks_ordered L ltac:(lia)) as [H69 H9L].
  assert (Hwin : ValidAfter existing + scaleDuration Float64.c0_6 L
                 <= fst (calculateSoftExpiry now existing) /\
                 snd (calculateSoftExpiry now existing) <= now + maxInt64).
  { unfold calculateSoftExpiry. rewrite calculateSoftExpiry_at_cases. fold L.
    destruct (Z.ltb_spec L (10 * Minute)); [lia|].
    destruct (Z.ltb_spec (ValidAfter existing + scaleDuration Float64.c0_9 L) now);
      cbn [fst snd]; unfold maxInt64 in *; lia. }
  destruct Hwin as [Hsoft Hmax].
  destruct (Z_le_gt_dec expiresAt now) as [Hdue|Hahead].
  - rewrite (Fetch_expired_on_entry _ _ _ _ _ _ _ _ _ _ _ evs Hlast Hl Hdue) in H.
    destruct (generateNewLeaf _ _ _ _); try discriminate.
    cbn [run_bind] in H. injection H as <-. cbn [ret_at]. lia.
  - rewrite (Fetch_enters_loop _ _ _ _ _ _ _ _ _ _ _ evs Hlast Hl (Z.gt_lt _ _ Hahead)) in H.
    fold expiresAt in H.
    destruct Hx as [Hx|Hx].
    + exfalso. clear -H Hx. revert H. generalize 0%nat at 1. generalize now at 1.
      generalize h. generalize expiresAt.
      induction evs as [|ev evs IH]; intros e h0 t k H; cbn [waitLoop] in H.
      * discriminate.
      * destruct ev as [w|w|w get RS].
        -- destruct (timerFired _ _ _); [|discriminate]. injection H as <-. discriminate.
        -- destruct (timerFired _ _ _); [|discriminate].
           destruct (generateNewLeaf _ _ _ _); try discriminate.
           injection H as <-. discriminate.
        -- destruct (t <=? w); [|discriminate].
           destruct (onRootUpdate _ _ _ _ _ _ _ _) as [[h1 e1|h1 res err]| | |];
             try discriminate; cbn [run_bind] in H.
           ++ eapply IH. exact H.
           ++ injection H as <-. discriminate.
    + destruct (waitLoop_same_signer_expiry _ _ _ _ _ _ _ _ _ _ _ _ _ Hl Hsame H Hx)
        as (t' & Ht' & Hfire).
      unfold timerFired in Hfire. apply Z.leb_le in Hfire.
      unfold Time_Sub, minInt64, maxInt64 in *. lia.
Qed.

(** The cert of 10:00 to 13:00 fetched at 10:30 with a drawn stagger of 30
    minutes: a spurious notice at 10:30:05 changes nothing, and the renewal
    happens at 12:18, after the 60% mark of 11:48. *)
Lemma Fetch_never_renews_before_soft_mark_witness :
  exists ret,
    Fetch leafDefault extOk (optsS1 (3 * Hour)) (any_ConnectCALeafRequest (Some reqWeb))
          {[ 1%positive := stateR1 0 ]} (clock 10 30 0) (drawn (30 * Minute))
          [EvRootUpdate (clock 10 30 5) (Ok (any_IndexedCARoots (Some rootsR1))) (drawn 0);
           EvExpiry (clock 12 18 0)] = Done ret /\
    ret_exit ret = ExitExpiry /\
    ValidAfter certS1 +
    scaleDuration Float64.c0_6 (Time_Sub (ValidBefore certS1) (ValidAfter certS1))
    = clock 11 48 0 /\
    clock 11 48 0 <= ret_at ret.
Proof.
  eexists. split; [vm_compute; reflexivity|]. split; [reflexivity|].
  assert (Hm : ValidAfter certS1 +
               scaleDuration Float64.c0_6 (Time_Sub (ValidBefore certS1) (ValidAfter certS1))
               = clock 11 48 0) by (vm_compute; reflexivity).
  split; [exact Hm|]. rewrite <- Hm.
  assert (Hl : ({[ 1%positive := stateR1 0 ]} : heap) !! 1%positive = Some (stateR1 0))
    by reflexivity.
  eapply (Fetch_never_renews_before_soft_mark leafDefault extOk (optsS1 (3 * Hour))
            (Some reqWeb) certS1 1%positive 7 (stateR1 0) {[ 1%positive := stateR1 0 ]}
            (clock 10 30 0) (drawn (30 * Minute))
            [EvRootUpdate (clock 10 30 5) (Ok (any_IndexedCARoots (Some rootsR1))) (drawn 0);
             EvExpiry (clock 12 18 0)]
            _ eq_refl Hl eq_refl
            ltac:(vm_compute; discriminate) ltac:(vm_compute; discriminate)
            ltac:(vm_compute; reflexivity)).
  - intros w get RS roots [Hin|[Hin|[]]] Hget; [|discriminate].
    injection Hin as <- <- <-. cbn in Hget. injection Hget as <-. reflexivity.
  - vm_compute. reflexivity.
  - right. reflexivity.
Defined.

(** Going round the loop never moves the target expiry later. *)
Lemma loopAfter_expiry_le (c : ConnectCALeaf) (l : loc) (result : FetchResult)
    (pre : list selectEvent) :
  forall (t expiresAt : Time) (h : heap) (s : fetchState) (t' expiresAt' : Time) (h' : heap),
    loopAfter c (Some l) result t expiresAt h pre = Some (t', expiresAt', h') ->
    h !! l = Some s ->
    expiresAt' <= expiresAt.
Proof.
  induction pre as [|ev pre IH]; intros t expiresAt h s t' expiresAt' h' H Hl;
    cbn [loopAfter] in H.
  - injection H as <- <- <-. lia.
  - destruct ev as [w|w|w get RandomStagger]; try discriminate.
    destruct (t <=? w); [|discriminate].
    destruct (onRootUpdate _ _ _ _ _ _ _ _) as [[h1 eA1|h1 res err]| | |] eqn:Hstep;
      try discriminate.
    destruct (onRootUpdate_inv _ _ _ _ _ _ _ _ _ _ Hl Hstep)
      as [(roots & e & _ & Hst)|[(roots & _ & _ & Hst)|(roots & _ & _ & Hst)]];
      try discriminate; injection Hst as -> ->.
    + eapply IH; eauto.
    + pose proof (IH _ _ _ _ _ _ _ H (lookup_insert_eq _ _ _)). lia.
Qed.

(** X13: roots-change notices cannot postpone a renewal.  The target expiry
    computed on entry only moves earlier while [Fetch] goes round its loop,
    and the timer of the expiry branch is made from the target and the
    current time at each pass: whatever notices arrived before, the expiry
    branch can be taken at every instant from the entry target on, and it
    calls [generateNewLeaf] with the cached state. *)
Theorem Fetch_renewal_not_postponed
    (c : ConnectCALeaf) (ext : externals) (opts : FetchOptions)
    (reqReal : option ConnectCALeafRequest) (existing : IssuedCert) (l : loc) (idx : Z)
    (s : fetchState) (h : heap) (now : Time) (stagger : Duration -> Duration)
    (pre post : list selectEvent) (w : Time)
    (t' expiresAt' : Time) (h' : heap) :
  let result := {| Value := any_IssuedCert (Some existing);
                   State := any_fetchState (Some l);
                   Index := ModifyIndex existing |} in
  LastResult opts =
    Some {| Value := any_IssuedCert (Some existing);
            State := any_fetchState (Some l); Index := idx |} ->
  h !! l = Some s ->
  now < entryExpiresAt now existing stagger s ->
  loopAfter c (Some l) result now (entryExpiresAt now existing stagger s) h pre =
    Some (t', expiresAt', h') ->
  t' <= w ->
  entryExpiresAt now existing stagger s <= w ->
  expiresAt' <= entryExpiresAt now existing stagger s /\
  Fetch c ext opts (any_ConnectCALeafRequest reqReal) h now stagger
        (pre ++ EvExpiry w :: post) =
  (r <- generateNewLeaf ext reqReal (Some l) h' ;;
   Done {| ret_result := fst (snd r); ret_err := snd (snd r); ret_heap := fst r;
           ret_exit := ExitExpiry; ret_at := w; ret_wakes := S (length pre);
           ret_registered := true |}).
Proof.
  intros result Hlast Hl Hahead Hpre Htw Hw.
  pose proof (loopAfter_expiry_le _ _ _ _ _ _ _ _ _ _ _ Hpre Hl) as Hle.
  split; [exact Hle|].
  rewrite (Fetch_enters_loop _ _ _ _ _ _ _ _ _ _ _ _ Hlast Hl Hahead).
  fold result. rewrite (waitLoop_after _ _ _ _ _ _ _ _ _ _ _ _ _ _ _ Hpre).
  cbn [waitLoop]. unfold timerFired.
  replace (t' + Z.max 0 (Time_Sub expiresAt' t') <=? w) with true; [reflexivity|].
  symmetry. apply Z.leb_le. unfold Time_Sub, minInt64, maxInt64. lia.
Qed.

(** The target of 12:18 is kept through a spurious notice at 12:17:59, and
    the renewal happens at 12:18. *)
Lemma Fetch_renewal_not_postponed_witness :
  let pre := [EvRootUpdate (clock 12 17 59) (Ok (any_IndexedCARoots (Some rootsR1)))
                           (drawn 0)] in
  clock 10 30 0 < entryExpiresAt (clock 10 30 0) certS1 (drawn (30 * Minute)) (stateR1 0) /\
  loopAfter leafDefault (Some 1%positive) lastS1 (clock 10 30 0)
            (entryExpiresAt (clock 10 30 0) certS1 (drawn (30 * Minute)) (stateR1 0))
            {[ 1%positive := stateR1 0 ]} pre =
    Some (clock 12 17 59, clock 12 18 0, {[ 1%positive := stateR1 0 ]}) /\
  entryExpiresAt (clock 10 30 0) certS1 (drawn (30 * Minute)) (stateR1 0) = clock 12 18 0 /\
  exists ret,
    Fetch leafDefault extOk (optsS1 (3 * Hour)) (any_ConnectCALeafRequest (Some reqWeb))
          {[ 1%positive := stateR1 0 ]} (clock 10 30 0) (drawn (30 * Minute))
          (pre ++ EvExpiry (clock 12 18 0) :: []) = Done ret /\
    ret_exit ret = ExitExpiry /\ ret_at ret = clock 12 18 0 /\ ret_err ret = None.
Proof.
  intros pre.
  assert (H3 : clock 10 30 0 <
               entryExpiresAt (clock 10 30 0) certS1 (drawn (30 * Minute)) (stateR1 0))
    by (vm_compute; reflexivity).
  assert (H4 : loopAfter leafDefault (Some 1%positive) lastS1 (clock 10 30 0)
                 (entryExpiresAt (clock 10 30 0) certS1 (drawn (30 * Minute)) (stateR1 0))
                 {[ 1%positive := stateR1 0 ]} pre =
               Some (clock 12 17 59, clock 12 18 0, {[ 1%positive := stateR1 0 ]}))
    by (vm_compute; reflexivity).
  assert (H5 : entryExpiresAt (clock 10 30 0) certS1 (drawn (30 * Minute)) (stateR1 0)
               = clock 12 18 0) by (vm_compute; reflexivity).
  assert (Hl : ({[ 1%positive := stateR1 0 ]} : heap) !! 1%positive = Some (stateR1 0))
    by reflexivity.
  split; [exact H3|]. split; [exact H4|]. split; [exact H5|].
  destruct (Fetch_renewal_not_postponed leafDefault extOk (optsS1 (3 * Hour))
              (Some reqWeb) certS1 1%positive 7 (stateR1 0) {[ 1%positive := stateR1 0 ]}
              (clock 10 30 0) (drawn (30 * Minute)) pre [] (clock 12 18 0)
              (clock 12 17 59) (clock 12 18 0) {[ 1%positive := stateR1 0 ]}
              eq_refl Hl H3 H4 ltac:(vm_compute; discriminate)
              ltac:(vm_compute; discriminate)) as [_ ->].
  eexists. split; [vm_compute; reflexivity|]. repeat split.
Defined.

(** ** [Fetch]: a first request *)

(** [generateNewLeaf] does not wait: it returns or panics. *)
Lemma generateNewLeaf_not_blocked (ext : externals) (req : option ConnectCALeafRequest)
    (state : option loc) (h : heap) :
  generateNewLeaf ext req state h <> Blocked /\
  generateNewLeaf ext req state h <> Infeasible.
Proof.
  unfold generateNewLeaf, store_forceExpireAfter, store_authorityKeyID, deref, run_bind.
  split; intros H; repeat (case_match; simplify_eq/=).
Qed.

(** X14: a [Fetch] with no last result never waits and never registers with
    the roots watcher: it allocates a fresh state, calls [generateNewLeaf],
    and returns at once whatever the events.  No state already in the store
    is touched.  On success the returned state is the fresh one, and it holds
    no forced expiry. *)
Theorem Fetch_first_request (c : ConnectCALeaf) (ext : externals) (opts : FetchOptions)
    (reqReal : option ConnectCALeafRequest) (h : heap) (now : Time)
    (stagger : Duration -> Duration) (evs : list selectEvent) :
  LastResult opts = None ->
  let fetch := Fetch c ext opts (any_ConnectCALeafRequest reqReal) h now stagger in
  fetch evs = fetch [] /\
  fetch evs <> Blocked /\
  forall ret,
    fetch evs = Done ret ->
    ret_exit ret = ExitNewRequest /\ ret_at ret = now /\
    ret_wakes ret = 0%nat /\ ret_registered ret = false /\
    (forall l s, h !! l = Some s -> ret_heap ret !! l = Some s) /\
    (ret_err ret = None ->
     exists l s,
       h !! l = None /\ State (ret_result ret) = any_fetchState (Some l) /\
       ret_heap ret !! l = Some s /\ forceExpireAfter s = 0).
Proof.
  intros Hlast fetch. unfold fetch, Fetch. rewrite Hlast.
  set (l := fresh (dom h)).
  assert (Hfresh : h !! l = None) by (apply not_elem_of_dom, is_fresh).
  set (h0 := <[l := {| authorityKeyID := ""; forceExpireAfter := 0 |}]> h).
  split; [reflexivity|].
  pose proof (generateNewLeaf_not_blocked ext reqReal (Some l) h0) as [Hnb Hni].
  destruct (generateNewLeaf ext reqReal (Some l) h0) as [[h' [res [e|]]]| | |] eqn:Hgen;
    try contradiction;
    cbn [run_bind]; (split; [discriminate|]); intros ret Hret; try discriminate;
    injection Hret as <-; cbn [ret_exit ret_at ret_wakes ret_registered ret_heap ret_err
                                 ret_result fst snd];
    repeat (split; [reflexivity|]).
  - split; [|discriminate]. intros l' s' Hl'.
    assert (Hne : l <> l') by congruence.
    destruct (generateNewLeaf_error_store _ _ _ _ _ _ _ Hgen)
      as [_ [->|(l1 & s1 & pem & Hl1 & _ & _ & ->)]].
    + unfold h0. rewrite lookup_insert_ne by exact Hne. exact Hl'.
    + injection Hl1 as <-. unfold h0. rewrite !lookup_insert_ne by exact Hne. exact Hl'.
  - apply generateNewLeaf_success_inv in Hgen
      as (roots & r & l1 & s1 & pk & pkPEM & csr & reply & cert & _ & _ & _ & Hl1 & _ & _
          & _ & _ & _ & -> & ->).
    injection Hl1 as <-. split.
    + intros l' s' Hl'. assert (Hne : l <> l') by congruence.
      unfold h0. rewrite !lookup_insert_ne by exact Hne. exact Hl'.
    + intros _. eexists l, _. split; [exact Hfresh|]. split; [reflexivity|].
      rewrite lookup_insert_eq. split; reflexivity.
Qed.

(** A first request for the service ["web"]: the new cert, and a state
    allocated next to the one the store already held. *)
Lemma Fetch_first_request_witness :
  exists ret,
    Fetch leafDefault extOk {| MinIndex := 0; Timeout := 30 * Second; LastResult := None |}
          (any_ConnectCALeafRequest (Some reqWeb))
          {[ 1%positive := stateR1 0 ]} (clock 10 30 0) (drawn 0)
          [EvTimeout (clock 10 30 30)] = Done ret /\
    ret_exit ret = ExitNewRequest /\ ret_wakes ret = 0%nat /\ ret_registered ret = false /\
    ret_heap ret !! 1%positive = Some (stateR1 0).
Proof.
  destruct (Fetch_first_request leafDefault extOk
              {| MinIndex := 0; Timeout := 30 * Second; LastResult := None |}
              (Some reqWeb) {[ 1%positive := stateR1 0 ]} (clock 10 30 0) (drawn 0)
              [EvTimeout (clock 10 30 30)] eq_refl) as (_ & _ & H).
  destruct (Fetch leafDefault extOk
              {| MinIndex := 0; Timeout := 30 * Second; LastResult := None |}
              (any_ConnectCALeafRequest (Some reqWeb))
              {[ 1%positive := stateR1 0 ]} (clock 10 30 0) (drawn 0)
              [EvTimeout (clock 10 30 30)]) as [ret| | |] eqn:E;
    try (vm_compute in E; discriminate).
  exists ret. split; [reflexivity|].
  destruct (H ret eq_refl) as (Hx & _ & Hw & Hr & Hframe & _).
  split; [exact Hx|]. split; [exact Hw|]. split; [exact Hr|].
  apply Hframe. reflexivity.
Defined.

(** ** [Fetch]: the caller timeout *)

(** The cached cert fetched at 10:30 with a timeout of 30 s: a notice at
    10:30:20 with the signer unchanged, and the timeout taken at 10:30:50. *)
Lemma Fetch_exit_timeout_preseeded_witness :
  Fetch leafDefault extOk (optsS1 (30 * Second)) (any_ConnectCALeafRequest (Some reqWeb))
        {[ 1%positive := stateR1 0 ]} (clock 10 30 0) (drawn (30 * Minute))
        [EvRootUpdate (clock 10 30 20) (Ok (any_IndexedCARoots (Some rootsR1))) (drawn 0);
         EvTimeout (clock 10 30 50)] = Done retLateTimeout /\
  ret_exit retLateTimeout = ExitTimeout /\
  ret_err retLateTimeout = None /\
  exists existing l idx,
    LastResult (optsS1 (30 * Second)) =
      Some {| Value := any_IssuedCert (Some existing);
              State := any_fetchState (Some l); Index := idx |} /\
    ret_result retLateTimeout =
      {| Value := any_IssuedCert (Some existing);
         State := any_fetchState (Some l);
         Index := ModifyIndex existing |} /\
    exists t, clock 10 30 0 <= t /\
              t + Z.max 0 (Timeout (optsS1 (30 * Second))) <= ret_at retLateTimeout /\
              (t = clock 10 30 0 \/
               exists get RandomStagger,
                 In (EvRootUpdate t get RandomStagger)
                    [EvRootUpdate (clock 10 30 20)
                                  (Ok (any_IndexedCARoots (Some rootsR1))) (drawn 0);
                     EvTimeout (clock 10 30 50)]).
Proof.
  assert (H : Fetch leafDefault extOk (optsS1 (30 * Second))
                (any_ConnectCALeafRequest (Some reqWeb))
                {[ 1%positive := stateR1 0 ]} (clock 10 30 0) (drawn (30 * Minute))
                [EvRootUpdate (clock 10 30 20) (Ok (any_IndexedCARoots (Some rootsR1)))
                              (drawn 0);
                 EvTimeout (clock 10 30 50)] = Done retLateTimeout)
    by (vm_compute; reflexivity).
  split; [exact H|]. split; [reflexivity|].
  exact (Fetch_exit_timeout_preseeded _ _ _ _ _ _ _ _ _ H eq_refl).
Defined.

(** The same call: the timeout cannot be taken at 10:30:30, thirty seconds
    after the start, and is taken at 10:30:50. *)
Lemma Fetch_timeout_rearmed_witness :
  let fetch := Fetch leafDefault extOk (optsS1 (30 * Second))
                     (any_ConnectCALeafRequest (Some reqWeb))
                     {[ 1%positive := stateR1 0 ]} (clock 10 30 0) (drawn (30 * Minute)) in
  let notice := EvRootUpdate (clock 10 30 20) (Ok (any_IndexedCARoots (Some rootsR1)))
                             (drawn 0) in
  clock 10 30 0 < entryExpiresAt (clock 10 30 0) certS1 (drawn (30 * Minute)) (stateR1 0) /\
  activeRootHasKey rootsR1 (authorityKeyID (stateR1 0)) = true /\
  clock 10 30 0 < clock 10 30 20 /\
  0 < Timeout (optsS1 (30 * Second)) /\
  fetch [notice; EvTimeout (clock 10 30 30)] = Infeasible /\
  fetch [notice; EvTimeout (clock 10 30 50)] = Done retLateTimeout.
Proof.
  intros fetch notice.
  assert (H1 : clock 10 30 0 <
               entryExpiresAt (clock 10 30 0) certS1 (drawn (30 * Minute)) (stateR1 0))
    by (vm_compute; reflexivity).
  assert (H2 : activeRootHasKey rootsR1 (authorityKeyID (stateR1 0)) = true) by reflexivity.
  assert (H3 : clock 10 30 0 < clock 10 30 20) by (vm_compute; reflexivity).
  assert (H4 : 0 < Timeout (optsS1 (30 * Second))) by (vm_compute; reflexivity).
  assert (Hl : ({[ 1%positive := stateR1 0 ]} : heap) !! 1%positive = Some (stateR1 0))
    by reflexivity.
  do 4 (split; [assumption|]).
  destruct (Fetch_timeout_rearmed leafDefault extOk (optsS1 (30 * Second)) (Some reqWeb)
              certS1 1%positive 7 (stateR1 0) {[ 1%positive := stateR1 0 ]}
              (clock 10 30 0) (drawn (30 * Minute)) (clock 10 30 20)
              (Ok (any_IndexedCARoots (Some rootsR1))) (drawn 0) rootsR1
              eq_refl Hl H1 eq_refl H2 H3 H4) as [Ha Hb].
  split.
  - exact Ha.
  - unfold fetch, notice. etransitivity; [exact Hb|]. vm_compute. reflexivity.
Defined.

(** ** The roots watcher over whole runs *)

(** Two fetches come and go and a third registers: one context was made. *)
Lemma watchSteps_at_most_one_watcher_witness :
  exists c rt,
    watchSteps [OpFetchStart 1; OpFetchStart 2; OpFetchDone 1; OpFetchDone 2; OpFetchStart 3]
               (leafDefault, runtime0) = Done (c, rt) /\
    contexts rt = 1%nat /\ (contexts rt <= 1)%nat.
Proof.
  do 2 eexists. split; [reflexivity|]. split; [reflexivity|].
  exact (watchSteps_at_most_one_watcher
           [OpFetchStart 1; OpFetchStart 2; OpFetchDone 1; OpFetchDone 2; OpFetchStart 3]
           _ _ eq_refl).
Defined.

(** While the watcher started by the first fetch is live, the second fetch
    is still registered. *)
Lemma live_watcher_has_subscribers_witness :
  exists c rt,
    watchSteps [OpFetchStart 1; OpNotifyReturned 0 None; OpFetchStart 2; OpFetchDone 1]
               (leafDefault, runtime0) = Done (c, rt) /\
    liveWatchers rt = [0%nat] /\ subscribers c <> ∅.
Proof.
  do 2 eexists. split; [reflexivity|]. split; [vm_compute; reflexivity|].
  apply (live_watcher_has_subscribers
           [OpFetchStart 1; OpNotifyReturned 0 None; OpFetchStart 2; OpFetchDone 1]
           _ _ eq_refl).
  vm_compute. discriminate.
Defined.

(** Once cancelled, the context of the watcher stays cancelled and the
    cancel function stays in place. *)
Lemma watchStep_drained_inv (op : watchOp) (c c' : ConnectCALeaf) (rt rt' : runtime) :
  watchStep op (c, rt) = Done (c', rt') ->
  rootWatchCancel c = Some 0%nat /\ contexts rt = 1%nat /\ 0%nat ∈ cancelled rt ->
  rootWatchCancel c' = Some 0%nat /\ contexts rt' = 1%nat /\ 0%nat ∈ cancelled rt'.
Proof.
  intros H (Hc & Hn & Hcan). destruct op as [ch|ch|ctx err|ctx|ctx e]; cbn in H.
  - rewrite Hc in H. inversion H; subst; clear H. cbn. auto.
  - rewrite Hc in H. revert H. case_decide; intros Hx; inversion Hx; subst; clear Hx; cbn.
    + repeat split; auto. set_solver.
    + auto.
  - destruct (watchers rt !! ctx) as [[| |]|]; try discriminate.
    inversion H; subst; clear H. cbn. auto.
  - destruct (watchers rt !! ctx) as [[| |]|]; try discriminate.
    case_decide; try discriminate. inversion H; subst; clear H. cbn. auto.
  - destruct (watchers rt !! ctx) as [[|old|]|]; try discriminate.
    destruct (onUpdateEvent _ _ _ _) as [[[old' bufs'] sends]| | |]; try discriminate.
    cbn in H. inversion H; subst; clear H. cbn. auto.
Qed.

Lemma watchSteps_inv (P : ConnectCALeaf * runtime -> Prop) :
  (forall op c rt c' rt', watchStep op (c, rt) = Done (c', rt') -> P (c, rt) -> P (c', rt')) ->
  forall ops c rt c' rt',
    watchSteps ops (c, rt) = Done (c', rt') -> P (c, rt) -> P (c', rt').
Proof.
  intros Hstep. induction ops as [|op ops IH]; intros c rt c' rt' H HP; cbn [watchSteps] in H.
  - inversion H; subst. exact HP.
  - destruct (watchStep op (c, rt)) as [[c1 rt1]| | |] eqn:E; try discriminate.
    cbn [run_bind] in H. eapply IH; [exact H|]. eapply Hstep; eauto.
Qed.

(** X15: once the subscriber set of a [ConnectCALeaf] that had a watcher
    has drained, no watcher is live again, whatever happens next: the cancel
    function left in [rootWatchCancel] keeps [ensureRootWatcher] from starting
    another, and the context of the first stays cancelled. *)
Theorem drained_watcher_never_live_again
    (ops1 ops2 : list watchOp) (c1 c2 : ConnectCALeaf) (rt1 rt2 : runtime) :
  watchSteps ops1 (leafDefault, runtime0) = Done (c1, rt1) ->
  rootWatchCancel c1 <> None ->
  subscribers c1 = ∅ ->
  watchSteps ops2 (c1, rt1) = Done (c2, rt2) ->
  liveWatchers rt2 = [] /\ contexts rt2 = 1%nat.
Proof.
  intros H1 Hcancel Hempty H2.
  assert (Hinv1 : (rootWatchCancel c1 = None /\ contexts rt1 = 0%nat) \/
                  (rootWatchCancel c1 = Some 0%nat /\ contexts rt1 = 1%nat /\
                   (subscribers c1 = ∅ -> 0%nat ∈ cancelled rt1))).
  { apply (watchSteps_inv
             (fun cr => (rootWatchCancel (fst cr) = None /\ contexts (snd cr) = 0%nat) \/
                        (rootWatchCancel (fst cr) = Some 0%nat /\
                         contexts (snd cr) = 1%nat /\
                         (subscribers (fst cr) = ∅ -> 0%nat ∈ cancelled (snd cr))))
             (fun op c rt c' rt' => watchStep_live_inv op c c' rt rt')
             ops1 _ _ _ _ H1).
    left. split; reflexivity. }
  destruct Hinv1 as [[Hnone _]|(Hc & Hn & Himp)]; [contradiction|].
  assert (Hinv2 : rootWatchCancel c2 = Some 0%nat /\ contexts rt2 = 1%nat /\
                  0%nat ∈ cancelled rt2).
  { apply (watchSteps_inv
             (fun cr => rootWatchCancel (fst cr) = Some 0%nat /\
                        contexts (snd cr) = 1%nat /\ 0%nat ∈ cancelled (snd cr))
             (fun op c rt c' rt' => watchStep_drained_inv op c c' rt rt')
             ops2 _ _ _ _ H2).
    cbn [fst snd]. auto. }
  destruct Hinv2 as (_ & Hn2 & Hcan2). split; [|exact Hn2].
  unfold liveWatchers. rewrite Hn2. cbn. unfold isLive.
  destruct (watchers rt2 !! 0%nat) as [[| |]|];
    rewrite ?bool_decide_eq_false_2 by (intros Hx; apply Hx, Hcan2);
    rewrite ?decide_False by discriminate; reflexivity.
Qed.

(** After the first fetch has left, two more register and a roots update
    arrives: nobody is watching. *)
Lemma drained_watcher_never_live_again_witness :
  exists c1 rt1 c2 rt2,
    watchSteps [OpFetchStart 1; OpNotifyReturned 0 None; OpFetchDone 1]
               (leafDefault, runtime0) = Done (c1, rt1) /\
    rootWatchCancel c1 <> None /\ subscribers c1 = ∅ /\
    watchSteps [OpCtxDone 0; OpFetchStart 2; OpFetchStart 3] (c1, rt1) = Done (c2, rt2) /\
    subscribers c2 = {[ 2%positive; 3%positive ]} /\
    liveWatchers rt2 = [] /\ contexts rt2 = 1%nat.
Proof.
  do 4 eexists.
  split; [reflexivity|].
  assert (Hc : rootWatchCancel
                 (fst (fetchDone 1 (fst (fetchStart 1 (leafDefault, runtime0)),
                                    setWatcher (snd (fetchStart 1 (leafDefault, runtime0)))
                                               0 (Watching None)))) <> None)
    by (vm_compute; discriminate).
  assert (He : subscribers
                 (fst (fetchDone 1 (fst (fetchStart 1 (leafDefault, runtime0)),
                                    setWatcher (snd (fetchStart 1 (leafDefault, runtime0)))
                                               0 (Watching None)))) = ∅)
    by (vm_compute; reflexivity).
  split; [exact Hc|]. split; [exact He|].
  split; [vm_compute; reflexivity|].
  split; [vm_compute; reflexivity|].
  refine (drained_watcher_never_live_again
            [OpFetchStart 1; OpNotifyReturned 0 None; OpFetchDone 1]
            [OpCtxDone 0; OpFetchStart 2; OpFetchStart 3] _ _ _ _ eq_refl Hc He _).
  vm_compute. reflexivity.
Defined.

(** Where an update event leaves the buffer of a channel: as it was, or
    holding one item, the latter only for a subscriber. *)
Lemma rootWatcher_fan_out_shape (subs : option (gset positive))
    (oldRoots : option IndexedCARoots) (e : cache.UpdateEvent)
    (bufs : gmap positive nat) (ch : positive) :
  match onUpdateEvent subs oldRoots e bufs with
  | Done (_, bufs', _) =>
      bufs' !! ch = bufs !! ch \/ (ch ∈ default ∅ subs /\ bufs' !! ch = Some 1%nat)
  | _ => True
  end.
Proof.
  unfold onUpdateEvent.
  destruct (cache.Err e); [left; reflexivity|].
  destruct (cache.Result e) as [| | |roots| |]; try (left; reflexivity).
  pose proof (notifySubscribers_spec subs bufs) as [_ Hb]. specialize (Hb ch).
  assert (Hsend : match (let '(bufs', sends) := notifySubscribers subs bufs in
                         Done (roots, bufs', sends)) with
                  | Done (_, bufs', _) =>
                      bufs' !! ch = bufs !! ch \/
                      (ch ∈ default ∅ subs /\ bufs' !! ch = Some 1%nat)
                  | _ => True
                  end).
  { destruct (notifySubscribers subs bufs) as [bufs' sends]. cbn [fst] in Hb.
    rewrite Hb. case_decide as Hd; [right; split; [apply Hd|reflexivity]|left; reflexivity]. }
  destruct oldRoots as [old|]; cbn [run_bind deref].
  - destruct roots as [r|]; cbn [run_bind deref]; [|exact I].
    destruct (String.eqb (ActiveRootID old) (ActiveRootID r)); [left; reflexivity|].
    exact Hsend.
  - exact Hsend.
Qed.

(** X16: the watcher sends only to registered channels.  A channel that is
    not in the subscriber set, and that no [Fetch] registers again, keeps its
    buffer as it is and stays out of the set, whatever updates arrive and
    whatever other fetches come and go. *)
Theorem unregistered_channel_untouched
    (ops : list watchOp) (ch : positive) (c c' : ConnectCALeaf) (rt rt' : runtime) :
  ch ∉ subscribers c ->
  ~ In (OpFetchStart ch) ops ->
  watchSteps ops (c, rt) = Done (c', rt') ->
  chans rt' !! ch = chans rt !! ch /\ ch ∉ subscribers c'.
Proof.
  revert c rt. induction ops as [|op ops IH]; intros c rt Hout Hnot H; cbn [watchSteps] in H.
  - inversion H; subst. auto.
  - destruct (watchStep op (c, rt)) as [[c1 rt1]| | |] eqn:E; try discriminate.
    cbn [run_bind] in H.
    assert (Hstep : chans rt1 !! ch = chans rt !! ch /\ ch ∉ subscribers c1).
    { destruct op as [ch'|ch'|ctx err|ctx|ctx e]; cbn in E.
      - assert (Hne : ch <> ch') by (intros ->; apply Hnot; left; reflexivity).
        revert E. destruct (rootWatchCancel c); intros E; inversion E; subst; clear E;
          cbn; (split; [reflexivity|]); unfold subscribers in *; cbn;
          (intros Hin; apply elem_of_union in Hin as [Hin|Hin];
           [apply elem_of_singleton in Hin; contradiction|contradiction]).
      - revert E. destruct (rootWatchCancel c); [case_decide|];
          intros E; inversion E; subst; clear E; cbn; (split; [reflexivity|]);
          unfold subscribers in *; cbn;
          (destruct (rootWatchSubscribers c); cbn in *;
           [intros Hin; apply elem_of_difference in Hin as [Hin _]; contradiction
           |apply not_elem_of_empty]).
      - destruct (watchers rt !! ctx) as [[| |]|]; try discriminate.
        inversion E; subst; clear E. cbn. auto.
      - destruct (watchers rt !! ctx) as [[| |]|]; try discriminate.
        case_decide; try discriminate. inversion E; subst; clear E. cbn. auto.
      - destruct (watchers rt !! ctx) as [[|old|]|]; try discriminate.
        pose proof (rootWatcher_fan_out_shape (rootWatchSubscribers c) old e (chans rt) ch)
          as Hshape.
        destruct (onUpdateEvent _ _ _ _) as [[[old' bufs'] sends]| | |]; try discriminate.
        cbn in E. inversion E; subst; clear E. cbn. split; [|exact Hout].
        destruct Hshape as [Heq|[Hin _]]; [exact Heq|contradiction]. }
    destruct Hstep as [Hb Hs].
    destruct (IH c1 rt1 Hs ltac:(intros Hin; apply Hnot; right; exact Hin) H) as [Hb' Hs'].
    split; [congruence|exact Hs'].
Qed.

(** Fetch 1 has left; the update that wakes fetch 2 leaves the channel of
    fetch 1 empty. *)
Lemma unregistered_channel_untouched_witness :
  exists c rt c' rt',
    watchSteps [OpFetchStart 1; OpNotifyReturned 0 None; OpFetchStart 2; OpFetchDone 1]
               (leafDefault, runtime0) = Done (c, rt) /\
    (1%positive ∉ subscribers c) /\
    watchSteps [OpUpdate 0 {| cache.Result := any_IndexedCARoots (Some rootsR2);
                              cache.Err := None |}] (c, rt) = Done (c', rt') /\
    chans rt' !! 2%positive = Some 1%nat /\
    chans rt' !! 1%positive = chans rt !! 1%positive.
Proof.
  do 4 eexists. split; [reflexivity|].
  match goal with |- (?x ∉ subscribers ?c) /\ _ =>
    assert (Hout : x ∉ subscribers c) by (vm_compute; set_solver) end.
  split; [exact Hout|]. split; [vm_compute; reflexivity|].
  split; [vm_compute; reflexivity|].
  refine (proj1 (unregistered_channel_untouched
                   [OpUpdate 0 {| cache.Result := any_IndexedCARoots (Some rootsR2);
                                  cache.Err := None |}]
                   1%positive _ _ _ _ Hout _ _)).
  - intros [Hin|[]]. discriminate.
  - vm_compute. reflexivity.
Defined.

(** X17: a subscriber channel never holds more than its one item: from a
    runtime whose buffers hold at most one item each, every run leads to such
    a runtime. *)
Theorem subscriber_buffers_hold_one_item
    (ops : list watchOp) (c c' : ConnectCALeaf) (rt rt' : runtime) :
  (forall ch n, chans rt !! ch = Some n -> (n <= 1)%nat) ->
  watchSteps ops (c, rt) = Done (c', rt') ->
  forall ch n, chans rt' !! ch = Some n -> (n <= 1)%nat.
Proof.
  intros Hinit H.
  refine (watchSteps_inv
            (fun cr => forall ch n, chans (snd cr) !! ch = Some n -> (n <= 1)%nat)
            _ ops c rt c' rt' H Hinit).
  clear. intros op c rt c' rt' E Hinv. cbn [snd] in *.
  destruct op as [ch'|ch'|ctx err|ctx|ctx e]; cbn in E.
  - revert E. destruct (rootWatchCancel c); intros E; inversion E; subst; clear E;
      cbn; exact Hinv.
  - revert E. destruct (rootWatchCancel c); [case_decide|];
      intros E; inversion E; subst; clear E; cbn; exact Hinv.
  - destruct (watchers rt !! ctx) as [[| |]|]; try discriminate.
    inversion E; subst; clear E. exact Hinv.
  - destruct (watchers rt !! ctx) as [[| |]|]; try discriminate.
    case_decide; try discriminate. inversion E; subst; clear E. exact Hinv.
  - destruct (watchers rt !! ctx) as [[|old|]|]; try discriminate.
    intros ch n.
    pose proof (rootWatcher_fan_out_shape (rootWatchSubscribers c) old e (chans rt) ch)
      as Hshape.
    destruct (onUpdateEvent _ _ _ _) as [[[old' bufs'] sends]| | |]; try discriminate.
    cbn in E. inversion E; subst; clear E. cbn [snd chans].
    destruct Hshape as [Heq|[_ Heq]]; rewrite Heq.
    + apply Hinv.
    + intros [= <-]. lia.
Qed.

(** Two updates in a row with different active roots: the channel of the
    waiting fetch holds one item. *)
Lemma subscriber_buffers_hold_one_item_witness :
  exists c' rt',
    watchSteps [OpFetchStart 1; OpNotifyReturned 0 None;
                OpUpdate 0 {| cache.Result := any_IndexedCARoots (Some rootsR1);
                              cache.Err := None |};
                OpUpdate 0 {| cache.Result := any_IndexedCARoots (Some rootsR2);
                              cache.Err := None |}]
               (leafDefault, runtime0) = Done (c', rt') /\
    chans rt' !! 1%positive = Some 1%nat /\
    forall ch n, chans rt' !! ch = Some n -> (n <= 1)%nat.
Proof.
  do 2 eexists. split; [reflexivity|]. split; [vm_compute; reflexivity|].
  refine (subscriber_buffers_hold_one_item
            [OpFetchStart 1; OpNotifyReturned 0 None;
             OpUpdate 0 {| cache.Result := any_IndexedCARoots (Some rootsR1);
                           cache.Err := None |};
             OpUpdate 0 {| cache.Result := any_IndexedCARoots (Some rootsR2);
                           cache.Err := None |}]
            leafDefault _ runtime0 _ _ eq_refl).
  intros ch n Hch. vm_compute in Hch. discriminate.
Defined.

Lemma watchSteps_app (ops1 ops2 : list watchOp) (cr : ConnectCALeaf * runtime) :
  watchSteps (ops1 ++ ops2) cr = (cr' <- watchSteps ops1 cr ;; watchSteps ops2 cr').
Proof.
  revert cr. induction ops1 as [|op ops1 IH]; intros cr; cbn [app watchSteps run_bind].
  - reflexivity.
  - destruct (watchStep op cr) as [cr1| | |]; cbn [run_bind]; [apply IH|reflexivity..].
Qed.

(** Until [c.Cache.Notify] has returned, the only watcher there can be is
    the one of context 0, and no buffer has been filled. *)
Lemma watchStep_subscribing_inv (op : watchOp) (c c' : ConnectCALeaf) (rt rt' : runtime) :
  watchStep op (c, rt) = Done (c', rt') ->
  (rootWatchCancel c = None /\ contexts rt = 0%nat /\ watchers rt = ∅ /\ chans rt = ∅) \/
  (rootWatchCancel c <> None /\ contexts rt = 1%nat /\
   (forall ctx st, watchers rt !! ctx = Some st -> ctx = 0%nat) /\
   (watchers rt !! 0%nat = Some Subscribing -> chans rt = ∅)) ->
  (rootWatchCancel c' = None /\ contexts rt' = 0%nat /\ watchers rt' = ∅ /\ chans rt' = ∅) \/
  (rootWatchCancel c' <> None /\ contexts rt' = 1%nat /\
   (forall ctx st, watchers rt' !! ctx = Some st -> ctx = 0%nat) /\
   (watchers rt' !! 0%nat = Some Subscribing -> chans rt' = ∅)).
Proof.
  intros H Hinv. destruct op as [ch|ch|ctx err|ctx|ctx e]; cbn in H.
  - right. destruct Hinv as [(Hc & Hn & Hw & Hb)|(Hc & Hn & Hdom & Hb)].
    + rewrite Hc in H. inversion H; subst; clear H. cbn. rewrite Hn, Hw.
      repeat split; auto; try discriminate.
      intros ctx st Hl. destruct (decide (ctx = 0%nat)) as [->|Hne]; [reflexivity|].
      rewrite lookup_insert_ne, lookup_empty in Hl by congruence. discriminate.
    + destruct (rootWatchCancel c) eqn:Hcc; [|contradiction].
      inversion H; subst; clear H. cbn. repeat split; auto; try discriminate.
  - destruct Hinv as [(Hc & Hn & Hw & Hb)|(Hc & Hn & Hdom & Hb)].
    + rewrite Hc in H. inversion H; subst; clear H. left. cbn. auto.
    + right. destruct (rootWatchCancel c) eqn:Hcc; [|contradiction].
      revert H. case_decide; intros Hx; inversion Hx; subst; clear Hx; cbn;
        repeat split; auto; try discriminate.
  - destruct (watchers rt !! ctx) as [[| |]|] eqn:Hctx; try discriminate.
    inversion H; subst; clear H.
    destruct Hinv as [(Hc & Hn & Hw & Hb)|(Hc & Hn & Hdom & Hb)].
    + rewrite Hw, lookup_empty in Hctx. discriminate.
    + right. pose proof (Hdom _ _ Hctx) as ->. cbn.
      split; [exact Hc|]. split; [exact Hn|]. split.
      * intros ctx st Hl. destruct (decide (ctx = 0%nat)) as [->|Hne]; [reflexivity|].
        rewrite lookup_insert_ne in Hl by congruence. eauto.
      * rewrite lookup_insert_eq. destruct err; discriminate.
  - destruct (watchers rt !! ctx) as [[| |]|] eqn:Hctx; try discriminate.
    case_decide; try discriminate. inversion H; subst; clear H.
    destruct Hinv as [(Hc & Hn & Hw & Hb)|(Hc & Hn & Hdom & Hb)].
    + rewrite Hw, lookup_empty in Hctx. discriminate.
    + right. pose proof (Hdom _ _ Hctx) as ->. cbn.
      split; [exact Hc|]. split; [exact Hn|]. split.
      * intros ctx st Hl. destruct (decide (ctx = 0%nat)) as [->|Hne]; [reflexivity|].
        rewrite lookup_insert_ne in Hl by congruence. eauto.
      * rewrite lookup_insert_eq. discriminate.
  - destruct (watchers rt !! ctx) as [[|old|]|] eqn:Hctx; try discriminate.
    destruct (onUpdateEvent _ _ _ _) as [[[old' bufs'] sends]| | |]; try discriminate.
    cbn in H. inversion H; subst; clear H.
    destruct Hinv as [(Hc & Hn & Hw & Hb)|(Hc & Hn & Hdom & Hb)].
    + rewrite Hw, lookup_empty in Hctx. discriminate.
    + right. pose proof (Hdom _ _ Hctx) as ->. cbn.
      split; [exact Hc|]. split; [exact Hn|]. split.
      * intros ctx st Hl. destruct (decide (ctx = 0%nat)) as [->|Hne]; [reflexivity|].
        rewrite lookup_insert_ne in Hl by congruence. eauto.
      * rewrite lookup_insert_eq. discriminate.
Qed.

(** Once the only watcher has returned, nothing starts another and no
    buffer is filled. *)
Lemma watchStep_exited_inv (op : watchOp) (c c' : ConnectCALeaf) (rt rt' : runtime) :
  watchStep op (c, rt) = Done (c', rt') ->
  rootWatchCancel c <> None /\ contexts rt = 1%nat /\
  (forall ctx st, watchers rt !! ctx = Some st -> st = Exited) /\ chans rt = ∅ ->
  rootWatchCancel c' <> None /\ contexts rt' = 1%nat /\
  (forall ctx st, watchers rt' !! ctx = Some st -> st = Exited) /\ chans rt' = ∅.
Proof.
  intros H (Hc & Hn & Hex & Hb). destruct op as [ch|ch|ctx err|ctx|ctx e]; cbn in H.
  - destruct (rootWatchCancel c) eqn:Hcc; [|contradiction].
    inversion H; subst; clear H. cbn. repeat split; auto; try discriminate.
  - destruct (rootWatchCancel c) eqn:Hcc; [|contradiction].
    revert H. case_decide; intros Hx; inversion Hx; subst; clear Hx; cbn;
      repeat split; auto; discriminate.
  - destruct (watchers rt !! ctx) as [[| |]|] eqn:Hctx; try discriminate.
    apply Hex in Hctx. discriminate.
  - destruct (watchers rt !! ctx) as [[| |]|] eqn:Hctx; try discriminate.
    apply Hex in Hctx. discriminate.
  - destruct (watchers rt !! ctx) as [[|old|]|] eqn:Hctx; try discriminate.
    apply Hex in Hctx. discriminate.
Qed.

(** X18: a watcher whose subscription failed is never replaced.  When
    [c.Cache.Notify] returns an error to the watcher, the watcher returns;
    [rootWatchCancel] stays set, so no later [Fetch] starts another: in every
    run in which that happens no subscriber channel ever receives an item and
    no watcher is live at the end. *)
Theorem failed_subscription_never_retried
    (ops1 ops2 : list watchOp) (err : error) (c : ConnectCALeaf) (rt : runtime) :
  watchSteps (ops1 ++ OpNotifyReturned 0 (Some err) :: ops2) (leafDefault, runtime0)
    = Done (c, rt) ->
  chans rt = ∅ /\ liveWatchers rt = [] /\ rootWatchCancel c <> None.
Proof.
  intros H. rewrite watchSteps_app in H.
  destruct (watchSteps ops1 (leafDefault, runtime0)) as [[c1 rt1]| | |] eqn:H1;
    try discriminate.
  cbn [run_bind watchSteps] in H.
  destruct (watchStep (OpNotifyReturned 0 (Some err)) (c1, rt1)) as [[c2 rt2]| | |] eqn:Hn;
    try discriminate.
  cbn [run_bind] in H.
  assert (Hinv1 :
            (rootWatchCancel c1 = None /\ contexts rt1 = 0%nat /\
             watchers rt1 = ∅ /\ chans rt1 = ∅) \/
            (rootWatchCancel c1 <> None /\ contexts rt1 = 1%nat /\
             (forall ctx st, watchers rt1 !! ctx = Some st -> ctx = 0%nat) /\
             (watchers rt1 !! 0%nat = Some Subscribing -> chans rt1 = ∅))).
  { apply (watchSteps_inv
             (fun cr =>
                (rootWatchCancel (fst cr) = None /\ contexts (snd cr) = 0%nat /\
                 watchers (snd cr) = ∅ /\ chans (snd cr) = ∅) \/
                (rootWatchCancel (fst cr) <> None /\ contexts (snd cr) = 1%nat /\
                 (forall ctx st, watchers (snd cr) !! ctx = Some st -> ctx = 0%nat) /\
                 (watchers (snd cr) !! 0%nat = Some Subscribing -> chans (snd cr) = ∅)))
             (fun op c rt c' rt' => watchStep_subscribing_inv op c c' rt rt')
             ops1 _ _ _ _ H1).
    left. repeat split; reflexivity. }
  assert (Hinv2 : rootWatchCancel c2 <> None /\ contexts rt2 = 1%nat /\
                  (forall ctx st, watchers rt2 !! ctx = Some st -> st = Exited) /\
                  chans rt2 = ∅).
  { cbn in Hn. destruct (watchers rt1 !! 0%nat) as [[| |]|] eqn:H0; try discriminate.
    inversion Hn; subst; clear Hn.
    destruct Hinv1 as [(_ & _ & Hw & _)|(Hc & Hcn & Hdom & Hb)].
    - rewrite Hw, lookup_empty in H0. discriminate.
    - cbn. repeat split; auto.
      intros ctx st Hl. destruct (decide (ctx = 0%nat)) as [->|Hne].
      + rewrite lookup_insert_eq in Hl. congruence.
      + rewrite lookup_insert_ne in Hl by congruence. apply Hdom in Hl. contradiction. }
  assert (Hinv3 : rootWatchCancel c <> None /\ contexts rt = 1%nat /\
                  (forall ctx st, watchers rt !! ctx = Some st -> st = Exited) /\
                  chans rt = ∅).
  { apply (watchSteps_inv
             (fun cr =>
                rootWatchCancel (fst cr) <> None /\ contexts (snd cr) = 1%nat /\
                (forall ctx st, watchers (snd cr) !! ctx = Some st -> st = Exited) /\
                chans (snd cr) = ∅)
             (fun op c rt c' rt' => watchStep_exited_inv op c c' rt rt')
             ops2 _ _ _ _ H Hinv2). }
  destruct Hinv3 as (Hc & Hcn & Hex & Hb). split; [exact Hb|]. split; [|exact Hc].
  unfold liveWatchers. rewrite Hcn. cbn. unfold isLive.
  destruct (watchers rt !! 0%nat) as [st|] eqn:H0.
  - rewrite (Hex _ _ H0). rewrite decide_False by discriminate. reflexivity.
  - rewrite decide_False by discriminate. reflexivity.
Qed.

(** The subscription of the first watcher fails; a second fetch registers
    and waits for updates that nobody will send. *)
Lemma failed_subscription_never_retried_witness :
  exists c rt,
    watchSteps ([OpFetchStart 1] ++ OpNotifyReturned 0 (Some "rpc error"%string)
                  :: [OpFetchStart 2; OpFetchDone 1])
               (leafDefault, runtime0) = Done (c, rt) /\
    subscribers c = {[ 2%positive ]} /\
    chans rt = ∅ /\ liveWatchers rt = [] /\ rootWatchCancel c <> None.
Proof.
  do 2 eexists. split; [reflexivity|]. split; [vm_compute; reflexivity|].
  exact (failed_subscription_never_retried [OpFetchStart 1] [OpFetchStart 2; OpFetchDone 1]
           "rpc error" _ _ eq_refl).
Defined.

(** ** [Fetch]: what a nil error comes with *)

Lemma waitLoop_success (c : ConnectCALeaf) (ext : externals) (opts : FetchOptions)
    (reqReal : option ConnectCALeafRequest) (state : option loc) (result : FetchResult)
    (evs : list selectEvent) :
  forall (t expiresAt : Time) (h : heap) (k : nat) (ret : fetchReturn),
    waitLoop c ext opts reqReal state result t expiresAt h k evs = Done ret ->
    ret_err ret = None ->
    ret_result ret = result \/
    exists h0, generateNewLeaf ext reqReal state h0 =
               Done (ret_heap ret, (ret_result ret, None)).
Proof.
  induction evs as [|ev evs IH]; intros t expiresAt h k ret H He; cbn [waitLoop] in H.
  - discriminate.
  - destruct ev as [w|w|w get RandomStagger].
    + destruct (timerFired _ _ _); [|discriminate]. injection H as <-. left. reflexivity.
    + destruct (timerFired _ _ _); [|discriminate].
      destruct (generateNewLeaf _ _ _ _) as [[h' [res err]]| | |] eqn:Hgen; try discriminate.
      injection H as <-. cbn in He |- *. subst err. right. eauto.
    + destruct (t <=? w); [|discriminate].
      destruct (onRootUpdate _ _ _ _ _ _ _ _) as [[h1 e1|h1 res err]| | |] eqn:Hstep;
        try discriminate; cbn [run_bind] in H.
      * eapply IH; eauto.
      * injection H as <-. cbn in He. subst err. exfalso.
        unfold onRootUpdate, load, store_forceExpireAfter, deref, run_bind in Hstep.
        repeat (case_match; simplify_eq/=).
Qed.

(** X19: [Fetch] never returns a nil error without a cert.  Whenever the
    error is nil, the value is a non-nil [*IssuedCert], the state a non-nil
    [*fetchState], and the index the [ModifyIndex] of that cert. *)
Theorem Fetch_success_has_cert (c : ConnectCALeaf) (ext : externals) (opts : FetchOptions)
    (req : any) (h : heap) (now : Time) (stagger : Duration -> Duration)
    (evs : list selectEvent) (ret : fetchReturn) :
  Fetch c ext opts req h now stagger evs = Done ret ->
  ret_err ret = None ->
  exists cert l,
    ret_result ret = {| Value := any_IssuedCert (Some cert);
                        State := any_fetchState (Some l);
                        Index := ModifyIndex cert |}.
Proof.
  intros H He.
  assert (Hgen : forall reqReal state h0 h' res,
             generateNewLeaf ext reqReal state h0 = Done (h', (res, None)) ->
             exists cert l,
               res = {| Value := any_IssuedCert (Some cert);
                        State := any_fetchState (Some l);
                        Index := ModifyIndex cert |}).
  { intros reqReal state h0 h' res Hg.
    destruct (generateNewLeaf_success _ _ _ _ _ _ Hg)
      as (reply & args & pk & l & s & _ & -> & -> & _).
    exists {| CertPEM := CertPEM reply; PrivateKeyPEM := pk;
              ValidAfter := ValidAfter reply; ValidBefore := ValidBefore reply;
              ModifyIndex := ModifyIndex reply |}, l.
    reflexivity. }
  assert (Hcall : forall reqReal state h0 ex reg,
             (r <- generateNewLeaf ext reqReal state h0 ;;
              Done {| ret_result := fst (snd r); ret_err := snd (snd r);
                      ret_heap := fst r; ret_exit := ex; ret_at := now;
                      ret_wakes := 0; ret_registered := reg |}) = Done ret ->
             exists cert l,
               ret_result ret = {| Value := any_IssuedCert (Some cert);
                                   State := any_fetchState (Some l);
                                   Index := ModifyIndex cert |}).
  { intros reqReal state h0 ex reg Hr.
    destruct (generateNewLeaf ext reqReal state h0) as [[h' [res err]]| | |] eqn:Hg;
      try discriminate.
    cbn [run_bind] in Hr. injection Hr as <-. cbn in He |- *. subst err. eauto. }
  unfold Fetch in H.
  destruct req as [| | | |reqReal|]; try (injection H as <-; discriminate).
  destruct (LastResult opts) as [[v st idx]|]; cbn [Value State] in H;
    [|eapply Hcall; exact H].
  destruct v as [|existing| | | |]; try (injection H as <-; discriminate).
  destruct st as [| |state| | |]; try (injection H as <-; discriminate).
  destruct existing as [existing|], state as [l|]; try (eapply Hcall; exact H).
  destruct (calculateSoftExpiry now existing) as [minExpire maxExpire].
  unfold load, deref in H. cbn [run_bind] in H.
  destruct (h !! l) as [s|]; [|discriminate]. cbn [run_bind] in H.
  destruct (_ || _); [eapply Hcall; exact H|].
  destruct (waitLoop_success _ _ _ _ _ _ _ _ _ _ _ _ H He) as [->|[h0 Hg]].
  - eauto.
  - eapply Hgen; exact Hg.
Qed.

(** The cached cert returned on a timeout, with its own [ModifyIndex]. *)
Lemma Fetch_success_has_cert_witness :
  Fetch leafDefault extOk (optsS1 (30 * Second)) (any_ConnectCALeafRequest (Some reqWeb))
        {[ 1%positive := stateR1 0 ]} (clock 10 30 0) (drawn (30 * Minute))
        [EvRootUpdate (clock 10 30 20) (Ok (any_IndexedCARoots (Some rootsR1))) (drawn 0);
         EvTimeout (clock 10 30 50)] = Done retLateTimeout /\
  ret_err retLateTimeout = None /\
  exists cert l,
    ret_result retLateTimeout = {| Value := any_IssuedCert (Some cert);
                                   State := any_fetchState (Some l);
                                   Index := ModifyIndex cert |}.
Proof.
  assert (H : Fetch leafDefault extOk (optsS1 (30 * Second))
                (any_ConnectCALeafRequest (Some reqWeb))
                {[ 1%positive := stateR1 0 ]} (clock 10 30 0) (drawn (30 * Minute))
                [EvRootUpdate (clock 10 30 20) (Ok (any_IndexedCARoots (Some rootsR1)))
                              (drawn 0);
                 EvTimeout (clock 10 30 50)] = Done retLateTimeout)
    by (vm_compute; reflexivity).
  split; [exact H|]. split; [reflexivity|].
  exact (Fetch_success_has_cert _ _ _ _ _ _ _ _ _ H eq_refl).
Defined.

(** ** The leaf generator: errors *)

(** X20: when [generateNewLeaf] returns an error, the result is the zero
    [FetchResult], no state is added to or removed from the store, and every
    state keeps its authority key.  The forced expiry of a state is kept too,
    with one exception: when the error is the one of [connect.ParseCert], the
    forced expiry of the state passed in has already been reset. *)
Theorem generateNewLeaf_error_keeps_states (ext : externals)
    (req : option ConnectCALeafRequest) (state : option loc) (h h' : heap)
    (res : FetchResult) (e : error) :
  generateNewLeaf ext req state h = Done (h', (res, Some e)) ->
  res = zeroFetchResult /\
  forall l,
    match h !! l, h' !! l with
    | Some s, Some s' =>
        authorityKeyID s' = authorityKeyID s /\
        (forceExpireAfter s' = forceExpireAfter s \/
         (state = Some l /\ forceExpireAfter s' = 0 /\
          exists pem, ParseCert ext pem = Err e))
    | None, None => True
    | _, _ => False
    end.
Proof.
  intros H.
  destruct (generateNewLeaf_error_store _ _ _ _ _ _ _ H)
    as [-> [->|(l0 & s0 & pem & -> & Hl0 & Hparse & ->)]];
    (split; [reflexivity|]); intros l.
  - destruct (h !! l); auto.
  - destruct (decide (l = l0)) as [->|Hne].
    + rewrite Hl0, lookup_insert_eq. cbn. split; [reflexivity|]. right. eauto.
    + rewrite lookup_insert_ne by congruence. destruct (h !! l); auto.
Qed.

(** The forced expiry at 10:30:20 is lost to a cert that does not parse;
    the authority key is kept. *)
Lemma generateNewLeaf_error_keeps_states_witness :
  generateNewLeaf extParseFails (Some reqWeb) (Some 1%positive)
                  {[ 1%positive := stateR1 (clock 10 30 20) ]} =
    Done ({[ 1%positive := stateR1 0 ]},
          (zeroFetchResult, Some "x509: malformed certificate"%string)) /\
  forall l,
    match ({[ 1%positive := stateR1 (clock 10 30 20) ]} : heap) !! l,
          ({[ 1%positive := stateR1 0 ]} : heap) !! l with
    | Some s, Some s' =>
        authorityKeyID s' = authorityKeyID s /\
        (forceExpireAfter s' = forceExpireAfter s \/
         (Some 1%positive = Some l /\ forceExpireAfter s' = 0 /\
          exists pem, ParseCert extParseFails pem =
                      Err "x509: malformed certificate"%string))
    | None, None => True
    | _, _ => False
    end.
Proof.
  assert (H : generateNewLeaf extParseFails (Some reqWeb) (Some 1%positive)
                {[ 1%positive := stateR1 (clock 10 30 20) ]} =
              Done ({[ 1%positive := stateR1 0 ]},
                    (zeroFetchResult, Some "x509: malformed certificate"%string)))
    by (vm_compute; reflexivity).
  split; [exact H|].
  exact (proj2 (generateNewLeaf_error_keeps_states _ _ _ _ _ _ _ H)).
Defined.

(** ** [Fetch]: values of the wrong type *)

(** X21: [Fetch] checks the dynamic types before anything else.  When the
    request is not a [*ConnectCALeafRequest], or a last result is given whose
    value is not a [*IssuedCert] or whose state is not a [*fetchState] (an
    untyped nil counts as neither), [Fetch] returns an error with the zero
    result at once: it generates nothing, leaves the store as it is and does
    not register with the roots watcher. *)
Theorem Fetch_rejects_wrong_types (c : ConnectCALeaf) (ext : externals)
    (opts : FetchOptions) (req : any) (h : heap) (now : Time)
    (stagger : Duration -> Duration) (evs : list selectEvent) :
  (forall r, req <> any_ConnectCALeafRequest r) \/
  (exists last, LastResult opts = Some last /\
                ((forall p, Value last <> any_IssuedCert p) \/
                 (forall p, State last <> any_fetchState p))) ->
  exists msg ex,
    Fetch c ext opts req h now stagger evs =
    Done {| ret_result := zeroFetchResult; ret_err := Some msg; ret_heap := h;
            ret_exit := ex; ret_at := now; ret_wakes := 0;
            ret_registered := false |}.
Proof.
  intros Hbad. unfold Fetch.
  destruct req as [| | | |reqReal|]; try (do 2 eexists; reflexivity).
  destruct Hbad as [Hreq|(last & Hlast & Hbad)]; [exfalso; eapply Hreq; reflexivity|].
  rewrite Hlast.
  destruct (Value last) as [|existing| | | |] eqn:Hv; try (do 2 eexists; reflexivity).
  destruct (State last) as [| |state| | |] eqn:Hs; try (do 2 eexists; reflexivity).
  exfalso. destruct Hbad as [Hbad|Hbad]; eapply Hbad; reflexivity.
Qed.

(** A last result whose value is an untyped nil. *)
Lemma Fetch_rejects_wrong_types_witness :
  let opts := {| MinIndex := 0; Timeout := 30 * Second;
                 LastResult := Some {| Value := any_nil;
                                       State := any_fetchState (Some 1%positive);
                                       Index := 0 |} |} in
  exists msg ex,
    Fetch leafDefault extOk opts (any_ConnectCALeafRequest (Some reqWeb))
          {[ 1%positive := stateR1 0 ]} (clock 10 30 0) (drawn 0) [] =
    Done {| ret_result := zeroFetchResult; ret_err := Some msg;
            ret_heap := {[ 1%positive := stateR1 0 ]};
            ret_exit := ex; ret_at := clock 10 30 0; ret_wakes := 0;
            ret_registered := false |}.
Proof.
  intros opts.
  apply (Fetch_rejects_wrong_types leafDefault extOk opts).
  right. eexists. split; [reflexivity|]. left. intros p. discriminate.
Defined.

(** ** The renewal window in the soft period and after it *)

(** X22: for a cert valid for at least ten minutes, once [now] is past the
    60% mark and not past the 90% mark, the window of [calculateSoftExpiry]
    runs from [now] to the 90% mark; past the 90% mark it is [(now, now)]. *)
Theorem calculateSoftExpiry_in_soft_period (now : Time) (cert : IssuedCert) :
  let L := Time_Sub (ValidBefore cert) (ValidAfter cert) in
  let softRenewTime := ValidAfter cert + scaleDuration Float64.c0_6 L in
  let hardRenewTime := ValidAfter cert + scaleDuration Float64.c0_9 L in
  10 * Minute <= L ->
  softRenewTime < now ->
  calculateSoftExpiry now cert =
    if now <=? hardRenewTime then (now, hardRenewTime) else (now, now).
Proof.
  intros L soft hard Hlong Hnow. unfold calculateSoftExpiry.
  rewrite calculateSoftExpiry_at_cases. fold L. fold soft. fold hard.
  destruct (Z.ltb_spec L (10 * Minute)); [lia|].
  destruct (Z.ltb_spec hard now); destruct (Z.leb_spec now hard); try lia; cbn [snd].
  - reflexivity.
  - f_equal. lia.
Qed.

(** The cert of 10:00 to 13:00 at 12:00, after the 60% mark of 11:48: the
    window runs from 12:00 to 12:42. *)
Lemma calculateSoftExpiry_in_soft_period_witness :
  10 * Minute <= Time_Sub (ValidBefore certS1) (ValidAfter certS1) /\
  ValidAfter certS1 +
    scaleDuration Float64.c0_6 (Time_Sub (ValidBefore certS1) (ValidAfter certS1))
  < clock 12 0 0 /\
  calculateSoftExpiry (clock 12 0 0) certS1 = (clock 12 0 0, clock 12 42 0).
Proof.
  assert (H1 : 10 * Minute <= Time_Sub (ValidBefore certS1) (ValidAfter certS1))
    by (vm_compute; discriminate).
  assert (H2 : ValidAfter certS1 +
               scaleDuration Float64.c0_6
                 (Time_Sub (ValidBefore certS1) (ValidAfter certS1))
               < clock 12 0 0) by (vm_compute; reflexivity).
  split; [exact H1|]. split; [exact H2|].
  rewrite (calculateSoftExpiry_in_soft_period (clock 12 0 0) certS1 H1 H2).
  vm_compute. reflexivity.
Defined.

(** * The retry joiner *)

Lemma wrapInt_small (z : Z) : minInt64 <= z <= maxInt64 -> wrapInt z = z.
Proof.
  unfold wrapInt, minInt64, maxInt64. intros H.
  rewrite Z.mod_small; lia.
Qed.

Lemma wrapInt_range (z : Z) : minInt64 <= wrapInt z <= maxInt64.
Proof.
  unfold wrapInt, minInt64, maxInt64.
  pose proof (Z.mod_pos_bound (z - - 2 ^ 63) (2 ^ 64) ltac:(lia)). lia.
Qed.

(** Copying a map entry by entry gives the map. *)
Lemma copy_providers (m : gmap string discover.Provider) :
  map_fold (fun k v providers => <[k := v]> providers) ∅ m = m.
Proof.
  apply (map_fold_weak_ind (fun r m => r = m)); [reflexivity|].
  intros k v m' r Hk ->. reflexivity.
Qed.

(** The range loop collects the servers of the entries in order. *)
Lemma collect_fst (r : agent.retryJoiner) (p : agent.pass) (cfg : list string) :
  forall (i : nat) (addrs : list string) (tr : list agent.effect),
    fst (agent.collect r p i cfg addrs tr) =
    addrs ++ concat (imap (fun j => expand p (i + j)) cfg).
Proof.
  induction cfg as [|addr cfg IH]; intros i addrs tr; cbn [agent.collect imap concat].
  - rewrite app_nil_r. reflexivity.
  - rewrite Nat.add_0_r. unfold expand at 1.
    assert (E : imap ((fun j => expand p (i + j)) ∘ S) cfg =
                imap (fun j => expand p (S i + j)) cfg).
    { apply imap_ext. intros j x _. cbn. f_equal. lia. }
    rewrite E.
    destruct (strings_Contains addr "provider=").
    + destruct (agent.Addrs p i addr) as [servers|err]; rewrite IH.
      * rewrite <- app_assoc. reflexivity.
      * reflexivity.
    + rewrite IH, <- app_assoc. reflexivity.
Qed.

(** The effects of the range loop: calls of [disco.Addrs] and the line
    logged for each. *)
Lemma collect_snd (r : agent.retryJoiner) (p : agent.pass) (cfg : list string) :
  forall (i : nat) (addrs : list string) (tr : list agent.effect),
    exists trc,
      snd (agent.collect r p i cfg addrs tr) = tr ++ trc /\
      Forall (fun e =>
                match e with
                | agent.disco_Addrs _ => True
                | agent.Printf f _ =>
                    f = "[ERR] agent: Join %s: %s"%string \/
                    f = "[INFO] agent: Discovered %s servers: %s"%string
                | _ => False
                end) trc.
Proof.
  induction cfg as [|addr cfg IH]; intros i addrs tr; cbn [agent.collect].
  - exists []. rewrite app_nil_r. split; [reflexivity|constructor].
  - destruct (strings_Contains addr "provider=").
    + destruct (agent.Addrs p i addr) as [servers|err];
        match goal with |- context [agent.collect r p (S i) cfg ?a ?t] =>
          destruct (IH (S i) a t) as (trc & -> & Hall) end;
        eexists (_ :: _ :: trc); rewrite <- app_assoc;
        (split; [reflexivity|]);
        (constructor; [exact I|]); (constructor; [auto|exact Hall]).
    + apply IH.
Qed.

Lemma collect_spec (r : agent.retryJoiner) (p : agent.pass) (tr : list agent.effect) :
  exists trc,
    agent.collect r p 0 (agent.addrs r) [] tr = (targets r p, tr ++ trc) /\
    Forall (fun e =>
              match e with
              | agent.disco_Addrs _ => True
              | agent.Printf f _ =>
                  f = "[ERR] agent: Join %s: %s"%string \/
                  f = "[INFO] agent: Discovered %s servers: %s"%string
              | _ => False
              end) trc.
Proof.
  destruct (collect_snd r p (agent.addrs r) 0 [] tr) as (trc & Hs & Hall).
  exists trc. split; [|exact Hall].
  pose proof (collect_fst r p (agent.addrs r) 0 [] tr) as Hf.
  destruct (agent.collect r p 0 (agent.addrs r) [] tr) as [a t].
  cbn [fst snd] in *. subst. reflexivity.
Qed.

(** How the loop goes on after a failed pass that does not give up. *)
Lemma retryLoop_unfold (r : agent.retryJoiner) (attempt : Z) (tr : list agent.effect)
    (p : agent.pass) (later : list (agent.wakeUp * agent.pass)) :
  exists trc,
    Forall (fun e =>
              match e with
              | agent.disco_Addrs _ => True
              | agent.Printf f _ =>
                  f = "[ERR] agent: Join %s: %s"%string \/
                  f = "[INFO] agent: Discovered %s servers: %s"%string
              | _ => False
              end) trc /\
    agent.retryLoop r attempt tr p later =
    if passFails r p then
      let tr := tr ++ trc ++ match targets r p with
                             | [] => []
                             | _ => [agent.r_join (targets r p)]
                             end in
      if (0 <? agent.maxAttempts r) && (agent.maxAttempts r <? wrapInt (attempt + 1)) then
        (tr, Done (Some (exhausted r)))
      else
        let tr :=
          tr ++ [agent.Printf "[WARN] agent: Join %s failed: %v, retrying in %v"
                   [agent.ArgString (agent.cluster r);
                    agent.ArgError match targets r p with
                                   | [] => Some "No servers to join"%string
                                   | _ => None
                                   end;
                    agent.ArgDuration (agent.interval r)]] in
        match later with
        | [] => (tr, Blocked)
        | (wk, p') :: later' =>
            if canWake r wk then
              agent.retryLoop r (wrapInt (attempt + 1))
                (tr ++ match wk with
                       | agent.WakeInterval => []
                       | agent.WakeTrigger =>
                           [agent.Printf "[INFO] agent: Retry join re-triggered" []]
                       end) p' later'
            else (tr, Infeasible)
        end
    else
      (tr ++ trc ++
         [agent.r_join (targets r p);
          agent.Printf "[INFO] agent: Join %s completed. Synced with %d initial agents"
            [agent.ArgString (agent.cluster r);
             agent.ArgInt (fst (agent.join p (targets r p)))]],
       Done None).
Proof.
  destruct (collect_spec r p tr) as (trc & Hc & Hall).
  exists trc. split; [exact Hall|].
  unfold passFails, exhausted.
  destruct later as [|[wk p'] later']; cbn [agent.retryLoop]; rewrite Hc;
    destruct (targets r p) as [|a l] eqn:Ht; cbn [length Nat.ltb Nat.leb Nat.eqb];
    rewrite ?app_nil_r, <- ?app_assoc;
    try (destruct (agent.join p (a :: l)) as [n [e|]] eqn:Hj; cbn [fst snd]);
    rewrite ?bool_decide_eq_true_2 by discriminate;
    rewrite ?bool_decide_eq_false_2 by (intros Hx; apply Hx; reflexivity);
    cbv zeta; rewrite <- ?app_assoc; cbn [app];
    try reflexivity;
    destruct ((0 <? agent.maxAttempts r) && (agent.maxAttempts r <? wrapInt (attempt + 1)));
    try reflexivity;
    destruct wk; cbn [canWake]; rewrite ?app_nil_r; try reflexivity;
    destruct (agent.retryTrigger r);
    rewrite ?bool_decide_eq_true_2 by discriminate;
    rewrite ?bool_decide_eq_false_2 by (intros Hx; apply Hx; reflexivity);
    rewrite <- ?app_assoc; reflexivity.
Qed.

Lemma wrapInt_succ (k : Z) : wrapInt (wrapInt k + 1) = wrapInt (k + 1).
Proof.
  unfold wrapInt.
  replace ((k - minInt64) mod 2 ^ 64 + minInt64 + 1 - minInt64)
    with ((k - minInt64) mod 2 ^ 64 + 1) by lia.
  rewrite Z.add_mod_idemp_l by lia. do 2 f_equal. lia.
Qed.

Lemma retryJoin_unfold (r : agent.retryJoiner) (s : agent.setup) (first : agent.pass)
    (later : list (agent.wakeUp * agent.pass)) :
  agent.addrs r <> [] ->
  agent.retryJoin r s first later =
  match agent.New s (providersOf s) with
  | Err err => ([agent.discover_New (providersOf s)], Done (Some err))
  | Ok disco =>
      agent.retryLoop r 0
        [agent.discover_New (providersOf s);
         agent.Printf "[INFO] agent: Retry join %s is supported for: %s"
           [agent.ArgString (agent.cluster r);
            agent.ArgString (strings_Join (discover.Names disco) " ")];
         agent.Printf "[INFO] agent: Joining %s cluster..."
           [agent.ArgString (agent.cluster r)]] first later
  end.
Proof.
  intros Hne. unfold agent.retryJoin, providersOf. rewrite copy_providers.
  destruct (agent.addrs r); [contradiction|]. reflexivity.
Qed.

(** A run of the LAN joiner: the first pass is refused, the joiner is
    re-triggered, discovery fails and the static address is joined. *)
Example scenario_retry_join :
  agent.retryJoin joinerLAN setupOk passRefused [(agent.WakeTrigger, passJoins)] =
  ([agent.discover_New {[ "aws"%string := discover.Default "aws";
                          "k8s"%string := discover.K8s ]};
    agent.Printf "[INFO] agent: Retry join %s is supported for: %s"
      [agent.ArgString "LAN"; agent.ArgString "aws k8s"];
    agent.Printf "[INFO] agent: Joining %s cluster..." [agent.ArgString "LAN"];
    agent.disco_Addrs "provider=aws tag_key=consul";
    agent.Printf "[INFO] agent: Discovered %s servers: %s"
      [agent.ArgString "LAN"; agent.ArgString "10.0.0.2 10.0.0.3"];
    agent.r_join ["10.0.0.1"; "10.0.0.2"; "10.0.0.3"]%string;
    agent.Printf "[WARN] agent: Join %s failed: %v, retrying in %v"
      [agent.ArgString "LAN"; agent.ArgError None; agent.ArgDuration (30 * Second)];
    agent.Printf "[INFO] agent: Retry join re-triggered" [];
    agent.disco_Addrs "provider=aws tag_key=consul";
    agent.Printf "[ERR] agent: Join %s: %s"
      [agent.ArgString "LAN"; agent.ArgError (Some "discover-aws: no credentials"%string)];
    agent.r_join ["10.0.0.1"]%string;
    agent.Printf "[INFO] agent: Join %s completed. Synced with %d initial agents"
      [agent.ArgString "LAN"; agent.ArgInt 3]],
   Done None).
Proof.
  unfold agent.retryJoin. rewrite copy_providers. vm_compute. reflexivity.
Qed.

(** The loop gives up on the pass that takes the counter past
    [maxAttempts], when every pass fails. *)
Lemma retryLoop_all_fail (r : agent.retryJoiner) (later : list (agent.wakeUp * agent.pass)) :
  forall (attempt : Z) (tr : list agent.effect) (p : agent.pass),
    0 <= attempt <= agent.maxAttempts r -> 0 < agent.maxAttempts r < maxInt64 ->
    passFails r p = true -> allFail r later = true ->
    snd (agent.retryLoop r attempt tr p later) =
    if Z.of_nat (length later) <? agent.maxAttempts r - attempt then Blocked
    else Done (Some (exhausted r)).
Proof.
  induction later as [|[wk p'] later IH]; intros attempt tr p Ha Hn Hp Hall;
    [destruct (retryLoop_unfold r attempt tr p []) as (trc & _ & E)
    |destruct (retryLoop_unfold r attempt tr p ((wk, p') :: later)) as (trc & _ & E)].
  - rewrite E, Hp. cbv zeta.
    rewrite (wrapInt_small (attempt + 1)) by (unfold minInt64, maxInt64 in *; lia).
    rewrite (proj2 (Z.ltb_lt 0 _)) by lia. cbn [andb length].
    destruct (Z.ltb_spec (agent.maxAttempts r) (attempt + 1)); cbn [snd];
      destruct (Z.ltb_spec (Z.of_nat 0) (agent.maxAttempts r - attempt));
      try reflexivity; exfalso; cbn in *; lia.
  - rewrite E, Hp. cbv zeta. clear E.
    cbn [allFail forallb fst snd] in Hall.
    apply andb_true_iff in Hall as [Hw Hall]. apply andb_true_iff in Hw as [Hw Hp'].
    rewrite (wrapInt_small (attempt + 1)) by (unfold minInt64, maxInt64 in *; lia).
    rewrite (proj2 (Z.ltb_lt 0 _)) by lia. cbn [andb]. rewrite Hw.
    destruct (Z.ltb_spec (agent.maxAttempts r) (attempt + 1)); cbn [snd].
    + rewrite (proj2 (Z.ltb_ge _ _)); [reflexivity|]. lia.
    + rewrite IH by (auto; lia). cbn [length]. rewrite Nat2Z.inj_succ.
      destruct (Z.ltb_spec (Z.of_nat (length later)) (agent.maxAttempts r - (attempt + 1)));
        destruct (Z.ltb_spec (Z.succ (Z.of_nat (length later)))
                             (agent.maxAttempts r - attempt));
        try reflexivity; exfalso; lia.
Qed.

(** X23: with a positive [maxAttempts] and every pass failing, [retryJoin]
    gives up on pass number [maxAttempts + 1] and not before: it is still
    waiting for its next wake-up while fewer than [maxAttempts] wake-ups have
    arrived, and returns the exhaustion error on the pass after the
    [maxAttempts]-th wake-up. *)
Theorem retryJoin_gives_up_after_maxAttempts
    (r : agent.retryJoiner) (s : agent.setup) (disco : discover.Discover)
    (first : agent.pass) (later : list (agent.wakeUp * agent.pass)) :
  agent.addrs r <> [] ->
  agent.New s (providersOf s) = Ok disco ->
  0 < agent.maxAttempts r < maxInt64 ->
  passFails r first = true ->
  allFail r later = true ->
  snd (agent.retryJoin r s first later) =
    if Z.of_nat (length later) <? agent.maxAttempts r then Blocked
    else Done (Some (exhausted r)).
Proof.
  intros Hne Hnew Hn Hp Hall. rewrite (retryJoin_unfold r s first later Hne), Hnew.
  rewrite (retryLoop_all_fail r later 0 _ first) by (auto; lia).
  rewrite Z.sub_0_r. reflexivity.
Qed.

(** Two attempts are allowed and three are made. *)
Lemma retryJoin_gives_up_after_maxAttempts_witness :
  snd (agent.retryJoin joinerLAN setupOk passRefused
         [(agent.WakeInterval, passRefused)]) = Blocked /\
  snd (agent.retryJoin joinerLAN setupOk passRefused
         [(agent.WakeInterval, passRefused); (agent.WakeTrigger, passRefused)]) =
  Done (Some "agent: max join LAN retry exhausted, exiting"%string).
Proof.
  split.
  - exact (retryJoin_gives_up_after_maxAttempts joinerLAN setupOk
             {| discover.Names := ["aws"; "k8s"]%string |} passRefused
             [(agent.WakeInterval, passRefused)]
             ltac:(discriminate) eq_refl ltac:(vm_compute; split; reflexivity)
             eq_refl eq_refl).
  - exact (retryJoin_gives_up_after_maxAttempts joinerLAN setupOk
             {| discover.Names := ["aws"; "k8s"]%string |} passRefused
             [(agent.WakeInterval, passRefused); (agent.WakeTrigger, passRefused)]
             ltac:(discriminate) eq_refl ltac:(vm_compute; split; reflexivity)
             eq_refl eq_refl).
Defined.

Lemma retryLoop_error (r : agent.retryJoiner) (err : error)
    (later : list (agent.wakeUp * agent.pass)) :
  forall (k : Z) (tr : list agent.effect) (p : agent.pass),
    0 <= k ->
    snd (agent.retryLoop r (wrapInt k) tr p later) = Done (Some err) ->
    0 < agent.maxAttempts r < k + 1 + Z.of_nat (length later) /\ err = exhausted r.
Proof.
  induction later as [|[wk p'] later IH]; intros k tr p Hk H;
    [destruct (retryLoop_unfold r (wrapInt k) tr p []) as (trc & _ & E)
    |destruct (retryLoop_unfold r (wrapInt k) tr p ((wk, p') :: later)) as (trc & _ & E)];
    rewrite E in H; clear E; rewrite wrapInt_succ in H; cbv zeta in H;
    (destruct (passFails r p); [|discriminate]);
    pose proof (wrapInt_range (k + 1)) as Hr;
    destruct (Z.ltb_spec 0 (agent.maxAttempts r)) as [Hpos|Hneg]; cbn [andb] in H;
    try discriminate;
    try (destruct (canWake r wk); [|discriminate];
         apply IH in H; [|lia]; cbn [length]; rewrite Nat2Z.inj_succ;
         destruct H as [H ->]; split; [lia|reflexivity]).
  - destruct (Z.ltb_spec (agent.maxAttempts r) (wrapInt (k + 1))) as [Hlt|Hge];
      [|discriminate].
    cbn [snd] in H. injection H as <-. split; [|reflexivity]. cbn [length Z.of_nat].
    destruct (Z_le_gt_dec (k + 1) maxInt64) as [Hs|Hb].
    + rewrite wrapInt_small in Hlt by (unfold minInt64, maxInt64 in *; lia). lia.
    + lia.
  - destruct (Z.ltb_spec (agent.maxAttempts r) (wrapInt (k + 1))) as [Hlt|Hge].
    + cbn [snd] in H. injection H as <-. split; [|reflexivity].
      cbn [length]. rewrite Nat2Z.inj_succ.
      destruct (Z_le_gt_dec (k + 1) maxInt64) as [Hs|Hb].
      * rewrite wrapInt_small in Hlt by (unfold minInt64, maxInt64 in *; lia). lia.
      * lia.
    + destruct (canWake r wk); [|discriminate].
      apply IH in H; [|lia]. cbn [length]. rewrite Nat2Z.inj_succ.
      destruct H as [H ->]. split; [lia|reflexivity].
Qed.

(** X24: the only errors [retryJoin] returns are the one of [discover.New]
    and the exhaustion error, and the latter only with a positive
    [maxAttempts] that the passes made have exceeded.  With [maxAttempts] zero
    or negative it retries for ever, and the error of [r.join] is never
    returned. *)
Theorem retryJoin_errors
    (r : agent.retryJoiner) (s : agent.setup) (first : agent.pass)
    (later : list (agent.wakeUp * agent.pass)) (err : error) :
  snd (agent.retryJoin r s first later) = Done (Some err) ->
  agent.New s (providersOf s) = Err err \/
  (0 < agent.maxAttempts r <= Z.of_nat (length later) /\ err = exhausted r).
Proof.
  intros H. destruct (agent.addrs r) as [|a l] eqn:Ha.
  - unfold agent.retryJoin in H. rewrite Ha in H. discriminate.
  - rewrite retryJoin_unfold in H by (rewrite Ha; discriminate).
    destruct (agent.New s (providersOf s)) as [disco|e].
    + right. change 0 with (wrapInt 0) in H at 1.
      apply retryLoop_error in H; [|lia]. destruct H as [H ->].
      split; [lia|reflexivity].
    + left. cbn in H. congruence.
Qed.

(** Three refused passes with a limit of two. *)
Lemma retryJoin_errors_witness :
  snd (agent.retryJoin joinerLAN setupOk passRefused
         [(agent.WakeInterval, passRefused); (agent.WakeTrigger, passRefused)]) =
    Done (Some "agent: max join LAN retry exhausted, exiting"%string) /\
  (agent.New setupOk (providersOf setupOk) =
     Err "agent: max join LAN retry exhausted, exiting"%string \/
   (0 < agent.maxAttempts joinerLAN <= 2 /\
    "agent: max join LAN retry exhausted, exiting"%string = exhausted joinerLAN)).
Proof.
  assert (H : snd (agent.retryJoin joinerLAN setupOk passRefused
                     [(agent.WakeInterval, passRefused); (agent.WakeTrigger, passRefused)]) =
              Done (Some "agent: max join LAN retry exhausted, exiting"%string))
    by reflexivity.
  split; [exact H|].
  exact (retryJoin_errors joinerLAN setupOk passRefused
           [(agent.WakeInterval, passRefused); (agent.WakeTrigger, passRefused)]
           "agent: max join LAN retry exhausted, exiting" H).
Defined.

(** Failed passes that do not reach the limit lead to the next pass. *)
Lemma retryLoop_reaches (r : agent.retryJoiner) (wk : agent.wakeUp) (q : agent.pass)
    (post : list (agent.wakeUp * agent.pass)) (pre : list (agent.wakeUp * agent.pass)) :
  forall (attempt : Z) (tr : list agent.effect) (p : agent.pass),
    agent.maxAttempts r <= 0 \/
    (0 <= attempt /\
     attempt + 1 + Z.of_nat (length pre) <= agent.maxAttempts r <= maxInt64) ->
    passFails r p = true -> allFail r pre = true -> canWake r wk = true ->
    exists attempt' tr',
      agent.retryLoop r attempt tr p (pre ++ (wk, q) :: post) =
      agent.retryLoop r attempt' tr' q post.
Proof.
  induction pre as [|[wk' p'] pre IH]; intros attempt tr p Hn Hp Hall Hw;
    cbn [app];
    match goal with |- context [agent.retryLoop r attempt tr p ?l] =>
      destruct (retryLoop_unfold r attempt tr p l) as (trc & _ & E) end;
    rewrite E, Hp; clear E; cbv zeta;
    assert (Hlim : (0 <? agent.maxAttempts r) &&
                   (agent.maxAttempts r <? wrapInt (attempt + 1)) = false)
      by (destruct Hn as [Hn|Hn];
          [rewrite (proj2 (Z.ltb_ge 0 _)) by lia; reflexivity
          |cbn [length] in Hn; rewrite wrapInt_small by (unfold minInt64, maxInt64 in *; lia);
           rewrite (proj2 (Z.ltb_ge _ (attempt + 1))) by lia; apply andb_false_r]);
    rewrite Hlim.
  - rewrite Hw. eauto.
  - cbn [allFail forallb fst snd] in Hall.
    apply andb_true_iff in Hall as [Hw' Hall]. apply andb_true_iff in Hw' as [Hw' Hp'].
    rewrite Hw'. apply IH; auto.
    destruct Hn as [Hn|Hn]; [left; exact Hn|right].
    cbn [length] in Hn. rewrite wrapInt_small by (unfold minInt64, maxInt64 in *; lia).
    lia.
Qed.

(** X25: [retryJoin] returns nil as soon as a pass finds servers and
    [r.join] accepts them, provided the limit of attempts was not reached by
    the failed passes before.  The pass calls [r.join] once, with the static
    addresses and the discovered servers in the order of [r.addrs], entries
    whose discovery failed left out; this call and the completion line are
    the last effects. *)
Theorem retryJoin_joins
    (r : agent.retryJoiner) (s : agent.setup) (disco : discover.Discover)
    (first : agent.pass) (pre post : list (agent.wakeUp * agent.pass))
    (wk : agent.wakeUp) (p : agent.pass) :
  agent.addrs r <> [] ->
  agent.New s (providersOf s) = Ok disco ->
  agent.maxAttempts r <= 0 \/
    Z.of_nat (length pre) < agent.maxAttempts r <= maxInt64 ->
  passFails r first = true ->
  allFail r pre = true ->
  canWake r wk = true ->
  passFails r p = false ->
  exists tr,
    agent.retryJoin r s first (pre ++ (wk, p) :: post) =
    (tr ++ [agent.r_join (targets r p);
            agent.Printf "[INFO] agent: Join %s completed. Synced with %d initial agents"
              [agent.ArgString (agent.cluster r);
               agent.ArgInt (fst (agent.join p (targets r p)))]],
     Done None).
Proof.
  intros Hne Hnew Hn Hf Hall Hw Hp.
  rewrite (retryJoin_unfold r s first _ Hne), Hnew.
  match goal with |- context [agent.retryLoop r 0 ?t first _] =>
    destruct (retryLoop_reaches r wk p post pre 0 t first) as (a' & tr' & ->); auto end.
  { destruct Hn as [Hn|Hn]; [left; exact Hn|right; lia]. }
  destruct (retryLoop_unfold r a' tr' p post) as (trc & _ & ->). rewrite Hp.
  exists (tr' ++ trc). rewrite <- app_assoc. reflexivity.
Qed.

(** The first pass is refused; after a re-trigger discovery fails, and the
    static address alone is joined. *)
Lemma retryJoin_joins_witness :
  passFails joinerLAN passRefused = true /\
  passFails joinerLAN passJoins = false /\
  targets joinerLAN passRefused = ["10.0.0.1"; "10.0.0.2"; "10.0.0.3"]%string /\
  targets joinerLAN passJoins = ["10.0.0.1"]%string /\
  exists tr,
    agent.retryJoin joinerLAN setupOk passRefused
      ([] ++ (agent.WakeTrigger, passJoins) :: []) =
    (tr ++ [agent.r_join (targets joinerLAN passJoins);
            agent.Printf "[INFO] agent: Join %s completed. Synced with %d initial agents"
              [agent.ArgString "LAN"; agent.ArgInt 3]],
     Done None).
Proof.
  split; [reflexivity|]. split; [reflexivity|]. split; [reflexivity|].
  split; [reflexivity|].
  exact (retryJoin_joins joinerLAN setupOk {| discover.Names := ["aws"; "k8s"]%string |}
           passRefused [] [] agent.WakeTrigger passJoins
           ltac:(discriminate) eq_refl
           ltac:(right; vm_compute; split; [reflexivity|discriminate])
           eq_refl eq_refl eq_refl eq_refl).
Defined.

(** A first pass that finds servers and is accepted returns nil at once,
    whatever the limit. *)
Lemma retryJoin_joins_at_once
    (r : agent.retryJoiner) (s : agent.setup) (disco : discover.Discover)
    (first : agent.pass) (later : list (agent.wakeUp * agent.pass)) :
  agent.addrs r <> [] ->
  agent.New s (providersOf s) = Ok disco ->
  passFails r first = false ->
  exists tr,
    agent.retryJoin r s first later =
    (tr ++ [agent.r_join (targets r first);
            agent.Printf "[INFO] agent: Join %s completed. Synced with %d initial agents"
              [agent.ArgString (agent.cluster r);
               agent.ArgInt (fst (agent.join first (targets r first)))]],
     Done None).
Proof.
  intros Hne Hnew Hp. rewrite (retryJoin_unfold r s first _ Hne), Hnew.
  match goal with |- context [agent.retryLoop r 0 ?t first later] =>
    destruct (retryLoop_unfold r 0 t first later) as (trc & _ & ->);
    rewrite Hp; exists (t ++ trc) end.
  rewrite <- app_assoc. reflexivity.
Qed.

(** Every effect of the loop is one of those listed here. *)
Lemma retryLoop_effects (r : agent.retryJoiner) (P : agent.effect -> Prop) :
  (forall cfg, P (agent.disco_Addrs cfg)) ->
  (forall args, P (agent.Printf "[ERR] agent: Join %s: %s" args)) ->
  (forall args, P (agent.Printf "[INFO] agent: Discovered %s servers: %s" args)) ->
  (forall args,
      P (agent.Printf "[INFO] agent: Join %s completed. Synced with %d initial agents" args)) ->
  P (agent.Printf "[INFO] agent: Retry join re-triggered" []) ->
  (forall addrs, addrs <> [] -> P (agent.r_join addrs)) ->
  (forall err, err = None \/ err = Some "No servers to join"%string ->
               P (agent.Printf "[WARN] agent: Join %s failed: %v, retrying in %v"
                    [agent.ArgString (agent.cluster r); agent.ArgError err;
                     agent.ArgDuration (agent.interval r)])) ->
  forall (later : list (agent.wakeUp * agent.pass)) (attempt : Z)
         (tr : list agent.effect) (p : agent.pass),
    Forall P tr -> Forall P (fst (agent.retryLoop r attempt tr p later)).
Proof.
  intros Ha He Hd Hc Ht Hj Hw.
  assert (Hcol : forall trc,
             Forall (fun e =>
                       match e with
                       | agent.disco_Addrs _ => True
                       | agent.Printf f _ =>
                           f = "[ERR] agent: Join %s: %s"%string \/
                           f = "[INFO] agent: Discovered %s servers: %s"%string
                       | _ => False
                       end) trc -> Forall P trc).
  { intros trc H. eapply Forall_impl; [exact H|]. intros [f args|m|cfg|a|e]; cbn; try tauto.
    - intros [->| ->]; auto.
    - auto. }
  assert (Hjoin : forall l : list string,
             Forall P match l with [] => [] | _ :: _ => [agent.r_join l] end).
  { intros [|a l]; repeat constructor. apply Hj. discriminate. }
  induction later as [|[wk p'] later IH]; intros attempt tr p Htr;
    match goal with |- context [agent.retryLoop r attempt tr p ?l] =>
      destruct (retryLoop_unfold r attempt tr p l) as (trc & Hall & ->) end;
    apply Hcol in Hall; cbv zeta;
    (destruct (passFails r p) eqn:Hp;
     [|cbn [fst]; rewrite !Forall_app; repeat split; auto;
       repeat constructor; auto; apply Hj; intros Hnil;
       unfold passFails in Hp; rewrite Hnil in Hp; discriminate]);
    destruct (_ && _); cbn [fst]; try (rewrite !Forall_app; repeat split; auto; fail).
  - rewrite !Forall_app. repeat split; auto. repeat constructor. apply Hw.
    destruct (targets r p); auto.
  - destruct (canWake r wk); cbn [fst].
    + apply IH. rewrite !Forall_app. repeat split; auto.
      * repeat constructor. apply Hw. destruct (targets r p); auto.
      * destruct wk; repeat constructor; auto.
    + rewrite !Forall_app. repeat split; auto. repeat constructor. apply Hw.
      destruct (targets r p); auto.
Qed.

Lemma retryJoin_effects (r : agent.retryJoiner) (s : agent.setup) (first : agent.pass)
    (later : list (agent.wakeUp * agent.pass)) (P : agent.effect -> Prop) :
  (forall m, P (agent.discover_New m)) ->
  (forall args, P (agent.Printf "[INFO] agent: Retry join %s is supported for: %s" args)) ->
  (forall args, P (agent.Printf "[INFO] agent: Joining %s cluster..." args)) ->
  (forall cfg, P (agent.disco_Addrs cfg)) ->
  (forall args, P (agent.Printf "[ERR] agent: Join %s: %s" args)) ->
  (forall args, P (agent.Printf "[INFO] agent: Discovered %s servers: %s" args)) ->
  (forall args,
      P (agent.Printf "[INFO] agent: Join %s completed. Synced with %d initial agents" args)) ->
  P (agent.Printf "[INFO] agent: Retry join re-triggered" []) ->
  (forall addrs, addrs <> [] -> P (agent.r_join addrs)) ->
  (forall err, err = None \/ err = Some "No servers to join"%string ->
               P (agent.Printf "[WARN] agent: Join %s failed: %v, retrying in %v"
                    [agent.ArgString (agent.cluster r); agent.ArgError err;
                     agent.ArgDuration (agent.interval r)])) ->
  Forall P (fst (agent.retryJoin r s first later)).
Proof.
  intros Hn Hs Hg Ha He Hd Hc Ht Hj Hw.
  destruct (agent.addrs r) as [|a l] eqn:Haddrs.
  - unfold agent.retryJoin. rewrite Haddrs. constructor.
  - rewrite retryJoin_unfold by (rewrite Haddrs; discriminate).
    destruct (agent.New s (providersOf s)) as [disco|e]; cbn [fst].
    + apply retryLoop_effects; auto; repeat constructor; auto.
    + repeat constructor. auto.
Qed.

(** X26: [r.join] is never called with an empty list of servers: a pass
    that finds none does not call it. *)
Theorem retryJoin_never_joins_nobody
    (r : agent.retryJoiner) (s : agent.setup) (first : agent.pass)
    (later : list (agent.wakeUp * agent.pass)) (addrs : list string) :
  In (agent.r_join addrs) (fst (agent.retryJoin r s first later)) ->
  addrs <> [].
Proof.
  intros Hin.
  pose proof (retryJoin_effects r s first later
                (fun e => match e with agent.r_join addrs => addrs <> [] | _ => True end))
    as H.
  rewrite Forall_forall in H.
  apply (H ltac:(auto) ltac:(auto) ltac:(auto) ltac:(auto) ltac:(auto) ltac:(auto)
           ltac:(auto) ltac:(auto) ltac:(auto) ltac:(auto) (agent.r_join addrs)).
  apply list_elem_of_In. exact Hin.
Qed.

(** A pass in which discovery fails for the only entry: nobody is joined. *)
Lemma retryJoin_never_joins_nobody_witness :
  In (agent.r_join ["10.0.0.1"]%string)
     (fst (agent.retryJoin joinerLAN setupOk passRefused [(agent.WakeTrigger, passJoins)])) /\
  ["10.0.0.1"]%string <> [] /\
  fst (agent.retryJoin
         {| agent.cluster := "WAN"; agent.addrs := ["provider=aws tag_key=consul"]%string;
            agent.maxAttempts := 1; agent.interval := 30 * Second;
            agent.retryTrigger := None |}
         setupOk passJoins []) =
  [agent.discover_New (providersOf setupOk);
   agent.Printf "[INFO] agent: Retry join %s is supported for: %s"
     [agent.ArgString "WAN"; agent.ArgString "aws k8s"];
   agent.Printf "[INFO] agent: Joining %s cluster..." [agent.ArgString "WAN"];
   agent.disco_Addrs "provider=aws tag_key=consul";
   agent.Printf "[ERR] agent: Join %s: %s"
     [agent.ArgString "WAN"; agent.ArgError (Some "discover-aws: no credentials"%string)];
   agent.Printf "[WARN] agent: Join %s failed: %v, retrying in %v"
     [agent.ArgString "WAN"; agent.ArgError (Some "No servers to join"%string);
      agent.ArgDuration (30 * Second)]].
Proof.
  assert (Hin : In (agent.r_join ["10.0.0.1"]%string)
                   (fst (agent.retryJoin joinerLAN setupOk passRefused
                           [(agent.WakeTrigger, passJoins)]))).
  { rewrite scenario_retry_join. cbn [fst In]. do 10 right. left. reflexivity. }
  split; [exact Hin|].
  split; [exact (retryJoin_never_joins_nobody _ _ _ _ _ Hin)|].
  unfold agent.retryJoin, providersOf. rewrite copy_providers. vm_compute. reflexivity.
Defined.

(** X27: the warning logged after a failed pass does not carry the error of
    [r.join]: that error lives in the scope of the [if] around the call, and
    the [err] the line prints is nil when servers were found, and
    ["No servers to join"] when none was. *)
Theorem retryJoin_warning_without_join_error
    (r : agent.retryJoiner) (s : agent.setup) (first : agent.pass)
    (later : list (agent.wakeUp * agent.pass)) :
  (forall args,
      In (agent.Printf "[WARN] agent: Join %s failed: %v, retrying in %v" args)
         (fst (agent.retryJoin r s first later)) ->
      exists err,
        args = [agent.ArgString (agent.cluster r); agent.ArgError err;
                agent.ArgDuration (agent.interval r)] /\
        (err = None \/ err = Some "No servers to join"%string)) /\
  (forall (disco : discover.Discover) (n : Z) (e : error),
      agent.addrs r <> [] ->
      agent.New s (providersOf s) = Ok disco ->
      targets r first <> [] ->
      agent.join first (targets r first) = (n, Some e) ->
      exists tr,
        agent.retryJoin r s first [] =
        (tr ++ [agent.r_join (targets r first);
                agent.Printf "[WARN] agent: Join %s failed: %v, retrying in %v"
                  [agent.ArgString (agent.cluster r); agent.ArgError None;
                   agent.ArgDuration (agent.interval r)]],
         Blocked)).
Proof.
  split.
  - intros args Hin.
    pose proof (retryJoin_effects r s first later
                  (fun e =>
                     match e with
                     | agent.Printf f args =>
                         f = "[WARN] agent: Join %s failed: %v, retrying in %v"%string ->
                         exists err,
                           args = [agent.ArgString (agent.cluster r); agent.ArgError err;
                                   agent.ArgDuration (agent.interval r)] /\
                           (err = None \/ err = Some "No servers to join"%string)
                     | _ => True
                     end)) as H.
    rewrite Forall_forall in H.
    eapply (H ltac:(auto) ltac:(discriminate) ltac:(discriminate) ltac:(auto)
              ltac:(discriminate) ltac:(discriminate) ltac:(discriminate)
              ltac:(discriminate) ltac:(auto) ltac:(eauto) (agent.Printf _ args)).
    + apply list_elem_of_In. exact Hin.
    + reflexivity.
  - intros disco n e Hne Hnew Ht Hj.
    rewrite (retryJoin_unfold r s first _ Hne), Hnew.
    match goal with |- context [agent.retryLoop r 0 ?t first []] =>
      destruct (retryLoop_unfold r 0 t first []) as (trc & _ & ->);
      exists (t ++ trc) end.
    unfold passFails. destruct (targets r first) as [|a l]; [contradiction|].
    rewrite Hj. cbn [snd]. rewrite bool_decide_eq_true_2 by discriminate.
    cbv zeta. rewrite wrapInt_small by (unfold minInt64, maxInt64; lia).
    replace ((0 <? agent.maxAttempts r) && (agent.maxAttempts r <? 0 + 1)) with false
      by (symmetry; apply andb_false_iff;
          destruct (Z.ltb_spec 0 (agent.maxAttempts r)); [right; apply Z.ltb_ge; lia|auto]).
    rewrite <- !app_assoc. reflexivity.
Qed.

(** The refused pass of the LAN joiner: the warning prints a nil error. *)
Lemma retryJoin_warning_without_join_error_witness :
  targets joinerLAN passRefused <> [] /\
  agent.join passRefused (targets joinerLAN passRefused) =
    (0, Some "connection refused"%string) /\
  exists tr,
    agent.retryJoin joinerLAN setupOk passRefused [] =
    (tr ++ [agent.r_join (targets joinerLAN passRefused);
            agent.Printf "[WARN] agent: Join %s failed: %v, retrying in %v"
              [agent.ArgString "LAN"; agent.ArgError None;
               agent.ArgDuration (30 * Second)]],
     Blocked).
Proof.
  split; [discriminate|]. split; [reflexivity|].
  exact (proj2 (retryJoin_warning_without_join_error joinerLAN setupOk passRefused [])
               {| discover.Names := ["aws"; "k8s"]%string |} 0 "connection refused"%string
               ltac:(discriminate) eq_refl ltac:(discriminate) eq_refl).
Defined.

Lemma joinCalls_app (tr1 tr2 : list agent.effect) :
  joinCalls (tr1 ++ tr2) = (joinCalls tr1 + joinCalls tr2)%nat.
Proof. unfold joinCalls. rewrite List.filter_app, length_app. reflexivity. Qed.

Lemma joinCalls_collect (trc : list agent.effect) :
  Forall (fun e =>
            match e with
            | agent.disco_Addrs _ => True
            | agent.Printf f _ =>
                f = "[ERR] agent: Join %s: %s"%string \/
                f = "[INFO] agent: Discovered %s servers: %s"%string
            | _ => False
            end) trc ->
  joinCalls trc = 0%nat.
Proof.
  induction 1 as [|e trc He _ IH]; [reflexivity|].
  change (e :: trc) with ([e] ++ trc). rewrite joinCalls_app, IH.
  destruct e; try contradiction; reflexivity.
Qed.

Lemma retryLoop_joinCalls (r : agent.retryJoiner)
    (later : list (agent.wakeUp * agent.pass)) :
  forall (attempt : Z) (tr : list agent.effect) (p : agent.pass),
    0 <= attempt <= agent.maxAttempts r -> 0 < agent.maxAttempts r < maxInt64 ->
    (Z.of_nat (joinCalls (fst (agent.retryLoop r attempt tr p later)))
     <= Z.of_nat (joinCalls tr) + (agent.maxAttempts r - attempt) + 1).
Proof.
  induction later as [|[wk p'] later IH]; intros attempt tr p Ha Hn;
    match goal with |- context [agent.retryLoop r attempt tr p ?l] =>
      destruct (retryLoop_unfold r attempt tr p l) as (trc & Hall & ->) end;
    apply joinCalls_collect in Hall; cbv zeta;
    rewrite (wrapInt_small (attempt + 1)) by (unfold minInt64, maxInt64 in *; lia);
    assert (Hone : (joinCalls match targets r p with
                              | [] => []
                              | _ :: _ => [agent.r_join (targets r p)]
                              end <= 1)%nat)
      by (destruct (targets r p); cbn; lia);
    (destruct (passFails r p);
     [|cbn [fst]; rewrite !joinCalls_app, Hall; cbn; lia]);
    destruct (_ && _) eqn:Hlim; cbn [fst];
    try (rewrite !joinCalls_app, Hall; cbn; lia).
  - destruct (canWake r wk); cbn [fst].
    + apply andb_false_iff in Hlim as [Hlim|Hlim];
        [apply Z.ltb_ge in Hlim; lia|apply Z.ltb_ge in Hlim].
      etransitivity; [apply IH; lia|].
      rewrite !joinCalls_app, Hall.
      replace (joinCalls match wk with
                         | agent.WakeInterval => []
                         | agent.WakeTrigger =>
                             [agent.Printf "[INFO] agent: Retry join re-triggered" []]
                         end) with 0%nat by (destruct wk; reflexivity).
      cbn [joinCalls List.filter length]. lia.
    + rewrite !joinCalls_app, Hall; cbn; lia.
Qed.

(** X28: with a positive [maxAttempts], [r.join] is called at most
    [maxAttempts + 1] times, whatever the collaborators answer and whatever
    wakes the joiner. *)
Theorem retryJoin_join_calls_bounded
    (r : agent.retryJoiner) (s : agent.setup) (first : agent.pass)
    (later : list (agent.wakeUp * agent.pass)) :
  0 < agent.maxAttempts r < maxInt64 ->
  Z.of_nat (joinCalls (fst (agent.retryJoin r s first later))) <= agent.maxAttempts r + 1.
Proof.
  intros Hn. destruct (agent.addrs r) as [|a l] eqn:Haddrs.
  - unfold agent.retryJoin. rewrite Haddrs. cbn. lia.
  - rewrite retryJoin_unfold by (rewrite Haddrs; discriminate).
    destruct (agent.New s (providersOf s)) as [disco|e]; cbn [fst].
    + etransitivity; [apply retryLoop_joinCalls; lia|]. cbn. lia.
    + cbn. lia.
Qed.

(** Three refused passes with a limit of two: three calls. *)
Lemma retryJoin_join_calls_bounded_witness :
  0 < agent.maxAttempts joinerLAN < maxInt64 /\
  joinCalls (fst (agent.retryJoin joinerLAN setupOk passRefused
                    [(agent.WakeInterval, passRefused); (agent.WakeTrigger, passRefused);
                     (agent.WakeInterval, passJoins)])) = 3%nat /\
  Z.of_nat (joinCalls (fst (agent.retryJoin joinerLAN setupOk passRefused
                              [(agent.WakeInterval, passRefused);
                               (agent.WakeTrigger, passRefused);
                               (agent.WakeInterval, passJoins)])))
  <= agent.maxAttempts joinerLAN + 1.
Proof.
  assert (H : 0 < agent.maxAttempts joinerLAN < maxInt64)
    by (vm_compute; split; reflexivity).
  split; [exact H|]. split; [vm_compute; reflexivity|].
  exact (retryJoin_join_calls_bounded joinerLAN setupOk passRefused _ H).
Defined.

(** The joiner itself sends nothing on [a.retryJoinCh]. *)
Lemma retryJoin_sends_nothing (r : agent.retryJoiner) (s : agent.setup) (first : agent.pass)
    (later : list (agent.wakeUp * agent.pass)) (err : error) :
  ~ In (agent.retryJoinCh_send err) (fst (agent.retryJoin r s first later)).
Proof.
  intros Hin.
  pose proof (retryJoin_effects r s first later
                (fun e => match e with agent.retryJoinCh_send _ => False | _ => True end))
    as H.
  rewrite Forall_forall in H.
  apply (H ltac:(auto) ltac:(auto) ltac:(auto) ltac:(auto) ltac:(auto) ltac:(auto)
           ltac:(auto) ltac:(auto) ltac:(auto) ltac:(auto) (agent.retryJoinCh_send err)).
  apply list_elem_of_In. exact Hin.
Qed.

Lemma report_sends (r : agent.retryJoiner) (s : agent.setup) (first : agent.pass)
    (later : list (agent.wakeUp * agent.pass)) (err : error) :
  In (agent.retryJoinCh_send err) (fst (agent.report (agent.retryJoin r s first later))) ->
  agent.New s (providersOf s) = Err err \/
  (0 < agent.maxAttempts r <= Z.of_nat (length later) /\ err = exhausted r).
Proof.
  intros Hin.
  pose proof (retryJoin_sends_nothing r s first later err) as Hnone.
  assert (Hres : snd (agent.retryJoin r s first later) = Done (Some err)).
  { destruct (agent.retryJoin r s first later) as [tr [[e|]| | |]]; cbn [fst snd] in *;
      try contradiction.
    apply in_app_or in Hin as [Hin|[Hin|[]]]; [contradiction|]. congruence. }
  destruct (agent.addrs r) as [|a l] eqn:Ha.
  - unfold agent.retryJoin in Hres. rewrite Ha in Hres. discriminate.
  - rewrite retryJoin_unfold in Hres by (rewrite Ha; discriminate).
    destruct (agent.New s (providersOf s)) as [disco|e].
    + right. change 0 with (wrapInt 0) in Hres at 1.
      apply retryLoop_error in Hres; [|lia]. destruct Hres as [Hres ->].
      split; [lia|reflexivity].
    + left. cbn in Hres. congruence.
Qed.

(** X29: [retryJoinLAN] and [retryJoinWAN] send on [a.retryJoinCh] only when
    the joiner has given up or could not be set up: what is sent is the error
    of [discover.New], or the exhaustion error of the cluster, the latter only
    with a positive limit of attempts for that cluster which the passes made
    have exceeded.  The settings of the other cluster play no part. *)
Theorem retryJoin_starters_report_failure (a : agent.Agent) (s : agent.setup)
    (first : agent.pass) (later : list (agent.wakeUp * agent.pass)) (err : error) :
  (In (agent.retryJoinCh_send err) (fst (agent.retryJoinLAN a s first later)) ->
   agent.New s (providersOf s) = Err err \/
   (0 < agent.RetryJoinMaxAttemptsLAN (agent.config a) <= Z.of_nat (length later) /\
    err = "agent: max join LAN retry exhausted, exiting"%string)) /\
  (In (agent.retryJoinCh_send err) (fst (agent.retryJoinWAN a s first later)) ->
   agent.New s (providersOf s) = Err err \/
   (0 < agent.RetryJoinMaxAttemptsWAN (agent.config a) <= Z.of_nat (length later) /\
    err = "agent: max join WAN retry exhausted, exiting"%string)).
Proof.
  split; intros Hin; unfold agent.retryJoinLAN, agent.retryJoinWAN in Hin;
    apply report_sends in Hin; exact Hin.
Qed.

(** An agent whose LAN joiner gives up after two attempts and whose WAN
    joiner has nothing to join. *)
Lemma retryJoin_starters_report_failure_witness :
  let a := {| agent.config :=
                {| agent.RetryJoinLAN := ["10.0.0.1"]%string;
                   agent.RetryJoinMaxAttemptsLAN := 2;
                   agent.RetryJoinIntervalLAN := 30 * Second;
                   agent.RetryJoinWAN := [];
                   agent.RetryJoinMaxAttemptsWAN := 0;
                   agent.RetryJoinIntervalWAN := 30 * Second |};
              agent.retryJoinLANTrigger := None;
              agent.retryJoinWANTrigger := None |} in
  let later := [(agent.WakeInterval, passRefused); (agent.WakeInterval, passRefused)] in
  agent.retryJoinWAN a setupOk passRefused later = ([], Done tt) /\
  In (agent.retryJoinCh_send "agent: max join LAN retry exhausted, exiting")
     (fst (agent.retryJoinLAN a setupOk passRefused later)) /\
  (agent.New setupOk (providersOf setupOk) =
     Err "agent: max join LAN retry exhausted, exiting"%string \/
   (0 < agent.RetryJoinMaxAttemptsLAN (agent.config a) <= Z.of_nat (length later) /\
    "agent: max join LAN retry exhausted, exiting"%string =
    "agent: max join LAN retry exhausted, exiting"%string)).
Proof.
  intros a later. split; [reflexivity|].
  assert (Hin : In (agent.retryJoinCh_send "agent: max join LAN retry exhausted, exiting")
                   (fst (agent.retryJoinLAN a setupOk passRefused later))).
  { unfold agent.retryJoinLAN, agent.retryJoin. rewrite copy_providers.
    vm_compute. do 8 right. left. reflexivity. }
  split; [exact Hin|].
  exact (proj1 (retryJoin_starters_report_failure a setupOk passRefused later _) Hin).
Defined.
